(** * LE pairing functionality test and extended HCI packets of bt-navi-tests

    A shallow embedding of
    - [navi/tests/functionality/le_pairing_test.py]: the parameter matrix of
      [test_secure_pairing], the two connection helpers and the test body;
    - [navi/bumble_ext/hci.py]: [parse_address_followed_by_type],
      [_HciPacket.from_parameters] and [_HciPacket.parameters];
    - [navi/tests/generic_functionality_suite.py]: [main].

    The test body talks to two devices.  Every call that leaves the test
    process is a node of a small free monad ([Prog]); an environment answers
    the calls, and running a program against an environment gives the list of
    calls made with their answers, and the result or the exception raised. *)

From Stdlib Require Import String Ascii.
From Stdlib Require Import List ZArith Bool Lia Arith PeanoNat.
Import ListNotations.

Set Implicit Arguments.

(* ================================================================== *)
(** * Data model *)
(* ================================================================== *)

(** [class TestVariant(enum.Enum)], in declaration order. *)
Inductive TestVariant : Type :=
| ACCEPT
| REJECT
| REJECTED
| DISCONNECTED.

Definition list_TestVariant : list TestVariant :=
  [ACCEPT; REJECT; REJECTED; DISCONNECTED].

(** [constants.Direction]. *)
Inductive Direction : Type :=
| OUTGOING
| INCOMING.

(** bumble's [hci.OwnAddressType]. *)
Inductive AddressType : Type :=
| PUBLIC
| RANDOM
| RESOLVABLE_OR_PUBLIC
| RESOLVABLE_OR_RANDOM.

(** bumble's [pairing.PairingDelegate.IoCapability]. *)
Inductive IoCapability : Type :=
| DISPLAY_OUTPUT_ONLY
| DISPLAY_OUTPUT_AND_YES_NO_INPUT
| KEYBOARD_INPUT_ONLY
| NO_OUTPUT_NO_INPUT
| DISPLAY_OUTPUT_AND_KEYBOARD_INPUT.

(** bumble's [pairing.PairingDelegate.KeyDistribution], an [IntFlag]: the
    masks are integers combined with [|]. *)
Definition KeyDistribution := Z.
Definition DISTRIBUTE_ENCRYPTION_KEY : KeyDistribution := 1%Z.
Definition DISTRIBUTE_IDENTITY_KEY : KeyDistribution := 2%Z.
Definition DISTRIBUTE_SIGNING_KEY : KeyDistribution := 4%Z.
Definition DISTRIBUTE_LINK_KEY : KeyDistribution := 8%Z.

(** [android_constants.BondState]. *)
Inductive BondState : Type :=
| BOND_NONE
| BOND_BONDING
| BOND_BONDED.

Definition TestVariant_eqb (a b : TestVariant) : bool :=
  match a, b with
  | ACCEPT, ACCEPT | REJECT, REJECT
  | REJECTED, REJECTED | DISCONNECTED, DISCONNECTED => true
  | _, _ => false
  end.

Definition Direction_eqb (a b : Direction) : bool :=
  match a, b with
  | OUTGOING, OUTGOING | INCOMING, INCOMING => true
  | _, _ => false
  end.

Definition AddressType_eqb (a b : AddressType) : bool :=
  match a, b with
  | PUBLIC, PUBLIC | RANDOM, RANDOM
  | RESOLVABLE_OR_PUBLIC, RESOLVABLE_OR_PUBLIC
  | RESOLVABLE_OR_RANDOM, RESOLVABLE_OR_RANDOM => true
  | _, _ => false
  end.

Definition IoCapability_eqb (a b : IoCapability) : bool :=
  match a, b with
  | DISPLAY_OUTPUT_ONLY, DISPLAY_OUTPUT_ONLY
  | DISPLAY_OUTPUT_AND_YES_NO_INPUT, DISPLAY_OUTPUT_AND_YES_NO_INPUT
  | KEYBOARD_INPUT_ONLY, KEYBOARD_INPUT_ONLY
  | NO_OUTPUT_NO_INPUT, NO_OUTPUT_NO_INPUT
  | DISPLAY_OUTPUT_AND_KEYBOARD_INPUT, DISPLAY_OUTPUT_AND_KEYBOARD_INPUT => true
  | _, _ => false
  end.

Definition BondState_eqb (a b : BondState) : bool :=
  match a, b with
  | BOND_NONE, BOND_NONE | BOND_BONDING, BOND_BONDING
  | BOND_BONDED, BOND_BONDED => true
  | _, _ => false
  end.

(** The six parameters of [test_secure_pairing]. *)
Record ScenarioCase : Type := mkCase {
  variant : TestVariant;
  connection_direction : Direction;
  pairing_direction : Direction;
  ref_io_capability : IoCapability;
  ref_connection_address_type : AddressType;
  smp_key_distribution : KeyDistribution
}.

(* ================================================================== *)
(** * The parameter matrix of [test_secure_pairing] *)
(* ================================================================== *)

Module Matrix.

(** One step of [itertools.product]: every element of the left pool paired
    with every element of the right pool, the right pool running fastest. *)
Definition product_step {A B : Type} (result : list A) (pool : list B)
  : list (A * B) :=
  flat_map (fun x => map (fun y => (x, y)) pool) result.

Definition io_capabilities : list IoCapability :=
  [NO_OUTPUT_NO_INPUT; DISPLAY_OUTPUT_AND_YES_NO_INPUT].

Definition address_types : list AddressType := [RANDOM; PUBLIC].

Definition key_distributions : list KeyDistribution :=
  [ Z.lor DISTRIBUTE_ENCRYPTION_KEY DISTRIBUTE_IDENTITY_KEY;
    Z.lor (Z.lor DISTRIBUTE_ENCRYPTION_KEY DISTRIBUTE_IDENTITY_KEY)
          DISTRIBUTE_LINK_KEY ].

Definition case_of_tuple
  (t : TestVariant * Direction * Direction * IoCapability * AddressType
       * KeyDistribution) : ScenarioCase :=
  let '(v, cd, pd, io, at_, kd) := t in mkCase v cd pd io at_ kd.

(** First exclusion: "Android cannot reject pairing when
    PASSKEY_NOTIFICATION method is used". *)
Definition excluded_reject_notification (c : ScenarioCase) : bool :=
  TestVariant_eqb (variant c) REJECT
  && IoCapability_eqb (ref_io_capability c) KEYBOARD_INPUT_ONLY.

(** Second exclusion: "Android cannot send SMP_Security_Request". *)
Definition excluded_incoming_outgoing (c : ScenarioCase) : bool :=
  Direction_eqb (connection_direction c) INCOMING
  && Direction_eqb (pairing_direction c) OUTGOING.

Section WithDirections.

(** [list(_Direction)]: the members of [constants.Direction] in declaration
    order.  The declaration is not part of the sources at hand, so the list
    is a parameter. *)
Variable list_Direction : list Direction.

(** [itertools.product(list(TestVariant), list(_Direction),
    list(_Direction), (...), (...), (...))]. *)
Definition full_product : list ScenarioCase :=
  map case_of_tuple
    (product_step
       (product_step
          (product_step
             (product_step
                (product_step list_TestVariant list_Direction)
                list_Direction)
             io_capabilities)
          address_types)
       key_distributions).

(** The generator expression handed to [navi_test_base.parameterized]. *)
Definition test_secure_pairing_parameters : list ScenarioCase :=
  flat_map
    (fun c =>
       if negb (excluded_reject_notification c)
          && negb (excluded_incoming_outgoing c)
       then [c] else [])
    full_product.

End WithDirections.

Definition excluded (c : ScenarioCase) : bool :=
  excluded_reject_notification c || excluded_incoming_outgoing c.

End Matrix.

(* ================================================================== *)
(** * Values exchanged with the two devices *)
(* ================================================================== *)

(** A Python value as carried by [PairingRequest.pin] and
    [PairingEvent.arg]: [None], a [bool] or an [int]. *)
Inductive PyValue : Type :=
| PyNone
| PyBool (b : bool)
| PyInt (z : Z).

(** bumble's [core.BT_BR_EDR_TRANSPORT] and [core.BT_LE_TRANSPORT]. *)
Inductive Transport : Type :=
| BT_BR_EDR_TRANSPORT
| BT_LE_TRANSPORT.

Definition Transport_eqb (a b : Transport) : bool :=
  match a, b with
  | BT_BR_EDR_TRANSPORT, BT_BR_EDR_TRANSPORT
  | BT_LE_TRANSPORT, BT_LE_TRANSPORT => true
  | _, _ => false
  end.

(** bumble's [device.Connection], as far as the test looks at it. *)
Record Connection : Type := mkConnection {
  conn_handle : nat;
  conn_transport : Transport
}.

(** bumble's [device.Advertisement]: the sender and what
    [adv.data.get(COMPLETE_LIST_OF_128_BIT_SERVICE_CLASS_UUIDS)] returns. *)
Record Advertisement : Type := mkAdvertisement {
  adv_address : string;
  adv_service_uuids : option (list string)
}.

(** [android_constants.PairingVariant]: the two members the test names, and
    any other member by its number. *)
Inductive DutPairingVariant : Type :=
| CONSENT
| PASSKEY_CONFIRMATION
| OtherDutVariant (code : nat).

(** [pairing_utils.PairingVariant]: the two members the test names, and any
    other member by its number. *)
Inductive RefPairingVariant : Type :=
| JUST_WORK
| NUMERIC_COMPARISON
| OtherRefVariant (code : nat).

Definition DutPairingVariant_eqb (a b : DutPairingVariant) : bool :=
  match a, b with
  | CONSENT, CONSENT | PASSKEY_CONFIRMATION, PASSKEY_CONFIRMATION => true
  | OtherDutVariant m, OtherDutVariant n => Nat.eqb m n
  | _, _ => false
  end.

Definition RefPairingVariant_eqb (a b : RefPairingVariant) : bool :=
  match a, b with
  | JUST_WORK, JUST_WORK | NUMERIC_COMPARISON, NUMERIC_COMPARISON => true
  | OtherRefVariant m, OtherRefVariant n => Nat.eqb m n
  | _, _ => false
  end.

(** [bl4a_api.PairingRequest]. *)
Record PairingRequest : Type := mkPairingRequest {
  pr_address : string;
  pr_variant : DutPairingVariant;
  pr_pin : PyValue
}.

(** [bl4a_api.BondStateChanged]. *)
Record BondStateChanged : Type := mkBondStateChanged {
  bs_address : string;
  bs_state : BondState
}.

(** [pairing_utils.PairingEvent(variant, arg)]. *)
Record PairingEvent : Type := mkPairingEvent {
  pe_variant : RefPairingVariant;
  pe_arg : PyValue
}.

(** [pairing_utils.PairingDelegate(...)] as the test constructs it. *)
Record PairingDelegate : Type := mkPairingDelegate {
  auto_accept : bool;
  io_capability : IoCapability;
  local_initiator_key_distribution : KeyDistribution;
  local_responder_key_distribution : KeyDistribution
}.

(** bumble's [pairing.PairingConfig(...)] as [pairing_config_factory]
    returns it. *)
Record PairingConfig : Type := mkPairingConfig {
  sc : bool;
  mitm : bool;
  bonding : bool;
  identity_address_type : AddressType;
  delegate : PairingDelegate
}.

(** What [self.close_after_test] collects. *)
Inductive Closeable : Type :=
| GattClient (handle : nat)
| DutCallback.

(** The exception classes the test distinguishes. *)
Inductive exn : Type :=
| TimeoutError
| AssertionFailure
| ProtocolError
| CancelledError
| KeyError
| OtherError (code : nat).

Definition exn_eqb (a b : exn) : bool :=
  match a, b with
  | TimeoutError, TimeoutError | AssertionFailure, AssertionFailure
  | ProtocolError, ProtocolError | CancelledError, CancelledError
  | KeyError, KeyError => true
  | OtherError m, OtherError n => Nat.eqb m n
  | _, _ => false
  end.

(** A call returns or raises. *)
Inductive result (T : Type) : Type :=
| Ok (v : T)
| Err (e : exn).
Arguments Ok {T} v.
Arguments Err {T} e.

(* ================================================================== *)
(** * Programs over the calls to the devices *)
(* ================================================================== *)

(** Every call of the test that leaves the test process. *)
Inductive Call : Type :=
(* [uuid.uuid4()] *)
| Uuid4
(* [self.ref.device]: the bumble stack of REF *)
| RefSetPairingConfigFactory (config : PairingConfig)
| RefStartAdvertising (own_address_type : AddressType)
| RefStopAdvertising
| RefStartScanning
| RefStopScanning
| RefConnect (peer : string) (own_address_type : AddressType)
| RefGetRemoteLeFeatures (connection : Connection)
| RefRequestPairing (connection : Connection)
| RefCreatePairTask (connection : Connection)
| RefDisconnect (connection : Connection)
| AwaitPairTask
(* what the handlers registered on an [EventWatcher] are called with *)
| RefConnectionEvents
| RefAdvertisementEvents
(* [self.dut.bt], [self.dut.bl4a] and the callback [dut_cb] *)
| DutCreateBond (address : string) (address_type : AddressType)
| DutConnectGattClient (address : string) (address_type : AddressType)
| DutStartLegacyAdvertiser (own_address_type : AddressType)
                           (service_uuids : list string)
| AdvertiserExit (advertiser : nat)
| DutRegisterCallback
| DutWaitForPairingRequest
| DutWaitForBondStateChanged
| DutGetAllBondStateChanged
| DutSetPairingConfirmation (address : string) (accept : bool)
| CloseAfterTestAppend (resource : Closeable)
(* the two queues of the REF pairing delegate *)
| PairingEventsGet
| PairingAnswersPutNowait (answer : PairingEvent).

(** What each call is answered with.  A call into a device returns or
    raises ([result]); a wait on a queue with a time bound yields nothing
    when the bound expires ([option]); the event calls yield the events that
    were dispatched, in order. *)
Definition Resp (c : Call) : Type :=
  match c with
  | Uuid4 => string
  | RefSetPairingConfigFactory _ => unit
  | RefStartAdvertising _ => result unit
  | RefStopAdvertising => result unit
  | RefStartScanning => result unit
  | RefStopScanning => result unit
  | RefConnect _ _ => result Connection
  | RefGetRemoteLeFeatures _ => result unit
  | RefRequestPairing _ => result unit
  | RefCreatePairTask _ => unit
  | RefDisconnect _ => result unit
  | AwaitPairTask => result unit
  | RefConnectionEvents => list Connection
  | RefAdvertisementEvents => list Advertisement
  | DutCreateBond _ _ => result bool
  | DutConnectGattClient _ _ => result nat
  | DutStartLegacyAdvertiser _ _ => result nat
  | AdvertiserExit _ => unit
  | DutRegisterCallback => result unit
  | DutWaitForPairingRequest => list PairingRequest
  | DutWaitForBondStateChanged => list BondStateChanged
  | DutGetAllBondStateChanged => list BondStateChanged
  | DutSetPairingConfirmation _ _ => result unit
  | CloseAfterTestAppend _ => unit
  | PairingEventsGet => option PairingEvent
  | PairingAnswersPutNowait _ => unit
  end.

(** A program: it returns, raises, or makes a call and goes on with the
    answer. *)
Inductive Prog (A : Type) : Type :=
| Ret (a : A)
| Raise (e : exn)
| Vis (c : Call) (k : Resp c -> Prog A).
Arguments Ret {A} a.
Arguments Raise {A} e.
Arguments Vis {A} c k.

Fixpoint bind {A B : Type} (m : Prog A) (f : A -> Prog B) : Prog B :=
  match m with
  | Ret a => f a
  | Raise e => Raise e
  | Vis c k => Vis c (fun r => bind (k r) f)
  end.

Declare Scope prog_scope.
Delimit Scope prog_scope with prog.
Notation "x <- m ;; k" := (bind m (fun x => k))
  (at level 61, m at next level, right associativity) : prog_scope.
Notation "m ;; k" := (bind m (fun _ => k))
  (at level 61, right associativity) : prog_scope.
Open Scope prog_scope.

(** A call, with its answer as it is. *)
Definition call (c : Call) : Prog (Resp c) := Vis c (fun r => Ret r).

(** The value of a call that returned, the exception of one that raised. *)
Definition unwrap {T : Type} (r : result T) : Prog T :=
  match r with
  | Ok v => Ret v
  | Err e => Raise e
  end.

(** [try: m except e: handler e]. *)
Fixpoint catch {A : Type} (m : Prog A) (handler : exn -> Prog A) : Prog A :=
  match m with
  | Ret a => Ret a
  | Raise e => handler e
  | Vis c k => Vis c (fun r => catch (k r) handler)
  end.

(** [with cm: body], for a context manager whose [__exit__] is the call
    [exit] and does not swallow exceptions: [exit] runs when the body
    returns and when it raises. *)
Fixpoint with_exit {A : Type} (exit : Call) (body : Prog A) : Prog A :=
  match body with
  | Ret a => Vis exit (fun _ => Ret a)
  | Raise e => Vis exit (fun _ => Raise e)
  | Vis c k => Vis c (fun r => with_exit exit (k r))
  end.

(** [asserts.assert_equal] and [assertTrue] of mobly. *)
Definition assert_true (b : bool) : Prog unit :=
  if b then Ret tt else Raise AssertionFailure.

(** [with contextlib.suppress(...)] over the listed exception classes. *)
Definition contextlib_suppress (expected_errors : list exn) (body : Prog unit)
  : Prog unit :=
  catch body
    (fun e => if existsb (exn_eqb e) expected_errors then Ret tt else Raise e).

(** [d[key]] on a dict literal: the value of the last entry with that key,
    [KeyError] without one. *)
Fixpoint dict_get {V : Type} (d : list (IoCapability * V)) (key : IoCapability)
  : option V :=
  match d with
  | [] => None
  | (k, v) :: rest =>
      match dict_get rest key with
      | Some v' => Some v'
      | None => if IoCapability_eqb k key then Some v else None
      end
  end.

Definition dict_getitem {V : Type} (d : list (IoCapability * V))
  (key : IoCapability) : Prog V :=
  match dict_get d key with
  | Some v => Ret v
  | None => Raise KeyError
  end.

(** Every call a program can make, whatever the answers, satisfies [P]. *)
Fixpoint all_calls {A : Type} (P : Call -> Prop) (p : Prog A) : Prop :=
  match p with
  | Ret _ => True
  | Raise _ => True
  | Vis c k => P c /\ forall r, all_calls P (k r)
  end.

(** ** Running a program *)

(** The environment answers the call made at a given position of the run. *)
Definition Env : Type := forall c : Call, nat -> Resp c.

(** A call with its answer. *)
Record Obs : Type := mkObs {
  obs_call : Call;
  obs_resp : Resp obs_call
}.

Definition Trace : Type := list Obs.

Fixpoint run {A : Type} (p : Prog A) (env : Env) (n : nat)
  : Trace * result A :=
  match p with
  | Ret a => ([], Ok a)
  | Raise e => ([], Err e)
  | Vis c k =>
      let r := env c n in
      let '(tr, res) := run (k r) env (S n) in
      (mkObs c r :: tr, res)
  end.

(* ================================================================== *)
(** * [class LePairingTest] *)
(* ================================================================== *)

(** [str.upper()], on the ASCII letters (addresses are hexadecimal). *)
Definition ascii_upper (a : ascii) : ascii :=
  let n := nat_of_ascii a in
  if (97 <=? n) && (n <=? 122) then ascii_of_nat (n - 32) else a.

Fixpoint upper (s : string) : string :=
  match s with
  | EmptyString => EmptyString
  | String a rest => String (ascii_upper a) (upper rest)
  end.

(** [_TERMINATED_BOND_STATES]. *)
Definition _TERMINATED_BOND_STATES : list BondState :=
  [BOND_BONDED; BOND_NONE].

(** What the test reads from [self.ref]: [str(self.ref.random_address)] and
    [str(self.ref.address)]. *)
Record RefDevice : Type := mkRefDevice {
  ref_random_address : string;
  ref_address : string
}.

Module LePairingTest.

Section WithTestBed.

Variable ref : RefDevice.

(** The arguments of the decorator [retry.retry_on_exception()]
    ([navi/utils/retry.py] is not among the sources): how many times a
    failed operation is run again, and on which exceptions. *)
Variable num_retries : nat.
Variable retryable : exn -> bool.

(** Modelled from the spec: [retry.retry_on_exception] ("on an exception
    whose type is in a configured retryable set ... re-invokes the
    operation up to a configured maximum attempt count"; a failure of the
    last attempt surfaces). *)
Fixpoint retry_on_exception {A : Type} (retries : nat) (operation : Prog A)
  : Prog A :=
  match retries with
  | O => operation
  | S k =>
      catch operation
        (fun e =>
           if retryable e then retry_on_exception k operation else Raise e)
  end.

(** Modelled from the spec: [async with self.assert_not_timeout(seconds)]
    around the wait for a future ([navi_test_base] is not among the
    sources; "races it against a timeout (default 15s) ... On timeout, the
    operation fails with a Timeout error"): the result the future got
    within the bound, [Timeout] when it got none. *)
Definition assert_not_timeout_await {T : Type} (future : option T)
  : Prog T :=
  match future with
  | Some v => Ret v
  | None => Raise TimeoutError
  end.

(** Modelled from the spec: [dut_cb.wait_for_event(event_type, predicate,
    timeout)] ([bl4a_api] is not among the sources; "fails with Timeout if
    the predicate is never satisfied in time"): of the events of the
    awaited type delivered within the bound, the first that satisfies the
    predicate. *)
Definition wait_for_event {E : Type} (delivered : list E)
  (predicate : E -> bool) : Prog E :=
  match find predicate delivered with
  | Some e => Ret e
  | None => Raise TimeoutError
  end.

(** [asyncio.wait_for(queue.get(), timeout)]. *)
Definition asyncio_wait_for {T : Type} (got : option T) : Prog T :=
  match got with
  | Some v => Ret v
  | None => Raise TimeoutError
  end.

Definition ref_addr_of (ref_connection_address_type : AddressType)
  : string :=
  if AddressType_eqb ref_connection_address_type RANDOM
  then ref_random_address ref
  else ref_address ref.

(** The handler [on_connection] of [_make_outgoing_connection], on the
    state of [ref_dut_connection_future] ([None]: not done).  A second
    [set_result] raises in the dispatch of the stack, not in the test, and
    leaves the first result. *)
Definition on_connection (future : option Connection)
  (connection : Connection) : option Connection :=
  if Transport_eqb (conn_transport connection) BT_LE_TRANSPORT
  then match future with
       | None => Some connection
       | Some _ => future
       end
  else future.

(** One invocation of [_make_outgoing_connection]. *)
Definition _make_outgoing_connection_attempt
  (ref_connection_address_type : AddressType) (create_bond : bool)
  : Prog Connection :=
  let ref_addr := ref_addr_of ref_connection_address_type in
  r <- call (RefStartAdvertising ref_connection_address_type) ;;
  unwrap r ;;
  (if create_bond
   then
     r <- call (DutCreateBond ref_addr ref_connection_address_type) ;;
     bonded <- unwrap r ;;
     assert_true bonded
   else
     r <- call (DutConnectGattClient ref_addr ref_connection_address_type) ;;
     gatt_client <- unwrap r ;;
     call (CloseAfterTestAppend (GattClient gatt_client))) ;;
  connections <- call RefConnectionEvents ;;
  ref_dut_connection <-
    assert_not_timeout_await (fold_left on_connection connections None) ;;
  r <- call RefStopAdvertising ;;
  unwrap r ;;
  Ret ref_dut_connection.

Definition _make_outgoing_connection
  (ref_connection_address_type : AddressType) (create_bond : bool)
  : Prog Connection :=
  retry_on_exception num_retries
    (_make_outgoing_connection_attempt ref_connection_address_type
       create_bond).

(** The handler [on_advertising_report] of [_make_incoming_connection], on
    the state of [scan_result]. *)
Definition on_advertising_report (service_uuid : string)
  (scan_result : option string) (adv : Advertisement) : option string :=
  match adv_service_uuids adv with
  | Some ((_ :: _) as service_uuids) =>
      if existsb (String.eqb service_uuid) service_uuids
         && negb (match scan_result with Some _ => true | None => false end)
      then Some (adv_address adv)
      else scan_result
  | _ => scan_result
  end.

(** One invocation of [_make_incoming_connection]. *)
Definition _make_incoming_connection_attempt
  (ref_connection_address_type : AddressType) : Prog Connection :=
  service_uuid <- call Uuid4 ;;
  r <- call (DutStartLegacyAdvertiser RANDOM [service_uuid]) ;;
  advertise <- unwrap r ;;
  with_exit (AdvertiserExit advertise)
    (r <- call RefStartScanning ;;
     unwrap r ;;
     reports <- call RefAdvertisementEvents ;;
     dut_addr <-
       assert_not_timeout_await
         (fold_left (on_advertising_report service_uuid) reports None) ;;
     r <- call RefStopScanning ;;
     unwrap r ;;
     r <- call (RefConnect dut_addr ref_connection_address_type) ;;
     ref_dut_connection <- unwrap r ;;
     r <- call (RefGetRemoteLeFeatures ref_dut_connection) ;;
     unwrap r ;;
     Ret ref_dut_connection).

Definition _make_incoming_connection
  (ref_connection_address_type : AddressType) : Prog Connection :=
  retry_on_exception num_retries
    (_make_incoming_connection_attempt ref_connection_address_type).

(** The dict literal of the "Check reported pairing method" step: for a
    REF IO capability, the variant DUT is expected to report, the variant
    REF is expected to report, and the answer for REF's delegate. *)
Definition pairing_method_table (dut_pairing_event : PairingRequest)
  : list (IoCapability
          * (DutPairingVariant * RefPairingVariant * PairingEvent)) :=
  [ (NO_OUTPUT_NO_INPUT,
     (CONSENT, JUST_WORK, mkPairingEvent JUST_WORK (PyBool true)));
    (DISPLAY_OUTPUT_AND_YES_NO_INPUT,
     (PASSKEY_CONFIRMATION, NUMERIC_COMPARISON,
      mkPairingEvent NUMERIC_COMPARISON (pr_pin dut_pairing_event))) ].

(** "Connecting & pairing initiating stage": the connection and whether
    [pair_task] is set. *)
Definition connect_and_initiate (c : ScenarioCase) (ref_addr : string)
  : Prog (Connection * bool) :=
  if Direction_eqb (connection_direction c) OUTGOING then
    if Direction_eqb (pairing_direction c) INCOMING then
      ref_dut <-
        _make_outgoing_connection (ref_connection_address_type c) false ;;
      r <- call (RefRequestPairing ref_dut) ;;
      unwrap r ;;
      Ret (ref_dut, false)
    else
      ref_dut <-
        _make_outgoing_connection (ref_connection_address_type c) true ;;
      call DutGetAllBondStateChanged ;;
      Ret (ref_dut, false)
  else
    ref_dut <- _make_incoming_connection (ref_connection_address_type c) ;;
    if Direction_eqb (pairing_direction c) INCOMING then
      call (RefCreatePairTask ref_dut) ;;
      Ret (ref_dut, true)
    else
      r <- call (DutCreateBond ref_addr (ref_connection_address_type c)) ;;
      unwrap r ;;
      Ret (ref_dut, false).

(** "Pairing stage", from the first wait for a pairing request to the end
    of the test. *)
Definition pairing_stage (c : ScenarioCase) (ref_addr : string)
  (need_double_confirmation : bool) (ref_dut : Connection)
  (pair_task : bool) : Prog unit :=
  delivered <- call DutWaitForPairingRequest ;;
  dut_pairing_event <-
    wait_for_event delivered (fun e => String.eqb (pr_address e) ref_addr) ;;
  dut_pairing_event <-
    (if need_double_confirmation
     then
       r <- call (DutSetPairingConfirmation ref_addr true) ;;
       unwrap r ;;
       delivered <- call DutWaitForPairingRequest ;;
       wait_for_event delivered
         (fun e => String.eqb (pr_address e) ref_addr)
     else Ret dut_pairing_event) ;;
  got <- call PairingEventsGet ;;
  ref_pairing_event <- asyncio_wait_for got ;;
  entry <-
    dict_getitem (pairing_method_table dut_pairing_event)
      (ref_io_capability c) ;;
  let '(expected_dut_pairing_variant, expected_ref_pairing_variant,
        ref_answer) := entry in
  assert_true
    (DutPairingVariant_eqb (pr_variant dut_pairing_event)
       expected_dut_pairing_variant) ;;
  assert_true
    (RefPairingVariant_eqb (pe_variant ref_pairing_event)
       expected_ref_pairing_variant) ;;
  (match variant c with
   | ACCEPT | REJECTED =>
       r <- call (DutSetPairingConfirmation ref_addr true) ;;
       unwrap r
   | REJECT =>
       r <- call (DutSetPairingConfirmation ref_addr false) ;;
       unwrap r
   | _ => Ret tt
   end) ;;
  ref_answer <-
    (match variant c with
     | ACCEPT | REJECT =>
         call (PairingAnswersPutNowait ref_answer) ;;
         Ret ref_answer
     | DISCONNECTED =>
         r <- call (RefDisconnect ref_dut) ;;
         unwrap r ;;
         Ret ref_answer
     | REJECTED =>
         if RefPairingVariant_eqb (pe_variant ref_answer) JUST_WORK
            || RefPairingVariant_eqb (pe_variant ref_answer)
                 NUMERIC_COMPARISON
         then Ret (mkPairingEvent (pe_variant ref_answer) (PyBool false))
         else Ret (mkPairingEvent (pe_variant ref_answer) PyNone)
     end) ;;
  call (PairingAnswersPutNowait ref_answer) ;;
  let expect_state :=
    if TestVariant_eqb (variant c) ACCEPT then BOND_BONDED else BOND_NONE in
  delivered <- call DutWaitForBondStateChanged ;;
  final <-
    wait_for_event delivered
      (fun e => existsb (BondState_eqb (bs_state e))
                  _TERMINATED_BOND_STATES) ;;
  let actual_state := bs_state final in
  assert_true (BondState_eqb actual_state expect_state) ;;
  if pair_task then
    let expected_errors :=
      match variant c with
      | REJECT | REJECTED => [ProtocolError]
      | DISCONNECTED => [CancelledError]
      | _ => []
      end in
    contextlib_suppress expected_errors
      (r <- call AwaitPairTask ;; unwrap r)
  else Ret tt.

(** One execution of [test_secure_pairing] for a case.  (The decorator
    [navi_test_base.retry(max_count=2)] runs a failed execution again.)

    [ref_answer] is one object: REJECTED assigns to its [arg] before the
    object is put on the queue, and no path assigns after a put, so the
    queue is given by the values at the time of each put. *)
Definition test_secure_pairing (c : ScenarioCase) : Prog unit :=
  let pairing_delegate :=
    mkPairingDelegate true (ref_io_capability c)
      (smp_key_distribution c) (smp_key_distribution c) in
  call (RefSetPairingConfigFactory
          (mkPairingConfig true true true PUBLIC pairing_delegate)) ;;
  r <- call DutRegisterCallback ;;
  unwrap r ;;
  call (CloseAfterTestAppend DutCallback) ;;
  let ref_addr := upper (ref_addr_of (ref_connection_address_type c)) in
  let need_double_confirmation :=
    Direction_eqb (connection_direction c) OUTGOING
    && Direction_eqb (pairing_direction c) INCOMING in
  connected <- connect_and_initiate c ref_addr ;;
  let '(ref_dut, pair_task) := connected in
  pairing_stage c ref_addr need_double_confirmation ref_dut pair_task.

End WithTestBed.

End LePairingTest.

(* ================================================================== *)
(** * Reading a trace *)
(* ================================================================== *)

Module TraceView.

(** The observations a selector picks, in the order of the run. *)
Definition project {T : Type} (sel : forall c : Call, Resp c -> option T)
  (tr : Trace) : list T :=
  flat_map
    (fun o => match sel (obs_call o) (obs_resp o) with
              | Some x => [x]
              | None => []
              end)
    tr.

Definition calls (tr : Trace) : list Call := map obs_call tr.

(** What each wait for a DUT pairing request was answered with. *)
Definition dut_pairing_waits : Trace -> list (list PairingRequest) :=
  project (fun c =>
             match c return Resp c -> option (list PairingRequest) with
             | DutWaitForPairingRequest => fun r => Some r
             | _ => fun _ => None
             end).

(** The [accept] argument of each [setPairingConfirmation]. *)
Definition dut_confirmations : Trace -> list bool :=
  project (fun c =>
             match c return Resp c -> option bool with
             | DutSetPairingConfirmation _ accept => fun _ => Some accept
             | _ => fun _ => None
             end).

(** What each [pairing_events.get()] was answered with. *)
Definition ref_events_taken : Trace -> list (option PairingEvent) :=
  project (fun c =>
             match c return Resp c -> option (option PairingEvent) with
             | PairingEventsGet => fun r => Some r
             | _ => fun _ => None
             end).

(** The answers put on [pairing_answers]. *)
Definition ref_answers : Trace -> list PairingEvent :=
  project (fun c =>
             match c return Resp c -> option PairingEvent with
             | PairingAnswersPutNowait answer => fun _ => Some answer
             | _ => fun _ => None
             end).

(** What each wait for a terminal bond state was answered with. *)
Definition bond_state_waits : Trace -> list (list BondStateChanged) :=
  project (fun c =>
             match c return Resp c -> option (list BondStateChanged) with
             | DutWaitForBondStateChanged => fun r => Some r
             | _ => fun _ => None
             end).

(** How each [await pair_task] ended. *)
Definition pair_task_awaits : Trace -> list (result unit) :=
  project (fun c =>
             match c return Resp c -> option (result unit) with
             | AwaitPairTask => fun r => Some r
             | _ => fun _ => None
             end).

(** The connections [ref_dut.pair()] was started on. *)
Definition pair_tasks_created : Trace -> list Connection :=
  project (fun c =>
             match c return Resp c -> option Connection with
             | RefCreatePairTask connection => fun _ => Some connection
             | _ => fun _ => None
             end).

(** What each [uuid.uuid4()] returned. *)
Definition uuid_draws : Trace -> list string :=
  project (fun c =>
             match c return Resp c -> option string with
             | Uuid4 => fun r => Some r
             | _ => fun _ => None
             end).

(** The [service_uuids] of each [start_legacy_advertiser]. *)
Definition advertised_service_uuids : Trace -> list (list string) :=
  project (fun c =>
             match c return Resp c -> option (list string) with
             | DutStartLegacyAdvertiser _ service_uuids =>
                 fun _ => Some service_uuids
             | _ => fun _ => None
             end).

(** What each wait for REF's connection event was answered with. *)
Definition connection_event_batches : Trace -> list (list Connection) :=
  project (fun c =>
             match c return Resp c -> option (list Connection) with
             | RefConnectionEvents => fun r => Some r
             | _ => fun _ => None
             end).

(** The calls of the pairing stage of [test_secure_pairing]; the setup and
    the connection helpers make none of them. *)
Definition pairing_stage_call (c : Call) : bool :=
  match c with
  | DutWaitForPairingRequest
  | DutSetPairingConfirmation _ _
  | PairingEventsGet
  | PairingAnswersPutNowait _
  | RefDisconnect _
  | DutWaitForBondStateChanged
  | AwaitPairTask => true
  | _ => false
  end.

(** The calls of the two connection helpers. *)
Definition connection_call (c : Call) : bool :=
  match c with
  | Uuid4 | RefStartAdvertising _ | RefStopAdvertising | RefStartScanning
  | RefStopScanning | RefConnect _ _ | RefGetRemoteLeFeatures _
  | RefConnectionEvents | RefAdvertisementEvents | DutCreateBond _ _
  | DutConnectGattClient _ _ | DutStartLegacyAdvertiser _ _
  | AdvertiserExit _ | CloseAfterTestAppend _ => true
  | _ => false
  end.

(** The calls that draw a token and switch a DUT advertiser on or off. *)
Definition advertiser_call (c : Call) : bool :=
  match c with
  | Uuid4 | DutStartLegacyAdvertiser _ _ | AdvertiserExit _ => true
  | _ => false
  end.

(** The DUT advertisers that are on after an observation: one more after a
    [start_legacy_advertiser] that returned, the advertiser taken off after
    its [__exit__]. *)
Definition advertisers_step (active : list nat) (o : Obs) : list nat :=
  match o with
  | mkObs (DutStartLegacyAdvertiser _ _) (Ok advertiser) =>
      advertiser :: active
  | mkObs (AdvertiserExit advertiser) _ =>
      remove Nat.eq_dec advertiser active
  | _ => active
  end.

Definition advertisers_after (active : list nat) (tr : Trace) : list nat :=
  fold_left advertisers_step tr active.

End TraceView.

(* ================================================================== *)
(** * Example test beds *)
(* ================================================================== *)

Module Examples.

Definition example_ref : RefDevice :=
  mkRefDevice "c0:ff:ee:00:11:22" "00:1a:7d:da:71:13".

(** A different string for every position. *)
Fixpoint token (n : nat) : string :=
  match n with
  | O => "uuid"
  | S k => String "i" (token k)
  end.

(** What the two devices do in a run. *)
Record Script : Type := mkScript {
  script_pairing_requests : list PairingRequest;
  script_ref_prompt : option PairingEvent;
  script_bond_events : list BondStateChanged;
  script_pair_task : result unit;
  script_connection_events : nat -> list Connection;
  script_advertisements : nat -> list Advertisement
}.

(** An environment in which every call into a device returns, and the
    events are those of the script. *)
Definition scripted_env (s : Script) : Env :=
  fun c n =>
    match c return Resp c with
    | Uuid4 => token n
    | RefSetPairingConfigFactory _ => tt
    | RefStartAdvertising _ => Ok tt
    | RefStopAdvertising => Ok tt
    | RefStartScanning => Ok tt
    | RefStopScanning => Ok tt
    | RefConnect _ _ => Ok (mkConnection 2 BT_LE_TRANSPORT)
    | RefGetRemoteLeFeatures _ => Ok tt
    | RefRequestPairing _ => Ok tt
    | RefCreatePairTask _ => tt
    | RefDisconnect _ => Ok tt
    | AwaitPairTask => script_pair_task s
    | RefConnectionEvents => script_connection_events s n
    | RefAdvertisementEvents => script_advertisements s n
    | DutCreateBond _ _ => Ok true
    | DutConnectGattClient _ _ => Ok 1
    | DutStartLegacyAdvertiser _ _ => Ok n
    | AdvertiserExit _ => tt
    | DutRegisterCallback => Ok tt
    | DutWaitForPairingRequest => script_pairing_requests s
    | DutWaitForBondStateChanged => script_bond_events s
    | DutGetAllBondStateChanged => []
    | DutSetPairingConfirmation _ _ => Ok tt
    | CloseAfterTestAppend _ => tt
    | PairingEventsGet => script_ref_prompt s
    | PairingAnswersPutNowait _ => tt
    end.

Definition le_link : Connection := mkConnection 1 BT_LE_TRANSPORT.
Definition classic_link : Connection := mkConnection 9 BT_BR_EDR_TRANSPORT.

(** REF sees the advertisement of the token drawn three calls earlier (the
    draw, the start of the advertiser, the start of the scan). *)
Definition dut_advertisement (n : nat) : Advertisement :=
  mkAdvertisement "4a:00:00:00:00:01" (Some [token (n - 3)]).

(** Two devices that behave as the case expects: the prompts of the IO
    capability, the pin 123456 on DUT, the bond state and the outcome of the
    pairing task of the variant. *)
Definition cooperative (c : ScenarioCase) : Script :=
  let ra := upper (LePairingTest.ref_addr_of example_ref
                     (ref_connection_address_type c)) in
  let numeric :=
    IoCapability_eqb (ref_io_capability c) DISPLAY_OUTPUT_AND_YES_NO_INPUT in
  mkScript
    [mkPairingRequest ra
       (if numeric then PASSKEY_CONFIRMATION else CONSENT)
       (PyInt 123456)]
    (Some (if numeric
           then mkPairingEvent NUMERIC_COMPARISON (PyInt 123456)
           else mkPairingEvent JUST_WORK PyNone))
    [mkBondStateChanged ra BOND_BONDING;
     mkBondStateChanged ra
       (match variant c with ACCEPT => BOND_BONDED | _ => BOND_NONE end)]
    (match variant c with
     | ACCEPT => Ok tt
     | REJECT | REJECTED => Err ProtocolError
     | DISCONNECTED => Err CancelledError
     end)
    (fun _ => [classic_link; le_link])
    (fun n => [dut_advertisement n]).

(** A decorator that retries on a timeout only. *)
Definition on_timeout : exn -> bool := fun e => exn_eqb e TimeoutError.

Definition case_accept_out_out : ScenarioCase :=
  mkCase ACCEPT OUTGOING OUTGOING NO_OUTPUT_NO_INPUT RANDOM 3%Z.
Definition case_reject_out_in : ScenarioCase :=
  mkCase REJECT OUTGOING INCOMING DISPLAY_OUTPUT_AND_YES_NO_INPUT PUBLIC 11%Z.
Definition case_reject_in_in : ScenarioCase :=
  mkCase REJECT INCOMING INCOMING NO_OUTPUT_NO_INPUT RANDOM 3%Z.
Definition case_disconnected_in_in : ScenarioCase :=
  mkCase DISCONNECTED INCOMING INCOMING DISPLAY_OUTPUT_AND_YES_NO_INPUT
    RANDOM 3%Z.

(** The cooperative devices, except that REF's pairing task ends without an
    error. *)
Definition task_succeeds (c : ScenarioCase) : Script :=
  let s := cooperative c in
  mkScript (script_pairing_requests s) (script_ref_prompt s)
    (script_bond_events s) (Ok tt)
    (script_connection_events s) (script_advertisements s).

(** The cooperative devices, except that before the sixth call REF sees
    only a BR/EDR connection and no advertisement of DUT. *)
Definition late (c : ScenarioCase) : Script :=
  let s := cooperative c in
  mkScript (script_pairing_requests s) (script_ref_prompt s)
    (script_bond_events s) (script_pair_task s)
    (fun n => if n <? 5 then [classic_link] else [le_link])
    (fun n => if n <? 5 then [] else [dut_advertisement n]).

End Examples.

(* ================================================================== *)
(** * [navi/bumble_ext/hci.py]: [_HciPacket] *)
(* ================================================================== *)

Module HciExt.

Section WithFieldCodec.

(** bumble's field descriptors (what [field.type.__metadata__[0]] holds)
    and the Python values of fields.  bumble is a library the repository
    uses; its field codec is a parameter. *)
Variable FieldType : Type.
Variable Value : Type.

(** bumble's [hci.HCI_Object.parse_field(data, offset, field_type)]: the
    value and the number of bytes it took; [None] when it raises. *)
Variable parse_field :
  list Byte.byte -> nat -> FieldType -> option (Value * nat).

(** bumble's [hci.HCI_Object.serialize_field(value, field_type)]; [None]
    when it raises. *)
Variable serialize_field : Value -> FieldType -> option (list Byte.byte).

(** A class derived from [_HciPacket]: its [PARSE_OFFSET] and, for each
    field of [dataclasses.fields(cls)] in declaration order, the name and
    the descriptor. *)
Record PacketClass : Type := mkPacketClass {
  PARSE_OFFSET : nat;
  dataclass_fields : list (string * FieldType)
}.

(** An instance: its class and the attributes the dataclass constructor
    set from its positional arguments. *)
Record Packet : Type := mkPacket {
  packet_class : PacketClass;
  attributes : list (string * Value)
}.

(** The loop of [from_parameters], from a field on, with the offset and
    the values so far. *)
Fixpoint parse_fields (parameters : list Byte.byte) (offset : nat)
  (fields : list (string * FieldType)) (values : list Value)
  : option (list Value) :=
  match fields with
  | [] => Some values
  | (_, field_type) :: rest =>
      match parse_field parameters offset field_type with
      | Some (value, size) =>
          parse_fields parameters (offset + size) rest (values ++ [value])
      | None => None
      end
  end.

(** [_HciPacket.from_parameters]. *)
Definition from_parameters (cls : PacketClass)
  (parameters : list Byte.byte) : option Packet :=
  match parse_fields parameters (PARSE_OFFSET cls) (dataclass_fields cls)
          [] with
  | Some values =>
      Some (mkPacket cls (combine (map fst (dataclass_fields cls)) values))
  | None => None
  end.

(** The property [_HciPacket.fields]. *)
Definition fields (self : Packet) : list (string * FieldType) :=
  dataclass_fields (packet_class self).

(** [getattr(self, field_name)]; [None] for a missing attribute. *)
Fixpoint getattr (attrs : list (string * Value)) (field_name : string)
  : option Value :=
  match attrs with
  | [] => None
  | (name, value) :: rest =>
      if String.eqb name field_name then Some value
      else getattr rest field_name
  end.

(** The generator of [parameters], joined. *)
Fixpoint join_serialized (attrs : list (string * Value))
  (fields : list (string * FieldType)) : option (list Byte.byte) :=
  match fields with
  | [] => Some []
  | (field_name, field_type) :: rest =>
      match getattr attrs field_name with
      | None => None
      | Some value =>
          match serialize_field value field_type with
          | None => None
          | Some bytes =>
              match join_serialized attrs rest with
              | None => None
              | Some tail => Some (bytes ++ tail)
              end
          end
      end
  end.

(** The property [_HciPacket.parameters]. *)
Definition parameters (self : Packet) : option (list Byte.byte) :=
  join_serialized (attributes self) (fields self).

End WithFieldCodec.

(** The base class ([PARSE_OFFSET = 0], as [Command] inherits it) and
    [VendorEvent] ([PARSE_OFFSET = 1]), for given fields. *)
Definition Command_class {FieldType : Type}
  (fields : list (string * FieldType)) : PacketClass FieldType :=
  mkPacketClass 0 fields.

Definition VendorEvent_class {FieldType : Type}
  (fields : list (string * FieldType)) : PacketClass FieldType :=
  mkPacketClass 1 fields.

(** bumble's field type [1]: one byte, an unsigned integer. *)
Definition parse_u8 (data : list Byte.byte) (offset : nat) (_ : unit)
  : option (Byte.byte * nat) :=
  match nth_error data offset with
  | Some b => Some (b, 1)
  | None => None
  end.

Definition serialize_u8 (value : Byte.byte) (_ : unit)
  : option (list Byte.byte) := Some [value].

(** A vendor event with one one-byte field, one with two, and an event of
    three bytes. *)
Definition one_field_event : PacketClass unit :=
  VendorEvent_class [("status"%string, tt)].

Definition two_field_event : PacketClass unit :=
  VendorEvent_class [("status"%string, tt); ("reason"%string, tt)].

Definition three_bytes : list Byte.byte := [Byte.xaa; Byte.x01; Byte.x02].

End HciExt.


(* ================================================================== *)
(** * Reading a trace: the connection helpers and the resolution *)
(* ================================================================== *)

Module MoreViews.
Import TraceView.

(** What each wait for DUT's advertisement was answered with. *)
Definition advertisement_batches : Trace -> list (list Advertisement) :=
  project (fun c =>
             match c return Resp c -> option (list Advertisement) with
             | RefAdvertisementEvents => fun r => Some r
             | _ => fun _ => None
             end).

(** The connections REF disconnected. *)
Definition ref_disconnects : Trace -> list Connection :=
  project (fun c =>
             match c return Resp c -> option Connection with
             | RefDisconnect connection => fun _ => Some connection
             | _ => fun _ => None
             end).

(** The address argument of each [setPairingConfirmation]. *)
Definition dut_confirmation_addresses : Trace -> list string :=
  project (fun c =>
             match c return Resp c -> option string with
             | DutSetPairingConfirmation address _ => fun _ => Some address
             | _ => fun _ => None
             end).

(** The own address type of each [start_advertising] of REF. *)
Definition ref_advertising_starts : Trace -> list AddressType :=
  project (fun c =>
             match c return Resp c -> option AddressType with
             | RefStartAdvertising own_address_type =>
                 fun _ => Some own_address_type
             | _ => fun _ => None
             end).

(** How each [stop_advertising] of REF ended. *)
Definition ref_advertising_stops : Trace -> list (result unit) :=
  project (fun c =>
             match c return Resp c -> option (result unit) with
             | RefStopAdvertising => fun r => Some r
             | _ => fun _ => None
             end).

(** What each [createBond] returned. *)
Definition create_bond_results : Trace -> list (result bool) :=
  project (fun c =>
             match c return Resp c -> option (result bool) with
             | DutCreateBond _ _ => fun r => Some r
             | _ => fun _ => None
             end).

End MoreViews.


(* ================================================================== *)
(** * More example devices *)
(* ================================================================== *)

Module MoreExamples.
Import Examples.

(** The cooperative devices of a case, except that DUT's [createBond]
    returns false. *)
Definition bond_refused (c : ScenarioCase) : Env :=
  fun call n =>
    match call return Resp call with
    | DutCreateBond _ _ => Ok false
    | other => scripted_env (cooperative c) other n
    end.

(** The cooperative devices of a case, except that REF's delegate gets no
    prompt. *)
Definition no_ref_prompt (c : ScenarioCase) : Script :=
  let s := cooperative c in
  mkScript (script_pairing_requests s) None
    (script_bond_events s) (script_pair_task s)
    (script_connection_events s) (script_advertisements s).

(** The cooperative devices of a case, except that the only pairing request
    DUT reports comes from another device. *)
Definition other_device_pairs (c : ScenarioCase) : Script :=
  let s := cooperative c in
  mkScript
    [mkPairingRequest "11:22:33:44:55:66" CONSENT (PyInt 1)]
    (script_ref_prompt s)
    (script_bond_events s) (script_pair_task s)
    (script_connection_events s) (script_advertisements s).

(** The cooperative devices of a case, except that DUT's bond state stays
    BONDING. *)
Definition stuck_bonding (c : ScenarioCase) : Script :=
  let s := cooperative c in
  mkScript (script_pairing_requests s) (script_ref_prompt s)
    [mkBondStateChanged "C0:FF:EE:00:11:22" BOND_BONDING;
     mkBondStateChanged "C0:FF:EE:00:11:22" BOND_BONDING]
    (script_pair_task s)
    (script_connection_events s) (script_advertisements s).

(** The cooperative devices of a case, except that DUT ends up bonded
    whatever the variant. *)
Definition always_bonded (c : ScenarioCase) : Script :=
  let s := cooperative c in
  mkScript (script_pairing_requests s) (script_ref_prompt s)
    [mkBondStateChanged "C0:FF:EE:00:11:22" BOND_BONDED]
    (script_pair_task s)
    (script_connection_events s) (script_advertisements s).

Definition case_rejected_out_out : ScenarioCase :=
  mkCase REJECTED OUTGOING OUTGOING DISPLAY_OUTPUT_AND_YES_NO_INPUT RANDOM
    3%Z.

(** Devices that behave as a case expects, for any REF: as [cooperative],
    with the addresses of the given REF. *)
Definition cooperative_for (ref : RefDevice) (c : ScenarioCase) : Script :=
  let ra := upper (LePairingTest.ref_addr_of ref
                     (ref_connection_address_type c)) in
  let numeric :=
    IoCapability_eqb (ref_io_capability c) DISPLAY_OUTPUT_AND_YES_NO_INPUT in
  mkScript
    [mkPairingRequest ra
       (if numeric then PASSKEY_CONFIRMATION else CONSENT)
       (PyInt 123456)]
    (Some (if numeric
           then mkPairingEvent NUMERIC_COMPARISON (PyInt 123456)
           else mkPairingEvent JUST_WORK PyNone))
    [mkBondStateChanged ra BOND_BONDING;
     mkBondStateChanged ra
       (match variant c with ACCEPT => BOND_BONDED | _ => BOND_NONE end)]
    (match variant c with
     | ACCEPT => Ok tt
     | REJECT | REJECTED => Err ProtocolError
     | DISCONNECTED => Err CancelledError
     end)
    (fun _ => [classic_link; le_link])
    (fun n => [dut_advertisement n]).

End MoreExamples.


(* ================================================================== *)
(** * [navi/bumble_ext/hci.py]: [parse_address_followed_by_type] *)
(* ================================================================== *)

Module HciAddress.

(** bumble's [hci.Address(address, address_type)], as constructed from six
    address bytes and the byte of the address type. *)
Record Address : Type := mkAddress {
  address_bytes : list Byte.byte;
  address_type : Byte.byte
}.

(** [parse_address_followed_by_type(data, offset)]: the offset behind the
    address and the address; [None] when [data[offset + 6]] raises. *)
Definition parse_address_followed_by_type (data : list Byte.byte)
  (offset : nat) : option (nat * Address) :=
  match nth_error data (offset + 6) with
  | Some type_byte =>
      Some (offset + 7, mkAddress (firstn 6 (skipn offset data)) type_byte)
  | None => None
  end.

End HciAddress.

(* ================================================================== *)
(** * [navi/tests/generic_functionality_suite.py] *)
(* ================================================================== *)

Module Suite.

(** A class object: its identity and the identities of the classes it is
    derived from, directly or not. *)
Record PyClass : Type := mkPyClass {
  class_id : nat;
  class_ancestors : list nat
}.

(** A member of a module: a class or anything else. *)
Inductive PyObject : Type :=
| ClassObject (c : PyClass)
| OtherObject (id : nat).

(** [inspect.isclass(x) and issubclass(x, base_test.BaseTestClass)]; a
    class is a subclass of itself. *)
Definition is_test_class (BaseTestClass : nat) (x : PyObject) : bool :=
  match x with
  | ClassObject c =>
      Nat.eqb (class_id c) BaseTestClass
      || existsb (Nat.eqb BaseTestClass) (class_ancestors c)
  | OtherObject _ => false
  end.

(** What [main] finds around it: for a package, the names
    [pkgutil.iter_modules] yields for its path (without the prefix); for a
    module name, what [importlib.import_module] does, the module being given
    by its members as [inspect.getmembers] lists them. *)
Record ImportSystem : Type := mkImportSystem {
  iter_modules : string -> list string;
  import_module : string -> result (list (string * PyObject))
}.

(** [inspect.getmembers(object, predicate)], over the members of the
    object in the order of their names. *)
Definition getmembers (members : list (string * PyObject))
  (predicate : PyObject -> bool) : list (string * PyObject) :=
  filter (fun member => predicate (snd member)) members.

Section WithImportSystem.

Variable BaseTestClass : nat.
Variable sys : ImportSystem.

(** The loop over the submodules of one package. *)
Fixpoint collect_submodules (prefix : string) (submodules : list string)
  (test_classes : list PyObject) : result (list PyObject) :=
  match submodules with
  | [] => Ok test_classes
  | submodule_name :: rest =>
      match import_module sys (String.append prefix submodule_name) with
      | Err e => Err e
      | Ok members =>
          collect_submodules prefix rest
            (test_classes
             ++ map snd (getmembers members (is_test_class BaseTestClass)))
      end
  end.

(** The loop over the packages. *)
Fixpoint collect_modules (modules : list string)
  (test_classes : list PyObject) : result (list PyObject) :=
  match modules with
  | [] => Ok test_classes
  | module_name :: rest =>
      match collect_submodules (String.append module_name "."%string)
              (iter_modules sys module_name) test_classes with
      | Err e => Err e
      | Ok test_classes' => collect_modules rest test_classes'
      end
  end.

(** The names [main] gives to [importlib.import_module], in the order of
    the two loops. *)
Definition submodule_names (modules : list string) : list string :=
  flat_map
    (fun module_name =>
       map (String.append (String.append module_name "."%string))
         (iter_modules sys module_name))
    modules.

(** [main]: the list [suite_runner.run_suite] is called with, or the
    exception of an import, in which case [run_suite] is not called. *)
Definition main : result (list PyObject) :=
  collect_modules
    ["navi.tests.smoke"%string; "navi.tests.functionality"%string] [].

End WithImportSystem.

(** An import system for examples: a smoke package with two modules and a
    functionality package with one; the class 7 is derived from the class 1,
    the class 8 is not.  The first module has the class 7 under two names,
    and the second module has it too. *)
Definition example_members (name : string) : list (string * PyObject) :=
  if String.eqb name "navi.tests.smoke.a"%string then
    [("A"%string, ClassObject (mkPyClass 7 [1]));
     ("B"%string, ClassObject (mkPyClass 7 [1]));
     ("helper"%string, OtherObject 3)]
  else if String.eqb name "navi.tests.smoke.b"%string then
    [("A"%string, ClassObject (mkPyClass 7 [1]));
     ("Base"%string, ClassObject (mkPyClass 1 []));
     ("Variant"%string, ClassObject (mkPyClass 8 [0]))]
  else
    [("C"%string, ClassObject (mkPyClass 9 [7; 1]))].

Definition example_packages (name : string) : list string :=
  if String.eqb name "navi.tests.smoke"%string then ["a"%string; "b"%string]
  else ["le"%string].

Definition example_system : ImportSystem :=
  mkImportSystem example_packages (fun name => Ok (example_members name)).

Definition broken_system : ImportSystem :=
  mkImportSystem example_packages
    (fun name =>
       if String.eqb name "navi.tests.smoke.b"%string then Err (OtherError 1)
       else Ok (example_members name)).

End Suite.


(* ================================================================== *)
(** * Reading a trace: DUT's [createBond] *)
(* ================================================================== *)

Module BondViews.
Import TraceView.

Definition create_bond_call (c : Call) : bool :=
  match c with
  | DutCreateBond _ _ => true
  | _ => false
  end.

(** The address and the address type of each [createBond], with what it
    returned. *)
Definition create_bond_calls
  : Trace -> list (string * AddressType * result bool) :=
  project (fun c =>
             match c
               return Resp c -> option (string * AddressType * result bool)
             with
             | DutCreateBond address address_type =>
                 fun r => Some (address, address_type, r)
             | _ => fun _ => None
             end).

End BondViews.


Module BondExamples.

(** A case of the combination the parameters leave out. *)
Definition case_accept_in_out : ScenarioCase :=
  mkCase ACCEPT INCOMING OUTGOING NO_OUTPUT_NO_INPUT RANDOM 3%Z.

End BondExamples.


(* ================================================================== *)
(** * Environments: [uuid.uuid4()] and the value of REF's prompt *)
(* ================================================================== *)

Module EnvViews.

(** [uuid.uuid4()] of Python's library: no two calls of a run return the
    same value. *)
Definition uuid4_unique (env : Env) : Prop :=
  forall i j, env Uuid4 i = env Uuid4 j -> i = j.



End EnvViews.

Module PinExamples.
Import Examples.



End PinExamples.


(* ================================================================== *)
(** * Properties of the parameter matrix *)
(* ================================================================== *)

Module MatrixFacts.
Import Matrix.

Lemma flat_map_if_filter (A : Type) (p : A -> bool) (l : list A) :
  flat_map (fun x => if p x then [x] else []) l = filter p l.
Proof.
  induction l as [|a l IH]; simpl; [reflexivity|].
  destruct (p a); simpl; now rewrite IH.
Qed.

Lemma filter_split_length (A : Type) (p : A -> bool) (l : list A) :
  length (filter (fun x => negb (p x)) l) + length (filter p l) = length l.
Proof.
  induction l as [|a l IH]; simpl; [reflexivity|].
  destruct (p a); simpl; lia.
Qed.

Lemma in_product_step (A B : Type) (xs : list A) (ys : list B) x y :
  In (x, y) (product_step xs ys) <-> In x xs /\ In y ys.
Proof.
  unfold product_step. rewrite in_flat_map. split.
  - intros [x' [Hx Hin]]. apply in_map_iff in Hin.
    destruct Hin as [y' [Heq Hy]]. inversion Heq; subst. auto.
  - intros [Hx Hy]. exists x. split; [assumption|].
    apply in_map_iff. exists y. auto.
Qed.

Lemma in_full_product dirs c :
  In c (full_product dirs) <->
  In (variant c) list_TestVariant
  /\ In (connection_direction c) dirs
  /\ In (pairing_direction c) dirs
  /\ In (ref_io_capability c) io_capabilities
  /\ In (ref_connection_address_type c) address_types
  /\ In (smp_key_distribution c) key_distributions.
Proof.
  unfold full_product. rewrite in_map_iff. split.
  - intros [[[[[[v cd] pd] io] at_] kd] [Heq Hin]].
    subst c. simpl.
    repeat (apply in_product_step in Hin; destruct Hin as [Hin ?]).
    tauto.
  - intros (Hv & Hcd & Hpd & Hio & Hat & Hkd).
    destruct c as [v cd pd io at_ kd].
    cbn [variant connection_direction pairing_direction ref_io_capability
         ref_connection_address_type smp_key_distribution] in *.
    exists (v, cd, pd, io, at_, kd). split; [reflexivity|].
    repeat (apply in_product_step; split; [|assumption]).
    assumption.
Qed.

Lemma keep_is_not_excluded c :
  negb (excluded_reject_notification c) && negb (excluded_incoming_outgoing c)
  = negb (excluded c).
Proof. unfold excluded. now rewrite negb_orb. Qed.

(** C4. The parameters of [test_secure_pairing] are the cross product of
    the six pools, in the order of [itertools.product], with exactly the
    tuples that match one of the two exclusion predicates removed: a case is
    a parameter iff each component is in its pool and neither predicate
    holds, and the number of parameters is the size of the cross product
    minus the number of tuples matching a predicate.  With the two
    directions in either declaration order that is 128 - 32 = 96 (no tuple
    of the product matches the first predicate, 32 match the second). *)
Theorem C4_matrix_is_filtered_product :
  (forall dirs,
      test_secure_pairing_parameters dirs
      = filter (fun c => negb (excluded c)) (full_product dirs))
  /\ (forall dirs c,
         In c (test_secure_pairing_parameters dirs) <->
         (In (variant c) list_TestVariant
          /\ In (connection_direction c) dirs
          /\ In (pairing_direction c) dirs
          /\ In (ref_io_capability c) io_capabilities
          /\ In (ref_connection_address_type c) address_types
          /\ In (smp_key_distribution c) key_distributions)
         /\ ~ (variant c = REJECT /\ ref_io_capability c = KEYBOARD_INPUT_ONLY)
         /\ ~ (connection_direction c = INCOMING
               /\ pairing_direction c = OUTGOING))
  /\ (forall dirs,
         length (test_secure_pairing_parameters dirs)
         = length (full_product dirs)
           - length (filter excluded (full_product dirs)))
  /\ Forall
       (fun dirs =>
          length (full_product dirs) = 128
          /\ length (filter excluded_reject_notification (full_product dirs))
             = 0
          /\ length (filter excluded_incoming_outgoing (full_product dirs))
             = 32
          /\ length (filter excluded (full_product dirs)) = 32
          /\ length (test_secure_pairing_parameters dirs) = 96)
       [[OUTGOING; INCOMING]; [INCOMING; OUTGOING]].
Proof.
  assert (Hfilter : forall dirs,
             test_secure_pairing_parameters dirs
             = filter (fun c => negb (excluded c)) (full_product dirs)).
  { intros dirs. unfold test_secure_pairing_parameters.
    rewrite flat_map_if_filter. apply filter_ext. intros c.
    apply keep_is_not_excluded. }
  split; [exact Hfilter|]. split; [|split].
  - intros dirs c. rewrite Hfilter, filter_In, in_full_product.
    unfold excluded, excluded_reject_notification, excluded_incoming_outgoing.
    destruct c as [v cd pd io at_ kd]; simpl.
    split.
    + intros [Hin Hk]. split; [exact Hin|].
      split; intros [E1 E2]; subst; simpl in Hk;
        try discriminate Hk; destruct v, io; simpl in Hk; discriminate Hk.
    + intros [Hin [H1 H2]]. split; [exact Hin|].
      destruct v, io, cd, pd; simpl; try reflexivity;
        solve [exfalso; apply H1; auto | exfalso; apply H2; auto].
  - intros dirs. rewrite Hfilter.
    pose proof (filter_split_length excluded (full_product dirs)). lia.
  - repeat constructor; vm_compute; reflexivity.
Qed.

End MatrixFacts.

(* ================================================================== *)
(** * Running programs: general facts *)
(* ================================================================== *)

Module RunFacts.
Import TraceView.

Lemma run_bind (A B : Type) (m : Prog A) (f : A -> Prog B) env n :
  run (bind m f) env n =
  let '(tr1, r1) := run m env n in
  match r1 with
  | Ok a =>
      let '(tr2, r2) := run (f a) env (n + length tr1) in (tr1 ++ tr2, r2)
  | Err e => (tr1, Err e)
  end.
Proof.
  revert n. induction m as [a|e|c k IH]; intros n; simpl.
  - rewrite Nat.add_0_r. destruct (run (f a) env n); reflexivity.
  - reflexivity.
  - rewrite IH.
    destruct (run (k (env c n)) env (S n)) as [tr1 [a|e]]; simpl;
      [|reflexivity].
    replace (n + S (length tr1)) with (S (n + length tr1)) by lia.
    destruct (run (f a) env (S (n + length tr1))); reflexivity.
Qed.

Lemma run_catch (A : Type) (m : Prog A) (h : exn -> Prog A) env n :
  run (catch m h) env n =
  let '(tr1, r1) := run m env n in
  match r1 with
  | Ok a => (tr1, Ok a)
  | Err e =>
      let '(tr2, r2) := run (h e) env (n + length tr1) in (tr1 ++ tr2, r2)
  end.
Proof.
  revert n. induction m as [a|e|c k IH]; intros n; simpl.
  - reflexivity.
  - rewrite Nat.add_0_r. destruct (run (h e) env n); reflexivity.
  - rewrite IH.
    destruct (run (k (env c n)) env (S n)) as [tr1 [a|e]]; simpl;
      [reflexivity|].
    replace (n + S (length tr1)) with (S (n + length tr1)) by lia.
    destruct (run (h e) env (S (n + length tr1))); reflexivity.
Qed.

Lemma run_with_exit (A : Type) (exit : Call) (body : Prog A) env n :
  run (with_exit exit body) env n =
  let '(tr1, r1) := run body env n in
  (tr1 ++ [mkObs exit (env exit (n + length tr1))], r1).
Proof.
  revert n. induction body as [a|e|c k IH]; intros n; simpl.
  - rewrite Nat.add_0_r. reflexivity.
  - rewrite Nat.add_0_r. reflexivity.
  - rewrite IH.
    destruct (run (k (env c n)) env (S n)) as [tr1 r1]; simpl.
    replace (n + S (length tr1)) with (S (n + length tr1)) by lia.
    reflexivity.
Qed.

(** ** Calls a program can make *)

Lemma all_calls_run (A : Type) (P : Call -> Prop) (p : Prog A) env n :
  all_calls P p -> Forall (fun o => P (obs_call o)) (fst (run p env n)).
Proof.
  revert n. induction p as [a|e|c k IH]; intros n H; simpl.
  - constructor.
  - constructor.
  - destruct H as [Hc Hk]. specialize (IH (env c n) (S n) (Hk _)).
    destruct (run (k (env c n)) env (S n)) as [tr r]; simpl in *.
    constructor; assumption.
Qed.

Lemma all_calls_bind (A B : Type) (P : Call -> Prop) (m : Prog A)
  (f : A -> Prog B) :
  all_calls P m -> (forall a, all_calls P (f a)) -> all_calls P (bind m f).
Proof.
  intros Hm Hf. induction m as [a|e|c k IH]; simpl in *.
  - apply Hf.
  - exact I.
  - destruct Hm as [Hc Hk]. split; [assumption|]. intros r. apply IH, Hk.
Qed.

Lemma all_calls_catch (A : Type) (P : Call -> Prop) (m : Prog A)
  (h : exn -> Prog A) :
  all_calls P m -> (forall e, all_calls P (h e)) -> all_calls P (catch m h).
Proof.
  intros Hm Hh. induction m as [a|e|c k IH]; simpl in *.
  - exact I.
  - apply Hh.
  - destruct Hm as [Hc Hk]. split; [assumption|]. intros r. apply IH, Hk.
Qed.

Lemma all_calls_with_exit (A : Type) (P : Call -> Prop) (exit : Call)
  (body : Prog A) :
  P exit -> all_calls P body -> all_calls P (with_exit exit body).
Proof.
  intros Hx Hb. induction body as [a|e|c k IH]; simpl in *.
  - split; [assumption|]. intros _. exact I.
  - split; [assumption|]. intros _. exact I.
  - destruct Hb as [Hc Hk]. split; [assumption|]. intros r. apply IH, Hk.
Qed.

Lemma all_calls_unwrap (T : Type) (P : Call -> Prop) (r : result T) :
  all_calls P (unwrap r).
Proof. destruct r; exact I. Qed.

Lemma all_calls_retry (A : Type) (P : Call -> Prop) retryable
  (op : Prog A) k :
  all_calls P op ->
  all_calls P (LePairingTest.retry_on_exception retryable k op).
Proof.
  intros Hop. induction k as [|k IH]; simpl; [assumption|].
  apply all_calls_catch; [assumption|].
  intros e. destruct (retryable e); [assumption|exact I].
Qed.

(** ** Projections of a trace *)

Lemma project_app (T : Type) (sel : forall c, Resp c -> option T) t1 t2 :
  project sel (t1 ++ t2) = project sel t1 ++ project sel t2.
Proof. unfold project. apply flat_map_app. Qed.

Lemma project_none (T : Type) (sel : forall c, Resp c -> option T)
  (P : Call -> Prop) tr :
  (forall c r, P c -> sel c r = None) ->
  Forall (fun o => P (obs_call o)) tr ->
  project sel tr = [].
Proof.
  intros Hsel Hall. induction Hall as [|o tr Ho _ IH]; [reflexivity|].
  unfold project in *. simpl. rewrite (Hsel _ _ Ho). exact IH.
Qed.

End RunFacts.

(* ================================================================== *)
(** * The pairing stage of [test_secure_pairing] *)
(* ================================================================== *)

Module PairingStageFacts.
Import LePairingTest TraceView RunFacts.

Ltac exec_step H :=
  match type of H with
  | context [match find ?p ?l with _ => _ end] =>
      let E := fresh "Efind" in destruct (find p l) eqn:E
  | context [match ?env ?c ?n with _ => _ end] =>
      lazymatch type of env with
      | Env => let E := fresh "Eenv" in destruct (env c n) eqn:E
      end
  | context [if ?b then _ else _] =>
      let E := fresh "Eb" in destruct b eqn:E
  end.

Ltac exec_simpl H :=
  cbn [run bind catch dict_get pairing_method_table IoCapability_eqb
       pe_variant RefPairingVariant_eqb orb] in H.

Ltac exec H :=
  unfold wait_for_event, asyncio_wait_for, assert_true, dict_getitem,
    contextlib_suppress, unwrap, call in H;
  exec_simpl H;
  repeat (first [ discriminate H | exec_step H; exec_simpl H ]).

Ltac exec_all H :=
  unfold wait_for_event, asyncio_wait_for, assert_true, dict_getitem,
    contextlib_suppress, unwrap, call in H;
  exec_simpl H;
  repeat (exec_step H; exec_simpl H).

Lemma DutPairingVariant_eqb_eq a b : DutPairingVariant_eqb a b = true -> a = b.
Proof.
  destruct a, b; simpl; try discriminate; try reflexivity.
  intros H. apply Nat.eqb_eq in H. now subst.
Qed.

Lemma RefPairingVariant_eqb_eq a b : RefPairingVariant_eqb a b = true -> a = b.
Proof.
  destruct a, b; simpl; try discriminate; try reflexivity.
  intros H. apply Nat.eqb_eq in H. now subst.
Qed.

Lemma BondState_eqb_eq a b : BondState_eqb a b = true -> a = b.
Proof. destruct a, b; simpl; try discriminate; reflexivity. Qed.

Lemma exn_eqb_eq a b : exn_eqb a b = true -> a = b.
Proof.
  destruct a, b; simpl; try discriminate; try reflexivity.
  intros H. apply Nat.eqb_eq in H. now subst.
Qed.

Ltac eqb_to_eq :=
  repeat match goal with
    | E : DutPairingVariant_eqb _ _ = true |- _ =>
        apply DutPairingVariant_eqb_eq in E
    | E : RefPairingVariant_eqb _ _ = true |- _ =>
        apply RefPairingVariant_eqb_eq in E
    | E : BondState_eqb _ _ = true |- _ =>
        apply BondState_eqb_eq in E
    | E : existsb (exn_eqb _) _ = true |- _ =>
        simpl in E; rewrite orb_false_r in E; apply exn_eqb_eq in E
    end.

Ltac view :=
  cbv beta iota delta
    [calls map dut_pairing_waits dut_confirmations ref_events_taken
     ref_answers bond_state_waits pair_task_awaits pair_tasks_created
     project flat_map obs_call obs_resp app last Datatypes.length
     filter pairing_stage_call].

Ltac view_in H :=
  cbv beta iota delta
    [calls map dut_pairing_waits dut_confirmations ref_events_taken
     ref_answers bond_state_waits pair_task_awaits pair_tasks_created
     project flat_map obs_call obs_resp app last Datatypes.length
     filter pairing_stage_call] in H.

(** A run of the pairing stage that passed: what was waited for, checked,
    confirmed and answered, in which order. *)
Lemma pairing_stage_passed c ra nd rd pt env n tr :
  run (pairing_stage c ra nd rd pt) env n = (tr, Ok tt) ->
  exists dut_event ref_event answer final,
    length (dut_pairing_waits tr) = (if nd then 2 else 1)
    /\ find (fun e => String.eqb (pr_address e) ra)
         (last (dut_pairing_waits tr) []) = Some dut_event
    /\ ref_events_taken tr = [Some ref_event]
    /\ dict_get (pairing_method_table dut_event) (ref_io_capability c)
       = Some (pr_variant dut_event, pe_variant ref_event, answer)
    /\ filter pairing_stage_call (calls tr)
       = (if nd
          then [DutWaitForPairingRequest; DutSetPairingConfirmation ra true;
                DutWaitForPairingRequest]
          else [DutWaitForPairingRequest])
         ++ [PairingEventsGet]
         ++ match variant c with
            | ACCEPT =>
                [DutSetPairingConfirmation ra true;
                 PairingAnswersPutNowait answer;
                 PairingAnswersPutNowait answer]
            | REJECT =>
                [DutSetPairingConfirmation ra false;
                 PairingAnswersPutNowait answer;
                 PairingAnswersPutNowait answer]
            | REJECTED =>
                [DutSetPairingConfirmation ra true;
                 PairingAnswersPutNowait
                   (mkPairingEvent (pe_variant answer) (PyBool false))]
            | DISCONNECTED =>
                [RefDisconnect rd; PairingAnswersPutNowait answer]
            end
         ++ [DutWaitForBondStateChanged]
         ++ (if pt then [AwaitPairTask] else [])
    /\ dut_confirmations tr
       = (if nd then [true] else [])
         ++ match variant c with
            | ACCEPT | REJECTED => [true]
            | REJECT => [false]
            | DISCONNECTED => []
            end
    /\ ref_answers tr
       = match variant c with
         | ACCEPT | REJECT => [answer; answer]
         | REJECTED => [mkPairingEvent (pe_variant answer) (PyBool false)]
         | DISCONNECTED => [answer]
         end
    /\ length (bond_state_waits tr) = 1
    /\ find (fun e => existsb (BondState_eqb (bs_state e))
                        _TERMINATED_BOND_STATES)
         (last (bond_state_waits tr) []) = Some final
    /\ bs_state final
       = (if TestVariant_eqb (variant c) ACCEPT then BOND_BONDED else BOND_NONE)
    /\ (if pt
        then exists r,
            pair_task_awaits tr = [r]
            /\ match r with
               | Ok _ => True
               | Err e =>
                   (e = ProtocolError
                    /\ (variant c = REJECT \/ variant c = REJECTED))
                   \/ (e = CancelledError /\ variant c = DISCONNECTED)
               end
        else pair_task_awaits tr = []).
Proof.
  intros H. unfold pairing_stage in H.
  destruct nd, pt, (variant c) eqn:Ev, (ref_io_capability c) eqn:Eio;
    exec H; apply (f_equal fst) in H; cbn [fst] in H; subst tr; eqb_to_eq;
    repeat match goal with
      | p : PairingRequest |- _ =>
          let a := fresh "addr" in let v := fresh "var" in
          let x := fresh "pin" in destruct p as [a v x]
      | p : PairingEvent |- _ =>
          let v := fresh "var" in let x := fresh "arg" in
          destruct p as [v x]
      | p : BondStateChanged |- _ =>
          let a := fresh "addr" in let x := fresh "state" in
          destruct p as [a x]
      end;
    cbn [pr_variant pe_variant bs_state TestVariant_eqb] in *; subst;
    (do 4 eexists;
     split; [view; reflexivity|];
     split; [view; eassumption|];
     split; [view; reflexivity|];
     split; [reflexivity|];
     split; [view; reflexivity|];
     split; [view; reflexivity|];
     split; [view; reflexivity|];
     split; [view; reflexivity|];
     split; [view; eassumption|];
     split; [reflexivity|];
     view; try reflexivity;
     try (eexists; split; [reflexivity | cbn; tauto])).
Qed.

(** Whatever the outcome: what the last two steps make of a run that got to
    the wait for the terminal bond state. *)
Lemma pairing_stage_final c ra nd rd pt env n tr res :
  run (pairing_stage c ra nd rd pt) env n = (tr, res) ->
  forall bonds, bond_state_waits tr = [bonds] ->
  match find (fun e => existsb (BondState_eqb (bs_state e))
                         _TERMINATED_BOND_STATES) bonds with
  | None => res = Err TimeoutError /\ pair_task_awaits tr = []
  | Some final =>
      if BondState_eqb (bs_state final)
           (if TestVariant_eqb (variant c) ACCEPT
            then BOND_BONDED else BOND_NONE)
      then
        if pt
        then exists r,
            pair_task_awaits tr = [r]
            /\ res = match r with
                     | Ok _ => Ok tt
                     | Err e =>
                         match variant c, e with
                         | REJECT, ProtocolError
                         | REJECTED, ProtocolError
                         | DISCONNECTED, CancelledError => Ok tt
                         | _, _ => Err e
                         end
                     end
        else pair_task_awaits tr = [] /\ res = Ok tt
      else res = Err AssertionFailure /\ pair_task_awaits tr = []
  end.
Proof.
  intros H bonds Hb. unfold pairing_stage in H.
  destruct nd, pt, (variant c) eqn:Ev, (ref_io_capability c) eqn:Eio;
    exec_all H; injection H as Htr Hres; subst tr res; view_in Hb;
    try discriminate Hb; injection Hb as <-;
    cbn [TestVariant_eqb] in *;
    repeat match goal with
      | E : find _ ?l = _ |- context [find _ ?l] => rewrite E
      | E : BondState_eqb ?a ?b = _ |- context [BondState_eqb ?a ?b] =>
          rewrite E
      end;
    view;
    try (split; reflexivity);
    (eexists; split; [reflexivity|]);
    repeat match goal with v : unit |- _ => destruct v end;
    try reflexivity;
    match goal with
    | E : existsb (exn_eqb ?e) _ = _ |- _ =>
        destruct e; simpl in E; try discriminate E; reflexivity
    end.
Qed.

End PairingStageFacts.

(* ================================================================== *)
(** * [test_secure_pairing]: from the whole run to the pairing stage *)
(* ================================================================== *)

Module TestFacts.
Import LePairingTest TraceView RunFacts PairingStageFacts.

Ltac static :=
  repeat first
    [ exact I
    | reflexivity
    | apply all_calls_unwrap
    | apply all_calls_retry
    | apply all_calls_with_exit
    | apply all_calls_bind
    | progress intros
    | progress cbn [all_calls call]
    | split
    | match goal with
      | |- all_calls _ (if ?b then _ else _) => destruct b
      | |- all_calls _ (assert_true ?b) => destruct b
      | |- all_calls _ (assert_not_timeout_await ?f) => destruct f
      end ].

Lemma outgoing_calls ref k rt a cb :
  all_calls (fun c => connection_call c = true)
    (_make_outgoing_connection ref k rt a cb).
Proof.
  unfold _make_outgoing_connection, _make_outgoing_connection_attempt. static.
Qed.

Lemma incoming_calls k rt a :
  all_calls (fun c => connection_call c = true)
    (_make_incoming_connection k rt a).
Proof.
  unfold _make_incoming_connection, _make_incoming_connection_attempt. static.
Qed.

Lemma connection_call_not_stage c :
  connection_call c = true -> pairing_stage_call c = false.
Proof. destruct c; simpl; intros H; try reflexivity; discriminate H. Qed.

Lemma project_prefix (T : Type) (sel : forall c, Resp c -> option T)
  (P : Call -> Prop) pre tr :
  (forall c r, P c -> sel c r = None) ->
  Forall (fun o => P (obs_call o)) pre ->
  project sel (pre ++ tr) = project sel tr.
Proof.
  intros Hsel Hpre. rewrite project_app.
  now rewrite (project_none sel P Hsel Hpre).
Qed.

Lemma outgoing_trace ref k rt a cb env n :
  Forall (fun o => connection_call (obs_call o) = true)
    (fst (run (_make_outgoing_connection ref k rt a cb) env n)).
Proof.
  apply (@all_calls_run _ (fun c => connection_call c = true)).
  apply outgoing_calls.
Qed.

Lemma incoming_trace k rt a env n :
  Forall (fun o => connection_call (obs_call o) = true)
    (fst (run (_make_incoming_connection k rt a) env n)).
Proof.
  apply (@all_calls_run _ (fun c => connection_call c = true)).
  apply incoming_calls.
Qed.

Lemma connection_trace_no_pair_task t :
  Forall (fun o => connection_call (obs_call o) = true) t ->
  pair_tasks_created t = [].
Proof.
  intros Ht.
  apply (@project_none _ _ (fun c => connection_call c = true)); [|exact Ht].
  intros c r; destruct c; simpl; intros E; try reflexivity; discriminate E.
Qed.

Lemma connection_trace_not_stage t :
  Forall (fun o => connection_call (obs_call o) = true) t ->
  Forall (fun o => pairing_stage_call (obs_call o) = false) t.
Proof.
  intros Ht. eapply Forall_impl; [|exact Ht].
  intros o Ho. apply connection_call_not_stage, Ho.
Qed.

Lemma connect_and_initiate_run ref k rt c ra env n tr0 res :
  run (connect_and_initiate ref k rt c ra) env n = (tr0, res) ->
  Forall (fun o => pairing_stage_call (obs_call o) = false) tr0
  /\ match res with
     | Ok (ref_dut, pair_task) =>
         pair_task
         = Direction_eqb (connection_direction c) INCOMING
           && Direction_eqb (pairing_direction c) INCOMING
         /\ pair_tasks_created tr0 = (if pair_task then [ref_dut] else [])
     | Err _ => pair_tasks_created tr0 = []
     end.
Proof.
  intros H. unfold connect_and_initiate in H.
  destruct (connection_direction c), (pairing_direction c);
    cbn [Direction_eqb andb] in *; rewrite run_bind in H;
    match type of H with
    | context [run (_make_outgoing_connection ?r ?k ?rt ?a ?cb) env n] =>
        pose proof (outgoing_trace r k rt a cb env n) as Ht;
        destruct (run (_make_outgoing_connection r k rt a cb) env n)
          as [t1 [conn|e]]
    | context [run (_make_incoming_connection ?k ?rt ?a) env n] =>
        pose proof (incoming_trace k rt a env n) as Ht;
        destruct (run (_make_incoming_connection k rt a) env n)
          as [t1 [conn|e]]
    end;
    cbn [fst] in Ht;
    pose proof (connection_trace_no_pair_task Ht) as Hnone;
    pose proof (connection_trace_not_stage Ht) as Hns;
    exec_all H; injection H as Htr Hres; subst tr0 res;
    (split;
     [ first
         [ assumption
         | apply Forall_app; split; [assumption|];
           repeat (apply Forall_cons; [reflexivity|]); apply Forall_nil ]
     | unfold pair_tasks_created in *; rewrite ?project_app, ?Hnone;
       try (split; reflexivity); try reflexivity; try assumption ]).
Qed.

Lemma test_secure_pairing_run ref k rt c env n tr res :
  run (test_secure_pairing ref k rt c) env n = (tr, res) ->
  let ra := upper (ref_addr_of ref (ref_connection_address_type c)) in
  let nd := Direction_eqb (connection_direction c) OUTGOING
            && Direction_eqb (pairing_direction c) INCOMING in
  let pt := Direction_eqb (connection_direction c) INCOMING
            && Direction_eqb (pairing_direction c) INCOMING in
  exists pre,
    Forall (fun o => pairing_stage_call (obs_call o) = false) pre
    /\ ((tr = pre /\ (exists e, res = Err e) /\ pair_tasks_created pre = [])
        \/ exists ref_dut tr1 m,
             tr = pre ++ tr1
             /\ pair_tasks_created pre = (if pt then [ref_dut] else [])
             /\ run (pairing_stage c ra nd ref_dut pt) env m = (tr1, res)).
Proof.
  intros H ra nd pt. unfold test_secure_pairing in H.
  unfold call at 1 2 3, unwrap at 1 in H. cbn [run bind] in H.
  destruct (env DutRegisterCallback (S n)) as [[]|e] eqn:Ereg;
    cbn [run bind] in H.
  - rewrite run_bind in H.
    destruct (run (connect_and_initiate ref k rt c
                     (upper (ref_addr_of ref (ref_connection_address_type c))))
                env (S (S (S n)))) as [t0 [[rd pt']|e]] eqn:Hc;
      apply connect_and_initiate_run in Hc; destruct Hc as [Hns Hres].
    + destruct Hres as [-> Hcreated]. fold ra nd pt in H.
      destruct (run (pairing_stage c ra nd rd pt) env
                  (S (S (S n)) + length t0)) as [t1 r1] eqn:Hs.
      injection H as <- <-.
      match goal with
      | |- context [?o1 :: ?o2 :: ?o3 :: t0 ++ t1] =>
          exists (o1 :: o2 :: o3 :: t0)
      end.
      split.
      * repeat (apply Forall_cons; [reflexivity|]). exact Hns.
      * right. exists rd, t1, (S (S (S n)) + length t0).
        split; [reflexivity|]. split; [|exact Hs].
        fold pt in Hcreated. exact Hcreated.
    + injection H as <- <-.
      match goal with
      | |- context [?o1 :: ?o2 :: ?o3 :: t0] =>
          exists (o1 :: o2 :: o3 :: t0)
      end.
      split.
      * repeat (apply Forall_cons; [reflexivity|]). exact Hns.
      * left. split; [reflexivity|]. split; [eauto|]. exact Hres.
  - injection H as <- <-.
    match goal with
    | |- context [[?o1; ?o2]] => exists [o1; o2]
    end.
    split.
    + repeat (apply Forall_cons; [reflexivity|]). apply Forall_nil.
    + left. split; [reflexivity|]. split; [eauto|reflexivity].
Qed.

(** ** A prefix without calls of the pairing stage does not show *)

Lemma stage_view_prefix pre tr1 :
  Forall (fun o => pairing_stage_call (obs_call o) = false) pre ->
  dut_pairing_waits (pre ++ tr1) = dut_pairing_waits tr1
  /\ dut_confirmations (pre ++ tr1) = dut_confirmations tr1
  /\ ref_events_taken (pre ++ tr1) = ref_events_taken tr1
  /\ ref_answers (pre ++ tr1) = ref_answers tr1
  /\ bond_state_waits (pre ++ tr1) = bond_state_waits tr1
  /\ pair_task_awaits (pre ++ tr1) = pair_task_awaits tr1
  /\ filter pairing_stage_call (calls (pre ++ tr1))
     = filter pairing_stage_call (calls tr1).
Proof.
  intros Hpre.
  repeat split;
    try (apply (@project_prefix _ _ (fun c => pairing_stage_call c = false));
         [|exact Hpre];
         intros c r; destruct c; simpl; intros E; try reflexivity;
         discriminate E).
  unfold calls. rewrite map_app, filter_app.
  replace (filter pairing_stage_call (map obs_call pre)) with (@nil Call);
    [reflexivity|].
  induction Hpre as [|o pre Ho _ IH]; [reflexivity|].
  simpl. rewrite Ho. exact IH.
Qed.

Lemma stage_view_nil pre :
  Forall (fun o => pairing_stage_call (obs_call o) = false) pre ->
  dut_pairing_waits pre = []
  /\ dut_confirmations pre = []
  /\ ref_events_taken pre = []
  /\ ref_answers pre = []
  /\ bond_state_waits pre = []
  /\ pair_task_awaits pre = [].
Proof.
  intros Hpre. pose proof (stage_view_prefix [] Hpre) as H.
  rewrite app_nil_r in H. tauto.
Qed.

Lemma pairing_stage_no_pair_task c ra nd rd pt env n tr res :
  run (pairing_stage c ra nd rd pt) env n = (tr, res) ->
  pair_tasks_created tr = []
  /\ (pt = false -> pair_task_awaits tr = []).
Proof.
  intros H. unfold pairing_stage in H.
  destruct nd, pt, (variant c) eqn:Ev, (ref_io_capability c) eqn:Eio;
    exec_all H; injection H as Htr Hres; subst tr res;
    (split; [reflexivity|]); intros Hpt;
    first [reflexivity | discriminate Hpt].
Qed.

(** A run of [test_secure_pairing] that passed. *)
Lemma test_secure_pairing_passed ref k rt c env n tr :
  run (test_secure_pairing ref k rt c) env n = (tr, Ok tt) ->
  let ra := upper (ref_addr_of ref (ref_connection_address_type c)) in
  let nd := Direction_eqb (connection_direction c) OUTGOING
            && Direction_eqb (pairing_direction c) INCOMING in
  let pt := Direction_eqb (connection_direction c) INCOMING
            && Direction_eqb (pairing_direction c) INCOMING in
  exists rd,
    pair_tasks_created tr = (if pt then [rd] else [])
    /\ exists dut_event ref_event answer final,
    length (dut_pairing_waits tr) = (if nd then 2 else 1)
    /\ find (fun e => String.eqb (pr_address e) ra)
         (last (dut_pairing_waits tr) []) = Some dut_event
    /\ ref_events_taken tr = [Some ref_event]
    /\ dict_get (pairing_method_table dut_event) (ref_io_capability c)
       = Some (pr_variant dut_event, pe_variant ref_event, answer)
    /\ filter pairing_stage_call (calls tr)
       = (if nd
          then [DutWaitForPairingRequest; DutSetPairingConfirmation ra true;
                DutWaitForPairingRequest]
          else [DutWaitForPairingRequest])
         ++ [PairingEventsGet]
         ++ match variant c with
            | ACCEPT =>
                [DutSetPairingConfirmation ra true;
                 PairingAnswersPutNowait answer;
                 PairingAnswersPutNowait answer]
            | REJECT =>
                [DutSetPairingConfirmation ra false;
                 PairingAnswersPutNowait answer;
                 PairingAnswersPutNowait answer]
            | REJECTED =>
                [DutSetPairingConfirmation ra true;
                 PairingAnswersPutNowait
                   (mkPairingEvent (pe_variant answer) (PyBool false))]
            | DISCONNECTED =>
                [RefDisconnect rd; PairingAnswersPutNowait answer]
            end
         ++ [DutWaitForBondStateChanged]
         ++ (if pt then [AwaitPairTask] else [])
    /\ dut_confirmations tr
       = (if nd then [true] else [])
         ++ match variant c with
            | ACCEPT | REJECTED => [true]
            | REJECT => [false]
            | DISCONNECTED => []
            end
    /\ ref_answers tr
       = match variant c with
         | ACCEPT | REJECT => [answer; answer]
         | REJECTED => [mkPairingEvent (pe_variant answer) (PyBool false)]
         | DISCONNECTED => [answer]
         end
    /\ length (bond_state_waits tr) = 1
    /\ find (fun e => existsb (BondState_eqb (bs_state e))
                        _TERMINATED_BOND_STATES)
         (last (bond_state_waits tr) []) = Some final
    /\ bs_state final
       = (if TestVariant_eqb (variant c) ACCEPT then BOND_BONDED else BOND_NONE)
    /\ (if pt
        then exists r,
            pair_task_awaits tr = [r]
            /\ match r with
               | Ok _ => True
               | Err e =>
                   (e = ProtocolError
                    /\ (variant c = REJECT \/ variant c = REJECTED))
                   \/ (e = CancelledError /\ variant c = DISCONNECTED)
               end
        else pair_task_awaits tr = []).
Proof.
  intros H ra nd pt.
  apply test_secure_pairing_run in H. fold ra nd pt in H.
  destruct H as [pre [Hpre [[_ [[e He] _]] | [rd [tr1 [m [-> [Hc Hs]]]]]]]];
    [discriminate He|].
  exists rd. split.
  - unfold pair_tasks_created in *. rewrite project_app, Hc.
    destruct (pairing_stage_no_pair_task _ _ _ _ _ _ _ Hs) as [Hn _].
    unfold pair_tasks_created in Hn. rewrite Hn. apply app_nil_r.
  - destruct (stage_view_prefix tr1 Hpre)
      as (-> & -> & -> & -> & -> & -> & ->).
    eapply pairing_stage_passed; eassumption.
Qed.

(** Whatever the outcome: what the last two steps make of a run that got to
    the wait for the terminal bond state. *)
Lemma test_secure_pairing_final ref k rt c env n tr res :
  run (test_secure_pairing ref k rt c) env n = (tr, res) ->
  forall bonds, bond_state_waits tr = [bonds] ->
  match find (fun e => existsb (BondState_eqb (bs_state e))
                         _TERMINATED_BOND_STATES) bonds with
  | None => res = Err TimeoutError /\ pair_task_awaits tr = []
  | Some final =>
      if BondState_eqb (bs_state final)
           (if TestVariant_eqb (variant c) ACCEPT
            then BOND_BONDED else BOND_NONE)
      then
        if Direction_eqb (connection_direction c) INCOMING
           && Direction_eqb (pairing_direction c) INCOMING
        then exists r,
            pair_task_awaits tr = [r]
            /\ res = match r with
                     | Ok _ => Ok tt
                     | Err e =>
                         match variant c, e with
                         | REJECT, ProtocolError
                         | REJECTED, ProtocolError
                         | DISCONNECTED, CancelledError => Ok tt
                         | _, _ => Err e
                         end
                     end
        else pair_task_awaits tr = [] /\ res = Ok tt
      else res = Err AssertionFailure /\ pair_task_awaits tr = []
  end.
Proof.
  intros H bonds Hb. apply test_secure_pairing_run in H.
  destruct H as [pre [Hpre [[-> _] | [rd [tr1 [m [-> [_ Hs]]]]]]]].
  - destruct (stage_view_nil Hpre) as (_ & _ & _ & _ & Hnil & _).
    rewrite Hnil in Hb. discriminate Hb.
  - destruct (stage_view_prefix tr1 Hpre)
      as (_ & _ & _ & _ & Hbw & -> & _).
    rewrite Hbw in Hb.
    eapply pairing_stage_final; eassumption.
Qed.

(** Without an incoming connection and an incoming pairing direction no
    pairing task is created and none is awaited, whatever the outcome. *)
Lemma test_secure_pairing_no_pair_task ref k rt c env n tr res :
  run (test_secure_pairing ref k rt c) env n = (tr, res) ->
  Direction_eqb (connection_direction c) INCOMING
  && Direction_eqb (pairing_direction c) INCOMING = false ->
  pair_tasks_created tr = [] /\ pair_task_awaits tr = [].
Proof.
  intros H Hpt. apply test_secure_pairing_run in H. rewrite Hpt in H.
  destruct H as [pre [Hpre [[-> [_ Hc]] | [rd [tr1 [m [-> [Hc Hs]]]]]]]].
  - split; [exact Hc|].
    now destruct (stage_view_nil Hpre) as (_ & _ & _ & _ & _ & Hnil).
  - destruct (pairing_stage_no_pair_task _ _ _ _ _ _ _ Hs) as [Hn Ha].
    destruct (stage_view_prefix tr1 Hpre)
      as (_ & _ & _ & _ & _ & -> & _).
    split; [|apply Ha; reflexivity].
    unfold pair_tasks_created in *. now rewrite project_app, Hc, Hn.
Qed.



Lemma singleton_of_length_last (A : Type) (l : list A) (d : A) :
  length l = 1 -> l = [last l d].
Proof.
  destruct l as [|a [|b l]]; simpl; intros H; try discriminate H.
  reflexivity.
Qed.

(** Whatever the outcome: once REF's queue of prompts has been read, DUT's
    pairing requests have been waited for the full number of times. *)
Lemma pairing_stage_dut_waits c ra nd rd pt env n tr res :
  run (pairing_stage c ra nd rd pt) env n = (tr, res) ->
  length (dut_pairing_waits tr) <= (if nd then 2 else 1)
  /\ (ref_events_taken tr <> [] ->
      length (dut_pairing_waits tr) = (if nd then 2 else 1)
      /\ exists rest,
          filter pairing_stage_call (calls tr)
          = (if nd
             then [DutWaitForPairingRequest;
                   DutSetPairingConfirmation ra true;
                   DutWaitForPairingRequest]
             else [DutWaitForPairingRequest])
            ++ PairingEventsGet :: rest
          /\ ~ In DutWaitForPairingRequest rest).
Proof.
  intros H. unfold pairing_stage in H.
  destruct nd, pt, (variant c) eqn:Ev, (ref_io_capability c) eqn:Eio;
    exec_all H; injection H as Htr Hres; subst tr res;
    (split; [view; lia|]); view; intros Hne;
    try (exfalso; apply Hne; reflexivity);
    (split; [reflexivity|]);
    eexists; (split; [reflexivity|]);
    cbn [In]; intros Hin;
    repeat match goal with
      | Hor : _ \/ _ |- _ => destruct Hor as [Hor|Hor]
      end;
    first [discriminate | contradiction].
Qed.

Lemma test_secure_pairing_dut_waits ref k rt c env n tr res :
  run (test_secure_pairing ref k rt c) env n = (tr, res) ->
  let ra := upper (ref_addr_of ref (ref_connection_address_type c)) in
  let nd := Direction_eqb (connection_direction c) OUTGOING
            && Direction_eqb (pairing_direction c) INCOMING in
  length (dut_pairing_waits tr) <= (if nd then 2 else 1)
  /\ (ref_events_taken tr <> [] ->
      length (dut_pairing_waits tr) = (if nd then 2 else 1)
      /\ exists rest,
          filter pairing_stage_call (calls tr)
          = (if nd
             then [DutWaitForPairingRequest;
                   DutSetPairingConfirmation ra true;
                   DutWaitForPairingRequest]
             else [DutWaitForPairingRequest])
            ++ PairingEventsGet :: rest
          /\ ~ In DutWaitForPairingRequest rest).
Proof.
  intros H ra nd. apply test_secure_pairing_run in H. fold ra nd in H.
  destruct H as [pre [Hpre [[-> _] | [rd [tr1 [m [-> [_ Hs]]]]]]]].
  - destruct (stage_view_nil Hpre) as (-> & _ & -> & _).
    split; [destruct nd; simpl; lia|]. intros Hne. now elim Hne.
  - destruct (stage_view_prefix tr1 Hpre) as (-> & _ & -> & _ & _ & _ & ->).
    eapply pairing_stage_dut_waits; eassumption.
Qed.

(** Whatever the outcome: an awaited pairing task decides the result. *)
Lemma pairing_stage_awaited c ra nd rd pt env n tr res :
  run (pairing_stage c ra nd rd pt) env n = (tr, res) ->
  forall r, pair_task_awaits tr = [r] ->
  res = match r with
        | Ok _ => Ok tt
        | Err e =>
            match variant c, e with
            | REJECT, ProtocolError
            | REJECTED, ProtocolError
            | DISCONNECTED, CancelledError => Ok tt
            | _, _ => Err e
            end
        end
  /\ exists before,
      filter pairing_stage_call (calls tr)
      = before ++ [DutWaitForBondStateChanged; AwaitPairTask].
Proof.
  intros H r Hr. unfold pairing_stage in H.
  destruct nd, pt, (variant c) eqn:Ev, (ref_io_capability c) eqn:Eio;
    exec_all H; injection H as Htr Hres; subst tr res;
    view_in Hr; try discriminate Hr; injection Hr as <-;
    repeat match goal with v : unit |- _ => destruct v end;
    (split;
     [ try reflexivity;
       match goal with
       | E : existsb (exn_eqb ?e) _ = _ |- _ =>
           destruct e; simpl in E; try discriminate E; reflexivity
       end
     | view;
       match goal with
       | |- exists before, ?l = _ =>
           exists (removelast (removelast l)); reflexivity
       end ]).
Qed.

Lemma test_secure_pairing_awaited ref k rt c env n tr res :
  run (test_secure_pairing ref k rt c) env n = (tr, res) ->
  forall r, pair_task_awaits tr = [r] ->
  res = match r with
        | Ok _ => Ok tt
        | Err e =>
            match variant c, e with
            | REJECT, ProtocolError
            | REJECTED, ProtocolError
            | DISCONNECTED, CancelledError => Ok tt
            | _, _ => Err e
            end
        end
  /\ exists before,
      filter pairing_stage_call (calls tr)
      = before ++ [DutWaitForBondStateChanged; AwaitPairTask].
Proof.
  intros H r Hr. apply test_secure_pairing_run in H.
  destruct H as [pre [Hpre [[-> _] | [rd [tr1 [m [-> [_ Hs]]]]]]]].
  - destruct (stage_view_nil Hpre) as (_ & _ & _ & _ & _ & Hnil).
    rewrite Hnil in Hr. discriminate Hr.
  - destruct (stage_view_prefix tr1 Hpre) as (_ & _ & _ & _ & _ & Ha & ->).
    rewrite Ha in Hr. eapply pairing_stage_awaited; eassumption.
Qed.

End TestFacts.

(* ================================================================== *)
(** * What the test reads of REF's prompt *)
(* ================================================================== *)

Module PromptArgFacts.
Import LePairingTest TraceView EnvViews RunFacts PairingStageFacts TestFacts
  Examples.






End PromptArgFacts.

(* ================================================================== *)
(** * [test_secure_pairing]: the outcome, the prompts and the answers *)
(* ================================================================== *)

Module TestSecurePairing.
Import LePairingTest TraceView EnvViews RunFacts PairingStageFacts TestFacts
  PromptArgFacts Examples PinExamples.

(** C1.  In every execution of [test_secure_pairing] that passes, whatever
    the case and whatever the two devices do, DUT's terminal bond state (the
    first event with a state in [_TERMINATED_BOND_STATES] that the last wait
    delivers) is BONDED iff the variant is ACCEPT and NONE for every other
    variant; and an execution that gets a terminal bond state other than
    that fails with an assertion failure. *)
Theorem C1_terminal_bond_state ref k rt c env n tr res :
  run (test_secure_pairing ref k rt c) env n = (tr, res) ->
  (res = Ok tt ->
   exists bonds final,
     bond_state_waits tr = [bonds]
     /\ find (fun e => existsb (BondState_eqb (bs_state e))
                         _TERMINATED_BOND_STATES) bonds = Some final
     /\ (bs_state final = BOND_BONDED <-> variant c = ACCEPT)
     /\ (variant c <> ACCEPT -> bs_state final = BOND_NONE))
  /\ (forall bonds final,
         bond_state_waits tr = [bonds] ->
         find (fun e => existsb (BondState_eqb (bs_state e))
                          _TERMINATED_BOND_STATES) bonds = Some final ->
         bs_state final
         <> (if TestVariant_eqb (variant c) ACCEPT
             then BOND_BONDED else BOND_NONE) ->
         res = Err AssertionFailure).
Proof.
  intros H. split.
  - intros ->. apply test_secure_pairing_passed in H.
    destruct H as (rd & _ & dut_event & ref_event & answer & final & H).
    destruct H as (_ & _ & _ & _ & _ & _ & _ & Hlen & Hfind & Hstate & _).
    exists (last (bond_state_waits tr) []), final.
    split; [apply singleton_of_length_last, Hlen|].
    split; [exact Hfind|].
    rewrite Hstate. destruct (variant c); simpl; repeat split;
      intros; try reflexivity; try discriminate; try congruence.
  - intros bonds final Hb Hfind Hneq.
    pose proof (test_secure_pairing_final _ _ _ _ _ _ H Hb) as Hfinal.
    rewrite Hfind in Hfinal.
    destruct (BondState_eqb (bs_state final)
                (if TestVariant_eqb (variant c) ACCEPT
                 then BOND_BONDED else BOND_NONE)) eqn:E.
    + apply BondState_eqb_eq in E. contradiction.
    + apply Hfinal.
Qed.

Lemma C1_witness :
  exists tr,
    run (test_secure_pairing example_ref 2 on_timeout case_accept_out_out)
      (scripted_env (cooperative case_accept_out_out)) 0 = (tr, Ok tt)
    /\ exists bonds final,
        bond_state_waits tr = [bonds]
        /\ find (fun e => existsb (BondState_eqb (bs_state e))
                            _TERMINATED_BOND_STATES) bonds = Some final
        /\ (bs_state final = BOND_BONDED
            <-> variant case_accept_out_out = ACCEPT)
        /\ (variant case_accept_out_out <> ACCEPT ->
            bs_state final = BOND_NONE).
Proof.
  eexists. split; [vm_compute; reflexivity|].
  refine (proj1 (C1_terminal_bond_state example_ref 2 on_timeout
                   case_accept_out_out
                   (scripted_env (cooperative case_accept_out_out)) 0 _) _);
    reflexivity.
Defined.


(** C2, counterexample.  Pairing direction INCOMING does not imply a
    pairing task, and a tolerated error is not a required one.  A REJECT
    case with an outgoing connection and pairing direction INCOMING (REF
    asks for pairing with [request_pairing]) passes without any pairing
    task being created or awaited; and a REJECT case with both directions
    INCOMING passes although REF's pairing task ends without an error. *)
Lemma C2_counterexample :
  (pairing_direction case_reject_out_in = INCOMING
   /\ In case_reject_out_in
        (Matrix.test_secure_pairing_parameters [OUTGOING; INCOMING])
   /\ snd (run (test_secure_pairing example_ref 2 on_timeout
                  case_reject_out_in)
             (scripted_env (cooperative case_reject_out_in)) 0) = Ok tt
   /\ pair_tasks_created
        (fst (run (test_secure_pairing example_ref 2 on_timeout
                     case_reject_out_in)
                (scripted_env (cooperative case_reject_out_in)) 0)) = []
   /\ pair_task_awaits
        (fst (run (test_secure_pairing example_ref 2 on_timeout
                     case_reject_out_in)
                (scripted_env (cooperative case_reject_out_in)) 0)) = [])
  /\ (pairing_direction case_reject_in_in = INCOMING
      /\ variant case_reject_in_in = REJECT
      /\ snd (run (test_secure_pairing example_ref 2 on_timeout
                     case_reject_in_in)
                (scripted_env (task_succeeds case_reject_in_in)) 0) = Ok tt
      /\ pair_task_awaits
           (fst (run (test_secure_pairing example_ref 2 on_timeout
                        case_reject_in_in)
                   (scripted_env (task_succeeds case_reject_in_in)) 0))
         = [Ok tt]).
Proof.
  split.
  - split; [reflexivity|]. split; [vm_compute; tauto|].
    repeat split; vm_compute; reflexivity.
  - repeat split; vm_compute; reflexivity.
Qed.

(** C2, amended.  REF's pairing task exists exactly in the cases whose
    connection direction and pairing direction are both INCOMING: in every
    other case no task is created and none is awaited.  With both
    directions INCOMING a passing execution created one task and awaited it
    once, as its last step after the wait for the terminal bond state, and
    the task ended without an error or with the error the variant
    tolerates (ProtocolError for REJECT and REJECTED, CancelledError for
    DISCONNECTED, none for ACCEPT); an awaited task that ends with any
    other error fails the execution with that error. *)
Theorem C2_pair_task_when_both_incoming ref k rt c env n tr res :
  run (test_secure_pairing ref k rt c) env n = (tr, res) ->
  (~ (connection_direction c = INCOMING /\ pairing_direction c = INCOMING) ->
   pair_tasks_created tr = [] /\ pair_task_awaits tr = [])
  /\ (connection_direction c = INCOMING ->
      pairing_direction c = INCOMING ->
      res = Ok tt ->
      exists connection r before,
        pair_tasks_created tr = [connection]
        /\ pair_task_awaits tr = [r]
        /\ filter pairing_stage_call (calls tr)
           = before ++ [DutWaitForBondStateChanged; AwaitPairTask]
        /\ (r = Ok tt
            \/ (r = Err ProtocolError
                /\ (variant c = REJECT \/ variant c = REJECTED))
            \/ (r = Err CancelledError /\ variant c = DISCONNECTED)))
  /\ (forall r,
         pair_task_awaits tr = [r] ->
         res = match r with
               | Ok _ => Ok tt
               | Err e =>
                   match variant c, e with
                   | REJECT, ProtocolError
                   | REJECTED, ProtocolError
                   | DISCONNECTED, CancelledError => Ok tt
                   | _, _ => Err e
                   end
               end).
Proof.
  intros H. split; [|split].
  - intros Hnot. eapply test_secure_pairing_no_pair_task; [exact H|].
    destruct (connection_direction c), (pairing_direction c);
      try reflexivity.
    exfalso. apply Hnot. split; reflexivity.
  - intros Hcd Hpd ->.
    pose proof (test_secure_pairing_passed _ _ _ _ _ _ H) as Hp.
    cbv zeta in Hp. rewrite Hcd, Hpd in Hp. cbn [Direction_eqb andb] in Hp.
    destruct Hp as (rd & Hcreated & dut_event & ref_event & answer & final
                    & Hp).
    destruct Hp as (_ & _ & _ & _ & _ & _ & _ & _ & _ & _ & r & Hr & Htol).
    destruct (test_secure_pairing_awaited _ _ _ _ _ _ H Hr)
      as [_ [before Hbefore]].
    exists rd, r, before. repeat split; try assumption.
    destruct r as [[]|e]; [left; reflexivity|right].
    destruct Htol as [[-> Hv] | [-> Hv]]; [left|right]; split; auto.
  - intros r Hr.
    apply (test_secure_pairing_awaited _ _ _ _ _ _ H Hr).
Qed.

Lemma C2_witness :
  exists tr,
    run (test_secure_pairing example_ref 2 on_timeout case_disconnected_in_in)
      (scripted_env (cooperative case_disconnected_in_in)) 0 = (tr, Ok tt)
    /\ exists connection r before,
        pair_tasks_created tr = [connection]
        /\ pair_task_awaits tr = [r]
        /\ filter pairing_stage_call (calls tr)
           = before ++ [DutWaitForBondStateChanged; AwaitPairTask]
        /\ (r = Ok tt
            \/ (r = Err ProtocolError
                /\ (variant case_disconnected_in_in = REJECT
                    \/ variant case_disconnected_in_in = REJECTED))
            \/ (r = Err CancelledError
                /\ variant case_disconnected_in_in = DISCONNECTED)).
Proof.
  eexists. split; [vm_compute; reflexivity|].
  refine (proj1 (proj2 (C2_pair_task_when_both_incoming example_ref 2
                          on_timeout case_disconnected_in_in
                          (scripted_env (cooperative case_disconnected_in_in))
                          0 _)) _ _ _);
    reflexivity.
Defined.




(** C5.  In a passing execution one prompt is taken from REF's queue of
    pairing events, and the number of answers put on the queue of answers
    is two for ACCEPT and REJECT (the answer is put in the arm of the
    variant and again after the [match]) and one for REJECTED and
    DISCONNECTED.  For DISCONNECTED DUT confirms nothing at that point and
    the answer is put after REF's [disconnect]. *)
Theorem C5_answers_per_prompt ref k rt c env n tr :
  run (test_secure_pairing ref k rt c) env n = (tr, Ok tt) ->
  length (ref_events_taken tr) = 1
  /\ length (ref_answers tr)
     = match variant c with
       | ACCEPT | REJECT => 2
       | REJECTED | DISCONNECTED => 1
       end
  /\ (variant c = DISCONNECTED ->
      exists ref_dut answer,
        filter pairing_stage_call (calls tr)
        = (if Direction_eqb (connection_direction c) OUTGOING
              && Direction_eqb (pairing_direction c) INCOMING
           then [DutWaitForPairingRequest;
                 DutSetPairingConfirmation
                   (upper (ref_addr_of ref (ref_connection_address_type c)))
                   true;
                 DutWaitForPairingRequest]
           else [DutWaitForPairingRequest])
          ++ [PairingEventsGet; RefDisconnect ref_dut;
              PairingAnswersPutNowait answer; DutWaitForBondStateChanged]
          ++ (if Direction_eqb (connection_direction c) INCOMING
                 && Direction_eqb (pairing_direction c) INCOMING
              then [AwaitPairTask] else [])).
Proof.
  intros H. apply test_secure_pairing_passed in H.
  destruct H as (rd & Hcreated & dut_event & ref_event & answer & final & H).
  destruct H as (_ & _ & Htaken & _ & Hcalls & _ & Hans & _).
  split; [now rewrite Htaken|]. split.
  - rewrite Hans. destruct (variant c); reflexivity.
  - intros Hv. rewrite Hv in *.
    exists rd, answer. exact Hcalls.
Qed.

Lemma C5_witness :
  exists tr,
    run (test_secure_pairing example_ref 2 on_timeout case_accept_out_out)
      (scripted_env (cooperative case_accept_out_out)) 0 = (tr, Ok tt)
    /\ length (ref_events_taken tr) = 1
    /\ length (ref_answers tr) = 2.
Proof.
  eexists. split; [vm_compute; reflexivity|].
  destruct (C5_answers_per_prompt example_ref 2 on_timeout
              case_accept_out_out
              (scripted_env (cooperative case_accept_out_out)) 0 eq_refl)
    as (H1 & H2 & _).
  split; [exact H1|exact H2].
Defined.

(** C6.  With an outgoing connection and an incoming pairing direction the
    execution waits for a DUT pairing request, confirms with True, and
    waits for a second one before it reads REF's prompt; with any other
    directions it waits once.  That holds for every execution that comes
    to read REF's prompt, and no execution waits more often.  In a passing
    execution the event the checks and REF's answer are built from is the
    first matching event of the last wait (the second of the two), so that
    for numeric comparison the value in REF's answer is the pin of that
    event. *)
Theorem C6_double_confirmation ref k rt c env n tr res :
  run (test_secure_pairing ref k rt c) env n = (tr, res) ->
  let ra := upper (ref_addr_of ref (ref_connection_address_type c)) in
  (connection_direction c = OUTGOING /\ pairing_direction c = INCOMING ->
   length (dut_pairing_waits tr) <= 2
   /\ (ref_events_taken tr <> [] ->
       length (dut_pairing_waits tr) = 2
       /\ exists rest,
           filter pairing_stage_call (calls tr)
           = [DutWaitForPairingRequest; DutSetPairingConfirmation ra true;
              DutWaitForPairingRequest; PairingEventsGet] ++ rest
           /\ ~ In DutWaitForPairingRequest rest))
  /\ (~ (connection_direction c = OUTGOING /\ pairing_direction c = INCOMING) ->
      length (dut_pairing_waits tr) <= 1
      /\ (ref_events_taken tr <> [] ->
          length (dut_pairing_waits tr) = 1
          /\ exists rest,
              filter pairing_stage_call (calls tr)
              = [DutWaitForPairingRequest; PairingEventsGet] ++ rest
              /\ ~ In DutWaitForPairingRequest rest))
  /\ (res = Ok tt ->
      exists dut_event expected_dut expected_ref answer,
        find (fun e => String.eqb (pr_address e) ra)
          (last (dut_pairing_waits tr) []) = Some dut_event
        /\ dict_get (pairing_method_table dut_event) (ref_io_capability c)
           = Some (expected_dut, expected_ref, answer)
        /\ (ref_io_capability c = DISPLAY_OUTPUT_AND_YES_NO_INPUT ->
            answer = mkPairingEvent NUMERIC_COMPARISON (pr_pin dut_event))
        /\ (variant c <> REJECTED ->
            ref_answers tr <> [] /\ Forall (eq answer) (ref_answers tr))).
Proof.
  intros H ra.
  pose proof (test_secure_pairing_dut_waits _ _ _ _ _ _ H) as Hw.
  cbv zeta in Hw. fold ra in Hw.
  split; [|split].
  - intros [Hcd Hpd]. rewrite Hcd, Hpd in Hw. exact Hw.
  - intros Hnot.
    destruct (connection_direction c), (pairing_direction c);
      try exact Hw.
    exfalso. apply Hnot. split; reflexivity.
  - intros ->. apply test_secure_pairing_passed in H. fold ra in H.
    destruct H as (rd & _ & dut_event & ref_event & answer & final & H).
    destruct H as (_ & Hfind & _ & Hdict & _ & _ & Hans & _).
    exists dut_event, (pr_variant dut_event), (pe_variant ref_event), answer.
    split; [exact Hfind|]. split; [exact Hdict|]. split.
    + intros Hio. rewrite Hio in Hdict. cbn in Hdict.
      now injection Hdict as _ _ <-.
    + intros Hv. rewrite Hans. destruct (variant c);
        try (exfalso; apply Hv; reflexivity);
        (split; [discriminate|]); repeat constructor.
Qed.

Lemma C6_witness :
  exists tr,
    run (test_secure_pairing example_ref 2 on_timeout case_reject_out_in)
      (scripted_env (cooperative case_reject_out_in)) 0 = (tr, Ok tt)
    /\ length (dut_pairing_waits tr) = 2
    /\ exists rest,
        filter pairing_stage_call (calls tr)
        = [DutWaitForPairingRequest;
           DutSetPairingConfirmation "00:1A:7D:DA:71:13" true;
           DutWaitForPairingRequest; PairingEventsGet] ++ rest
        /\ ~ In DutWaitForPairingRequest rest.
Proof.
  eexists. split; [vm_compute; reflexivity|].
  refine (proj2 (proj1 (C6_double_confirmation example_ref 2 on_timeout
                          case_reject_out_in
                          (scripted_env (cooperative case_reject_out_in))
                          0 eq_refl) (conj eq_refl eq_refl)) _).
  discriminate.
Defined.

(** C7.  In a passing execution of a REJECT case DUT's confirmation at the
    resolution is False, and in a passing execution of an ACCEPT case it is
    True; in both, every answer put on REF's queue is the accepting answer
    of the lookup: (JUST_WORK, True) for NO_OUTPUT_NO_INPUT and
    (NUMERIC_COMPARISON, pin of DUT's request) for
    DISPLAY_OUTPUT_AND_YES_NO_INPUT. *)
Theorem C7_asymmetric_reject ref k rt c env n tr :
  run (test_secure_pairing ref k rt c) env n = (tr, Ok tt) ->
  variant c = ACCEPT \/ variant c = REJECT ->
  let ra := upper (ref_addr_of ref (ref_connection_address_type c)) in
  exists dut_event answer earlier,
    find (fun e => String.eqb (pr_address e) ra)
      (last (dut_pairing_waits tr) []) = Some dut_event
    /\ ((ref_io_capability c = NO_OUTPUT_NO_INPUT
         /\ answer = mkPairingEvent JUST_WORK (PyBool true))
        \/ (ref_io_capability c = DISPLAY_OUTPUT_AND_YES_NO_INPUT
            /\ answer = mkPairingEvent NUMERIC_COMPARISON (pr_pin dut_event)))
    /\ ref_answers tr <> []
    /\ Forall (eq answer) (ref_answers tr)
    /\ dut_confirmations tr
       = earlier ++ [match variant c with ACCEPT => true | _ => false end]
    /\ Forall (eq true) earlier.
Proof.
  intros H Hv ra. apply test_secure_pairing_passed in H. fold ra in H.
  destruct H as (rd & _ & dut_event & ref_event & answer & final & H).
  destruct H as (_ & Hfind & _ & Hdict & _ & Hconf & Hans & _).
  exists dut_event, answer.
  eexists (if Direction_eqb (connection_direction c) OUTGOING
              && Direction_eqb (pairing_direction c) INCOMING
           then [true] else []).
  split; [exact Hfind|]. split.
  - destruct (ref_io_capability c); try discriminate Hdict;
      cbn in Hdict; injection Hdict as _ _ <-; auto.
  - rewrite Hans, Hconf.
    destruct Hv as [-> | ->];
      (split; [discriminate|]); (split; [repeat constructor|]);
      (split; [reflexivity|]);
      destruct (Direction_eqb _ _ && Direction_eqb _ _);
      repeat constructor.
Qed.

Lemma C7_witness :
  exists tr,
    run (test_secure_pairing example_ref 2 on_timeout case_reject_out_in)
      (scripted_env (cooperative case_reject_out_in)) 0 = (tr, Ok tt)
    /\ ref_answers tr
       = [mkPairingEvent NUMERIC_COMPARISON (PyInt 123456);
          mkPairingEvent NUMERIC_COMPARISON (PyInt 123456)]
    /\ exists dut_event answer earlier,
        Forall (eq answer) (ref_answers tr)
        /\ (ref_io_capability case_reject_out_in
            = DISPLAY_OUTPUT_AND_YES_NO_INPUT
            /\ answer = mkPairingEvent NUMERIC_COMPARISON (pr_pin dut_event))
        /\ dut_confirmations tr = earlier ++ [false].
Proof.
  eexists. split; [vm_compute; reflexivity|].
  split; [reflexivity|].
  destruct (C7_asymmetric_reject example_ref 2 on_timeout case_reject_out_in
              (scripted_env (cooperative case_reject_out_in)) 0 eq_refl
              (or_intror eq_refl))
    as (dut_event & answer & earlier & _ & [(Hio & _) | Hnc] & _ & Hall
        & Hconf & _).
  - discriminate Hio.
  - exists dut_event, answer, earlier.
    split; [exact Hall|]. split; [exact Hnc|exact Hconf].
Defined.

End TestSecurePairing.

(* ================================================================== *)
(** * The tokens drawn in a run *)
(* ================================================================== *)

Module FreshTokens.
Import LePairingTest TraceView EnvViews RunFacts Examples.

(** The draws of a run are the answers of [uuid4] at different positions
    of the run. *)
Lemma uuid_draws_positions (A : Type) (p : Prog A) env :
  forall n,
    exists positions,
      uuid_draws (fst (run p env n)) = map (env Uuid4) positions
      /\ Forall (le n) positions
      /\ NoDup positions.
Proof.
  induction p as [a|e|c k IH]; intros n.
  - exists []. repeat split; constructor.
  - exists []. repeat split; constructor.
  - cbn [run]. specialize (IH (env c n) (S n)).
    destruct (run (k (env c n)) env (S n)) as [tr r]. cbn [fst] in *.
    destruct IH as (positions & Hd & Hle & Hnd).
    assert (Hweak : Forall (le n) positions).
    { eapply Forall_impl; [|exact Hle]. intros i Hi. simpl in Hi. lia. }
    destruct c;
      try (exists positions; split; [exact Hd|split; assumption]).
    exists (n :: positions). split; [|split].
    + change (uuid_draws (mkObs Uuid4 (env Uuid4 n) :: tr))
        with (env Uuid4 n :: uuid_draws tr).
      rewrite Hd. reflexivity.
    + constructor; [lia|exact Hweak].
    + constructor; [|exact Hnd].
      intros Hin. rewrite Forall_forall in Hle. apply Hle in Hin. lia.
Qed.

Lemma unique_uuid_draws (A : Type) (p : Prog A) env n tr res :
  uuid4_unique env ->
  run p env n = (tr, res) ->
  NoDup (uuid_draws tr).
Proof.
  intros Hu H.
  destruct (uuid_draws_positions p env n) as (positions & Hd & _ & Hnd).
  rewrite H in Hd. cbn [fst] in Hd. rewrite Hd.
  apply NoDup_map_NoDup_ForallPairs; [|exact Hnd].
  intros i j _ _ E. apply Hu, E.
Qed.

Lemma token_length n : String.length (token n) = n + 4.
Proof. induction n as [|n IH]; simpl; [reflexivity|now rewrite IH]. Qed.

Lemma scripted_uuid4_unique s : uuid4_unique (scripted_env s).
Proof.
  intros i j E. cbn in E. apply (f_equal String.length) in E.
  rewrite !token_length in E. lia.
Qed.

End FreshTokens.

(* ================================================================== *)
(** * The two connection helpers *)
(* ================================================================== *)

Module ConnectionEstablishment.
Import LePairingTest TraceView EnvViews RunFacts PairingStageFacts TestFacts
  FreshTokens Examples.

Lemma fold_on_connection_done connections link :
  fold_left on_connection connections (Some link) = Some link.
Proof.
  induction connections as [|x l IH]; simpl; [reflexivity|].
  unfold on_connection at 2.
  destruct (Transport_eqb (conn_transport x) BT_LE_TRANSPORT); exact IH.
Qed.

(** The future of [_make_outgoing_connection] gets the first LE connection. *)
Lemma fold_on_connection connections :
  fold_left on_connection connections None
  = find (fun conn => Transport_eqb (conn_transport conn) BT_LE_TRANSPORT)
      connections.
Proof.
  induction connections as [|x l IH]; simpl; [reflexivity|].
  unfold on_connection at 2.
  destruct (Transport_eqb (conn_transport x) BT_LE_TRANSPORT);
    [apply fold_on_connection_done | exact IH].
Qed.

Ltac conn_step H :=
  match type of H with
  | context [match fold_left ?f ?l ?a with _ => _ end] =>
      let E := fresh "Efold" in destruct (fold_left f l a) eqn:E
  | context [match ?env ?c ?n with _ => _ end] =>
      lazymatch type of env with
      | Env => let E := fresh "Eenv" in destruct (env c n) eqn:E
      end
  | context [if ?b then _ else _] =>
      let E := fresh "Eb" in destruct b eqn:E
  end.

Ltac conn_exec H :=
  unfold assert_not_timeout_await, assert_true, unwrap, call in H;
  cbn [run bind catch] in H;
  repeat (conn_step H; cbn [run bind catch] in H).

(** C8.  One invocation of [_make_outgoing_connection] that came to wait
    for REF's connection event: if an LE connection was among the events
    REF saw within the bound, the invocation then stops REF's advertising,
    as its last call and not before, and returns the first such connection
    (when [stop_advertising] itself returns); if none was, the invocation
    raises the timeout without having stopped the advertising, and under a
    retry decorator that retries on timeouts it is invoked again. *)
Theorem C8_outgoing_connection ref a cb env n tr res :
  run (_make_outgoing_connection_attempt ref a cb) env n = (tr, res) ->
  forall connections,
    connection_event_batches tr = [connections] ->
    match find (fun conn => Transport_eqb (conn_transport conn)
                              BT_LE_TRANSPORT) connections with
    | Some link =>
        exists before stopped,
          tr = before ++ [mkObs RefStopAdvertising stopped]
          /\ ~ In RefStopAdvertising (calls before)
          /\ res = match stopped with
                   | Ok _ => Ok link
                   | Err e => Err e
                   end
    | None =>
        res = Err TimeoutError
        /\ ~ In RefStopAdvertising (calls tr)
        /\ forall k rt,
            rt TimeoutError = true ->
            run (_make_outgoing_connection ref (S k) rt a cb) env n
            = (let '(tr2, res2) :=
                 run (_make_outgoing_connection ref k rt a cb) env
                   (n + length tr) in
               (tr ++ tr2, res2))
    end.
Proof.
  intros H connections Hc.
  assert (Hretry : res = Err TimeoutError ->
                   forall k rt,
                     rt TimeoutError = true ->
                     run (_make_outgoing_connection ref (S k) rt a cb) env n
                     = (let '(tr2, res2) :=
                          run (_make_outgoing_connection ref k rt a cb) env
                            (n + length tr) in
                        (tr ++ tr2, res2))).
  { intros -> k rt Hrt. unfold _make_outgoing_connection.
    cbn [retry_on_exception]. rewrite run_catch, H, Hrt. reflexivity. }
  unfold _make_outgoing_connection_attempt in H.
  destruct cb; conn_exec H; injection H as Htr Hres; subst tr;
    cbv beta iota delta [connection_event_batches project flat_map
                           obs_call obs_resp app] in Hc;
    try discriminate Hc; injection Hc as <-;
    rewrite fold_on_connection in *;
    match goal with
    | E : find _ _ = _ |- _ => rewrite E
    end.
  all: try (split; [symmetry; exact Hres|]; split;
            [ cbn; intros Hin;
              repeat match goal with
                | Hor : _ \/ _ |- _ => destruct Hor as [Hor|Hor]
                end; first [discriminate | contradiction]
            | apply Hretry; symmetry; exact Hres ]).
  all: match goal with
       | |- exists before stopped, ?l = _ /\ _ =>
           exists (removelast l); eexists; split; [reflexivity|]
       end;
       (split;
        [ cbn; intros Hin;
          repeat match goal with
            | Hor : _ \/ _ |- _ => destruct Hor as [Hor|Hor]
            end; first [discriminate | contradiction]
        | subst res; reflexivity ]).
Qed.

Lemma C8_witness :
  exists tr,
    run (_make_outgoing_connection_attempt example_ref RANDOM true)
      (scripted_env (late case_accept_out_out)) 0 = (tr, Err TimeoutError)
    /\ ~ In RefStopAdvertising (calls tr)
    /\ run (_make_outgoing_connection example_ref 1 on_timeout RANDOM true)
         (scripted_env (late case_accept_out_out)) 0
       = (let '(tr2, res2) :=
            run (_make_outgoing_connection example_ref 0 on_timeout RANDOM
                   true)
              (scripted_env (late case_accept_out_out)) (0 + length tr) in
          (tr ++ tr2, res2))
    /\ snd (run (_make_outgoing_connection example_ref 1 on_timeout RANDOM
                   true)
              (scripted_env (late case_accept_out_out)) 0) = Ok le_link.
Proof.
  eexists. split; [vm_compute; reflexivity|].
  pose proof (C8_outgoing_connection example_ref RANDOM true
                (scripted_env (late case_accept_out_out)) 0 eq_refl
                (connections := [classic_link]) eq_refl) as W.
  destruct W as (_ & Hno & Hretry).
  split; [exact Hno|]. split; [exact (Hretry 0 on_timeout eq_refl)|].
  vm_compute. reflexivity.
Defined.

(** ** Incoming connections: tokens and advertising scopes *)

Lemma incoming_attempt_shape a env n tr res :
  run (_make_incoming_connection_attempt a) env n = (tr, res) ->
  (exists e,
      tr = [mkObs Uuid4 (env Uuid4 n);
            mkObs (DutStartLegacyAdvertiser RANDOM [env Uuid4 n]) (Err e)]
      /\ res = Err e)
  \/ (exists advertiser body,
         tr = [mkObs Uuid4 (env Uuid4 n);
               mkObs (DutStartLegacyAdvertiser RANDOM [env Uuid4 n])
                 (Ok advertiser)]
              ++ body ++ [mkObs (AdvertiserExit advertiser) tt]
         /\ Forall (fun o => advertiser_call (obs_call o) = false) body).
Proof.
  intros H. unfold _make_incoming_connection_attempt in H.
  unfold call at 1 2 in H. cbn [run bind] in H.
  destruct (env (DutStartLegacyAdvertiser RANDOM [env Uuid4 n]) (S n))
    as [advertiser|e] eqn:Estart; cbn [unwrap run bind] in H.
  - right. rewrite run_with_exit in H.
    match type of H with
    | context [run ?body env (S (S n))] =>
        pose proof (@all_calls_run _ (fun c => advertiser_call c = false)
                      body env (S (S n))) as Hbody;
        destruct (run body env (S (S n))) as [tb rb]
    end.
    cbn [fst] in Hbody. injection H as <- <-.
    exists advertiser, tb. split.
    + repeat f_equal.
      now destruct (env (AdvertiserExit advertiser) _).
    + apply Hbody. static.
  - left. injection H as <- <-. exists e. split; reflexivity.
Qed.

Lemma advertisers_after_neutral active body :
  Forall (fun o => advertiser_call (obs_call o) = false) body ->
  advertisers_after active body = active.
Proof.
  unfold advertisers_after. intros Hb. revert active.
  induction Hb as [|o body Ho _ IH]; intros active; [reflexivity|].
  simpl. rewrite <- (IH active) at 2. f_equal.
  destruct o as [c r]; destruct c; simpl in *;
    try reflexivity; discriminate Ho.
Qed.

Lemma neutral_firstn i body :
  Forall (fun o => advertiser_call (obs_call o) = false) body ->
  Forall (fun o => advertiser_call (obs_call o) = false) (firstn i body).
Proof.
  intros Hb. revert i.
  induction Hb as [|o body Ho _ IH]; intros [|i]; simpl;
    constructor; auto.
Qed.

Lemma advertisers_after_app active t1 t2 :
  advertisers_after active (t1 ++ t2)
  = advertisers_after (advertisers_after active t1) t2.
Proof. unfold advertisers_after. apply fold_left_app. Qed.

Lemma advertiser_exit_alone advertiser u :
  advertisers_after [advertiser] [mkObs (AdvertiserExit advertiser) u] = [].
Proof.
  unfold advertisers_after. simpl.
  destruct (Nat.eq_dec advertiser advertiser); [reflexivity|congruence].
Qed.

(** One invocation: one token, advertised as drawn; never two advertisers
    on; none on at the end. *)
Lemma incoming_attempt_scoped a env n tr res :
  run (_make_incoming_connection_attempt a) env n = (tr, res) ->
  uuid_draws tr = [env Uuid4 n]
  /\ advertised_service_uuids tr = [[env Uuid4 n]]
  /\ (forall i, length (advertisers_after [] (firstn i tr)) <= 1)
  /\ advertisers_after [] tr = [].
Proof.
  intros H. apply incoming_attempt_shape in H.
  destruct H as [[e [-> _]] | [advertiser [body [-> Hbody]]]].
  - split; [reflexivity|]. split; [reflexivity|]. split; [|reflexivity].
    intros [|[|[|i]]]; simpl; lia.
  - assert (Hnone : forall (T : Type) (sel : forall c, Resp c -> option T),
               (forall c r, advertiser_call c = false -> sel c r = None) ->
               project sel body = []).
    { intros T sel Hsel.
      apply (@project_none _ sel (fun c => advertiser_call c = false));
        assumption. }
    split; [|split; [|split]].
    + unfold uuid_draws. rewrite !project_app, Hnone; [reflexivity|].
      intros c r; destruct c; simpl; intros E; try reflexivity;
        discriminate E.
    + unfold advertised_service_uuids.
      rewrite !project_app, Hnone; [reflexivity|].
      intros c r; destruct c; simpl; intros E; try reflexivity;
        discriminate E.
    + intros [|[|i]]; [simpl; lia | simpl; lia |].
      cbn [app firstn]. rewrite firstn_app.
      change (advertisers_after [] (?x :: ?y :: ?l))
        with (advertisers_after [advertiser] l).
      rewrite advertisers_after_app.
      rewrite (advertisers_after_neutral _ (neutral_firstn i Hbody)).
      destruct (i - length body) as [|j]; [simpl; lia|].
      simpl firstn. rewrite firstn_nil, advertiser_exit_alone. simpl; lia.
    + cbn [app].
      change (advertisers_after [] (?x :: ?y :: ?l))
        with (advertisers_after [advertiser] l).
      rewrite advertisers_after_app, (advertisers_after_neutral _ Hbody).
      apply advertiser_exit_alone.
Qed.

Lemma scoped_app t1 t2 :
  (forall i, length (advertisers_after [] (firstn i t1)) <= 1) ->
  advertisers_after [] t1 = [] ->
  (forall i, length (advertisers_after [] (firstn i t2)) <= 1) ->
  forall i, length (advertisers_after [] (firstn i (t1 ++ t2))) <= 1.
Proof.
  intros H1 E1 H2 i. rewrite firstn_app, advertisers_after_app.
  destruct (Nat.le_gt_cases i (length t1)) as [Hle|Hgt].
  - replace (i - length t1) with 0 by lia. simpl. apply H1.
  - rewrite firstn_all2 by lia. rewrite E1. apply H2.
Qed.

Lemma NoDup_map_singleton (l : list string) :
  NoDup l -> NoDup (map (fun t => [t]) l).
Proof.
  induction 1 as [|x l Hx _ IH]; simpl; constructor; [|exact IH].
  intros Hin. apply in_map_iff in Hin. destruct Hin as [y [Hy Hin]].
  injection Hy as ->. contradiction.
Qed.

(** All invocations under the retry decorator. *)
Lemma incoming_scoped k rt a env n tr res :
  run (_make_incoming_connection k rt a) env n = (tr, res) ->
  advertised_service_uuids tr = map (fun t => [t]) (uuid_draws tr)
  /\ (forall i, length (advertisers_after [] (firstn i tr)) <= 1)
  /\ advertisers_after [] tr = [].
Proof.
  unfold _make_incoming_connection. revert n tr res.
  induction k as [|k IH]; intros n tr res H; cbn [retry_on_exception] in H.
  - apply incoming_attempt_scoped in H.
    destruct H as (Hd & Ha & Hs & He). rewrite Hd, Ha. auto.
  - rewrite run_catch in H.
    destruct (run (_make_incoming_connection_attempt a) env n)
      as [tr1 r1] eqn:E1.
    apply incoming_attempt_scoped in E1.
    destruct E1 as (Hd & Ha & Hs & He).
    destruct r1 as [conn|e].
    + injection H as <- <-. rewrite Hd, Ha. auto.
    + destruct (run (if rt e
                     then retry_on_exception rt k
                            (_make_incoming_connection_attempt a)
                     else Raise e) env (n + length tr1))
        as [tr2 r2] eqn:E2.
      injection H as <- <-.
      assert (H2 : advertised_service_uuids tr2
                   = map (fun t => [t]) (uuid_draws tr2)
                   /\ (forall i,
                          length (advertisers_after [] (firstn i tr2)) <= 1)
                   /\ advertisers_after [] tr2 = []).
      { destruct (rt e).
        - apply IH in E2. exact E2.
        - injection E2 as <- _. split; [reflexivity|].
          split; [|reflexivity]. intros i. destruct i; simpl; lia. }
      destruct H2 as (Ha2 & Hs2 & He2).
      split; [|split].
      * unfold advertised_service_uuids, uuid_draws in *.
        rewrite !project_app, map_app, Ha, Hd, Ha2. reflexivity.
      * apply scoped_app; assumption.
      * rewrite advertisers_after_app, He. exact He2.
Qed.

(** C9.  Every invocation of [_make_incoming_connection] draws its own
    token with [uuid.uuid4()] and advertises with exactly that token, so
    that the advertisements of a run carry the tokens drawn, in order; as
    [uuid4] does not return a value twice, no two advertisements of a run
    carry the same token.  At no point of a run are two DUT advertisers on,
    and none is on at the end: the advertiser of an invocation is switched
    off when the invocation returns or raises.  After a failed first
    invocation that the decorator retries, the run goes on with a new
    invocation while no advertiser is on; it starts with a new draw and
    advertises that token, which is not the token of the first. *)
Theorem C9_fresh_token_per_attempt k rt a env n tr res :
  run (_make_incoming_connection k rt a) env n = (tr, res) ->
  advertised_service_uuids tr = map (fun t => [t]) (uuid_draws tr)
  /\ (uuid4_unique env ->
      NoDup (uuid_draws tr) /\ NoDup (advertised_service_uuids tr))
  /\ (forall before after,
         tr = before ++ after -> length (advertisers_after [] before) <= 1)
  /\ advertisers_after [] tr = []
  /\ (forall k' tr1 e,
         k = S k' ->
         run (_make_incoming_connection_attempt a) env n = (tr1, Err e) ->
         rt e = true ->
         uuid_draws tr1 = [env Uuid4 n]
         /\ advertised_service_uuids tr1 = [[env Uuid4 n]]
         /\ advertisers_after [] tr1 = []
         /\ exists tr2 rest,
             tr = tr1 ++ tr2
             /\ run (_make_incoming_connection k' rt a) env (n + length tr1)
                = (tr2, res)
             /\ uuid_draws tr2 = env Uuid4 (n + length tr1) :: rest
             /\ advertised_service_uuids tr2
                = [env Uuid4 (n + length tr1)] :: map (fun t => [t]) rest
             /\ (uuid4_unique env ->
                 env Uuid4 (n + length tr1) <> env Uuid4 n)).
Proof.
  intros H. pose proof (incoming_scoped _ _ _ _ _ H) as (Ha & Hs & He).
  split; [exact Ha|]. split; [|split; [|split; [exact He|]]].
  - intros Hu. pose proof (unique_uuid_draws _ _ Hu H) as Hnd.
    split; [exact Hnd|]. rewrite Ha. apply NoDup_map_singleton, Hnd.
  - intros before after ->. specialize (Hs (length before)).
    rewrite firstn_app, Nat.sub_diag, firstn_all in Hs.
    simpl in Hs. rewrite app_nil_r in Hs. exact Hs.
  - intros k' tr1 e -> H1 Hrt.
    pose proof (incoming_attempt_scoped _ _ _ H1) as (Hd1 & Ha1 & _ & He1).
    split; [exact Hd1|]. split; [exact Ha1|].
    split; [exact He1|].
    unfold _make_incoming_connection in H. cbn [retry_on_exception] in H.
    rewrite run_catch, H1, Hrt in H.
    fold (_make_incoming_connection k' rt a) in H.
    destruct (run (_make_incoming_connection k' rt a) env (n + length tr1))
      as [tr2 r2] eqn:E2.
    injection H as <- <-.
    assert (Hfirst : exists rest,
               uuid_draws tr2 = env Uuid4 (n + length tr1) :: rest).
    { unfold _make_incoming_connection in E2.
      destruct k' as [|k'']; cbn [retry_on_exception] in E2.
      - apply incoming_attempt_scoped in E2.
        destruct E2 as (-> & _). now exists [].
      - rewrite run_catch in E2.
        destruct (run (_make_incoming_connection_attempt a) env
                    (n + length tr1)) as [ta ra] eqn:Ea.
        apply incoming_attempt_scoped in Ea. destruct Ea as (Hda & _).
        destruct ra as [conn|e'].
        + injection E2 as <- _. rewrite Hda. now exists [].
        + destruct (run _ env (n + length tr1 + length ta)) as [tb rb].
          injection E2 as <- _. unfold uuid_draws in *.
          rewrite project_app, Hda. simpl. eauto. }
    destruct Hfirst as [rest Hrest].
    exists tr2, rest. split; [reflexivity|]. split; [reflexivity|].
    split; [exact Hrest|]. split.
    + pose proof (incoming_scoped _ _ _ _ _ E2) as (Ha2 & _).
      rewrite Ha2, Hrest. reflexivity.
    + intros Hu E. apply Hu in E.
      destruct tr1 as [|o tr1]; [discriminate Hd1|].
      simpl in E. lia.
Qed.

Lemma C9_witness :
  exists tr,
    run (_make_incoming_connection 1 on_timeout PUBLIC)
      (scripted_env (late case_disconnected_in_in)) 0
    = (tr, Ok (mkConnection 2 BT_LE_TRANSPORT))
    /\ uuid_draws tr = [token 0; token 5]
    /\ advertised_service_uuids tr = [[token 0]; [token 5]]
    /\ NoDup (advertised_service_uuids tr)
    /\ (forall before after,
           tr = before ++ after -> length (advertisers_after [] before) <= 1)
    /\ advertisers_after [] tr = [].
Proof.
  eexists. split; [vm_compute; reflexivity|].
  destruct (C9_fresh_token_per_attempt 1 on_timeout PUBLIC
              (scripted_env (late case_disconnected_in_in)) 0 eq_refl)
    as (Ha & Hnd & Hs & He & _).
  split; [reflexivity|]. split; [reflexivity|].
  split; [|split; [exact Hs|exact He]].
  apply Hnd. apply scripted_uuid4_unique.
Defined.

End ConnectionEstablishment.

(* ================================================================== *)
(** * [_HciPacket]: decoding and encoding *)
(* ================================================================== *)

Module HciFacts.
Import HciExt.

Lemma firstn_app_skipn (A : Type) (a b : nat) (l : list A) :
  firstn a l ++ firstn b (skipn a l) = firstn (a + b) l.
Proof.
  revert l. induction a as [|a IH]; intros l; [reflexivity|].
  destruct l as [|x l]; simpl.
  - now rewrite firstn_nil.
  - now rewrite IH.
Qed.

Lemma skipn_skipn_add (A : Type) (a b : nat) (l : list A) :
  skipn b (skipn a l) = skipn (a + b) l.
Proof.
  revert l. induction a as [|a IH]; intros l; [reflexivity|].
  destruct l as [|x l]; simpl; [now rewrite skipn_nil | apply IH].
Qed.

Section RoundTrip.

Variable FieldType : Type.
Variable Value : Type.
Variable parse_field :
  list Byte.byte -> nat -> FieldType -> option (Value * nat).
Variable serialize_field : Value -> FieldType -> option (list Byte.byte).

(** What the round trip needs of bumble's codec: a value that
    [parse_field] read serializes to the bytes it was read from. *)
Hypothesis serialize_parsed :
  forall data offset field_type value size,
    parse_field data offset field_type = Some (value, size) ->
    serialize_field value field_type
    = Some (firstn size (skipn offset data)).


(** The values [parse_fields] adds, with the sizes: field [i] is parsed
    at the offset plus the sizes of the fields before it. *)
Lemma parse_fields_steps fields :
  forall params offset acc values,
    parse_fields parse_field params offset fields acc = Some values ->
    exists steps : list (Value * nat),
      values = acc ++ map fst steps
      /\ length steps = length fields
      /\ forall i name field_type value size,
          nth_error fields i = Some (name, field_type) ->
          nth_error steps i = Some (value, size) ->
          parse_field params
            (offset + list_sum (map snd (firstn i steps))) field_type
          = Some (value, size).
Proof.
  induction fields as [|[name0 ft0] rest IH];
    intros params offset acc values H; simpl in H.
  - injection H as <-. exists []. rewrite app_nil_r.
    split; [reflexivity|]. split; [reflexivity|].
    intros [|i]; discriminate.
  - destruct (parse_field params offset ft0) as [[v0 s0]|] eqn:E0;
      [|discriminate H].
    apply IH in H. destruct H as (steps & -> & Hlen & Hat).
    exists ((v0, s0) :: steps). split; [|split].
    + simpl. now rewrite <- app_assoc.
    + simpl. now rewrite Hlen.
    + intros [|i] name field_type value size Hf Hs; simpl in Hf, Hs.
      * injection Hf as _ <-. injection Hs as <- <-.
        simpl. now rewrite Nat.add_0_r.
      * specialize (Hat i name field_type value size Hf Hs).
        simpl. now rewrite Nat.add_assoc.
Qed.

Lemma getattr_combine names :
  NoDup names ->
  forall (values : list Value) i name value,
    nth_error names i = Some name ->
    nth_error values i = Some value ->
    getattr (combine names values) name = Some value.
Proof.
  induction 1 as [|n names Hn _ IH];
    intros values [|i] name value Hname Hvalue;
    try discriminate Hname;
    destruct values as [|v values]; try discriminate Hvalue;
    simpl in *.
  - injection Hname as ->. injection Hvalue as ->.
    now rewrite String.eqb_refl.
  - destruct (String.eqb n name) eqn:E.
    + apply String.eqb_eq in E. subst n.
      exfalso. apply Hn. eapply nth_error_In, Hname.
    + eapply IH; eassumption.
Qed.

(** Serializing the fields, each with the value read for it, gives the
    bytes the fields were read from. *)
Lemma join_serialized_steps attrs fields :
  forall params offset (steps : list (Value * nat)),
    length steps = length fields ->
    (forall i name field_type value size,
        nth_error fields i = Some (name, field_type) ->
        nth_error steps i = Some (value, size) ->
        parse_field params
          (offset + list_sum (map snd (firstn i steps))) field_type
        = Some (value, size)
        /\ getattr attrs name = Some value) ->
    join_serialized serialize_field attrs fields
    = Some (firstn (list_sum (map snd steps)) (skipn offset params)).
Proof.
  induction fields as [|[name0 ft0] rest IH];
    intros params offset steps Hlen Hat;
    destruct steps as [|[v0 s0] steps]; try discriminate Hlen.
  - reflexivity.
  - destruct (Hat 0 name0 ft0 v0 s0 eq_refl eq_refl) as [Hp Hg].
    simpl in Hp. rewrite Nat.add_0_r in Hp.
    cbn [HciExt.join_serialized]. rewrite Hg.
    rewrite (serialize_parsed Hp).
    rewrite (IH params (offset + s0) steps).
    + cbn [map snd list_sum].
      rewrite <- skipn_skipn_add, firstn_app_skipn. reflexivity.
    + simpl in Hlen. now injection Hlen.
    + intros i name field_type value size Hf Hs.
      specialize (Hat (S i) name field_type value size Hf Hs).
      simpl in Hat. now rewrite Nat.add_assoc in Hat.
Qed.

(** C10, amended.  For a class without two fields of one name and a
    codec whose [serialize_field] gives back the bytes [parse_field]
    read: [from_parameters] parses the fields in declaration order, the
    first at [PARSE_OFFSET] and each next one where the previous one
    ended, and sets the attributes in that order; [parameters]
    serializes the same fields in the same order, and the result is the
    slice of the input from [PARSE_OFFSET] over the bytes the fields took.
    That is the whole input from [PARSE_OFFSET] on exactly when the
    fields took the input to its end. *)
Theorem C10_round_trip_over_consumed_bytes cls params pkt :
  NoDup (map fst (dataclass_fields cls)) ->
  from_parameters parse_field cls params = Some pkt ->
  exists steps : list (Value * nat),
    length steps = length (dataclass_fields cls)
    /\ (forall i name field_type value size,
           nth_error (dataclass_fields cls) i = Some (name, field_type) ->
           nth_error steps i = Some (value, size) ->
           parse_field params
             (PARSE_OFFSET cls + list_sum (map snd (firstn i steps)))
             field_type
           = Some (value, size))
    /\ attributes pkt
       = combine (map fst (dataclass_fields cls)) (map fst steps)
    /\ fields pkt = dataclass_fields cls
    /\ parameters serialize_field pkt
       = Some (firstn (list_sum (map snd steps))
                 (skipn (PARSE_OFFSET cls) params))
    /\ (length params <= PARSE_OFFSET cls + list_sum (map snd steps) ->
        parameters serialize_field pkt
        = Some (skipn (PARSE_OFFSET cls) params))
    /\ (PARSE_OFFSET cls + list_sum (map snd steps) < length params ->
        parameters serialize_field pkt
        <> Some (skipn (PARSE_OFFSET cls) params)).
Proof.
  intros Hnd H. unfold HciExt.from_parameters in H.
  destruct (parse_fields parse_field params (PARSE_OFFSET cls)
              (dataclass_fields cls) []) as [values|] eqn:E; [|discriminate H].
  injection H as <-.
  apply parse_fields_steps in E. destruct E as (steps & -> & Hlen & Hat).
  simpl app.
  assert (Hpar : parameters serialize_field
                   (mkPacket cls
                      (combine (map fst (dataclass_fields cls))
                         (map fst steps)))
                 = Some (firstn (list_sum (map snd steps))
                           (skipn (PARSE_OFFSET cls) params))).
  { unfold HciExt.parameters, fields. cbn [attributes packet_class].
    apply join_serialized_steps; [exact Hlen|].
    intros i name field_type value size Hf Hs.
    split; [eapply Hat; eassumption|].
    eapply getattr_combine; [exact Hnd| |].
    - rewrite nth_error_map, Hf. reflexivity.
    - rewrite nth_error_map, Hs. reflexivity. }
  exists steps.
  split; [exact Hlen|]. split; [exact Hat|]. split; [reflexivity|].
  split; [reflexivity|]. split; [exact Hpar|]. split.
  - intros Hall. rewrite Hpar. f_equal. apply firstn_all2.
    rewrite length_skipn. lia.
  - intros Hless. rewrite Hpar. intros Heq. injection Heq as Heq.
    apply (f_equal (@length _)) in Heq.
    rewrite length_firstn, length_skipn in Heq. lia.
Qed.

End RoundTrip.

Lemma u8_serialize_parsed :
  forall data offset field_type value size,
    parse_u8 data offset field_type = Some (value, size) ->
    serialize_u8 value field_type = Some (firstn size (skipn offset data)).
Proof.
  intros data offset [] value size H. unfold parse_u8 in H.
  destruct (nth_error data offset) as [b|] eqn:E; [|discriminate H].
  injection H as <- <-. unfold serialize_u8. f_equal.
  revert offset E. induction data as [|x data IH]; intros [|offset] E;
    try discriminate E; simpl in *.
  - now injection E as ->.
  - apply IH, E.
Qed.

(** C10, counterexample.  A vendor event class with one one-byte field,
    decoded from three bytes: the field is read at offset 1, and encoding
    the packet gives that one byte, not the two bytes the input has from
    offset 1 on. *)
Lemma C10_counterexample :
  exists pkt,
    from_parameters parse_u8 one_field_event three_bytes = Some pkt
    /\ parameters serialize_u8 pkt = Some [Byte.x01]
    /\ skipn (PARSE_OFFSET one_field_event) three_bytes
       = [Byte.x01; Byte.x02]
    /\ parameters serialize_u8 pkt
       <> Some (skipn (PARSE_OFFSET one_field_event) three_bytes).
Proof.
  eexists. split; [reflexivity|]. split; [reflexivity|].
  split; [reflexivity|]. discriminate.
Qed.

Lemma C10_witness :
  exists pkt,
    from_parameters parse_u8 two_field_event three_bytes = Some pkt
    /\ parameters serialize_u8 pkt = Some [Byte.x01; Byte.x02]
    /\ exists steps : list (Byte.byte * nat),
        length steps = length (dataclass_fields two_field_event)
        /\ parameters serialize_u8 pkt
           = Some (firstn (list_sum (map snd steps))
                     (skipn (PARSE_OFFSET two_field_event) three_bytes)).
Proof.
  eexists. split; [reflexivity|]. split; [reflexivity|].
  assert (Hnd : NoDup (map fst (dataclass_fields two_field_event)))
    by (repeat constructor; simpl; intuition discriminate).
  destruct (@C10_round_trip_over_consumed_bytes unit Byte.byte parse_u8
              serialize_u8 u8_serialize_parsed two_field_event three_bytes
              (mkPacket two_field_event
                 [("status"%string, Byte.x01); ("reason"%string, Byte.x02)])
              Hnd eq_refl)
    as (steps & Hlen & _ & _ & _ & Hpar & _).
  exists steps. split; [exact Hlen|exact Hpar].
Defined.

End HciFacts.


(* ================================================================== *)
(** * The connection helpers: arguments, order and failures *)
(* ================================================================== *)

Module ConnectionHelpers.
Import LePairingTest TraceView MoreViews RunFacts PairingStageFacts TestFacts
  ConnectionEstablishment Examples.

Ltac helper_step H :=
  match type of H with
  | context [match fold_left ?f ?l ?a with _ => _ end] =>
      let E := fresh "Efold" in destruct (fold_left f l a) eqn:E
  | context [match ?env ?c ?n with _ => _ end] =>
      lazymatch type of env with
      | Env => let E := fresh "Eenv" in destruct (env c n) eqn:E
      end
  | context [if ?b then _ else _] =>
      let E := fresh "Eb" in destruct b eqn:E
  end.

Ltac helper_exec H :=
  unfold assert_not_timeout_await, assert_true, unwrap, call in H;
  cbn [run bind catch with_exit] in H;
  repeat (helper_step H; cbn [run bind catch with_exit] in H).

Lemma scan_result_done service_uuid reports address :
  fold_left (on_advertising_report service_uuid) reports (Some address)
  = Some address.
Proof.
  induction reports as [|adv l IH]; simpl; [reflexivity|].
  unfold on_advertising_report at 2.
  destruct (adv_service_uuids adv) as [[|u us]|]; try exact IH.
  rewrite andb_false_r. exact IH.
Qed.

Lemma scan_result_first_match service_uuid reports :
  fold_left (on_advertising_report service_uuid) reports None
  = option_map adv_address
      (find (fun adv =>
               match adv_service_uuids adv with
               | Some service_uuids =>
                   existsb (String.eqb service_uuid) service_uuids
               | None => false
               end) reports).
Proof.
  induction reports as [|adv l IH]; simpl; [reflexivity|].
  unfold on_advertising_report at 2.
  destruct (adv_service_uuids adv) as [[|u us]|]; try exact IH.
  rewrite andb_true_r.
  destruct (existsb (String.eqb service_uuid) (u :: us));
    [apply scan_result_done | exact IH].
Qed.

(** X1.  The handler [on_advertising_report] resolves [scan_result] with
    the address of the first advertisement whose list of 128-bit service
    UUIDs contains the token; advertisements without such a list, with an
    empty list or with other UUIDs are passed over.  Once [scan_result] is
    done no advertisement changes it: later matching advertisements do not
    replace the first, and [set_result] is not called a second time. *)
Theorem X1_scan_result_is_first_match service_uuid reports :
  fold_left (on_advertising_report service_uuid) reports None
  = option_map adv_address
      (find (fun adv =>
               match adv_service_uuids adv with
               | Some service_uuids =>
                   existsb (String.eqb service_uuid) service_uuids
               | None => false
               end) reports)
  /\ (forall address later,
        fold_left (on_advertising_report service_uuid) (reports ++ later)
          (Some address)
        = Some address)
  /\ (forall address later,
        fold_left (on_advertising_report service_uuid) reports None
        = Some address ->
        fold_left (on_advertising_report service_uuid) (reports ++ later)
          None
        = Some address).
Proof.
  split; [apply scan_result_first_match|].
  split.
  - intros address later. apply scan_result_done.
  - intros address later H. rewrite fold_left_app, H.
    apply scan_result_done.
Qed.

Lemma X1_witness :
  fold_left (on_advertising_report "uuid-1")
    ([mkAdvertisement "4a:00:00:00:00:01" None;
      mkAdvertisement "4a:00:00:00:00:02" (Some []);
      mkAdvertisement "4a:00:00:00:00:03" (Some ["uuid-0"%string]);
      mkAdvertisement "4a:00:00:00:00:04"
        (Some ["uuid-0"%string; "uuid-1"%string])]
     ++ [mkAdvertisement "4a:00:00:00:00:05" (Some ["uuid-1"%string])])
    None
  = Some "4a:00:00:00:00:04"%string.
Proof.
  apply (proj2 (proj2 (X1_scan_result_is_first_match "uuid-1"
                         [mkAdvertisement "4a:00:00:00:00:01" None;
                          mkAdvertisement "4a:00:00:00:00:02" (Some []);
                          mkAdvertisement "4a:00:00:00:00:03"
                            (Some ["uuid-0"%string]);
                          mkAdvertisement "4a:00:00:00:00:04"
                            (Some ["uuid-0"%string; "uuid-1"%string])]))).
  reflexivity.
Defined.

(** X2.  An invocation of [_make_incoming_connection] that returns a
    connection made exactly these calls, in this order: the draw of the
    token, DUT's advertiser with own address type RANDOM and that token,
    REF's scan, the wait for the advertisement, the stop of the scan, REF's
    connect to the address of the first matching advertisement with the
    requested own address type, the read of the remote LE features on the
    connection it returns, and the exit of the advertiser. *)
Theorem X2_incoming_connection_success a env n tr connection :
  run (_make_incoming_connection_attempt a) env n = (tr, Ok connection) ->
  exists advertiser reports adv,
    calls tr
    = [Uuid4;
       DutStartLegacyAdvertiser RANDOM [env Uuid4 n];
       RefStartScanning;
       RefAdvertisementEvents;
       RefStopScanning;
       RefConnect (adv_address adv) a;
       RefGetRemoteLeFeatures connection;
       AdvertiserExit advertiser]
    /\ advertisement_batches tr = [reports]
    /\ find (fun adv =>
               match adv_service_uuids adv with
               | Some service_uuids =>
                   existsb (String.eqb (env Uuid4 n)) service_uuids
               | None => false
               end) reports = Some adv.
Proof.
  intros H. unfold _make_incoming_connection_attempt in H.
  helper_exec H; try discriminate H.
  injection H as <- <-.
  rewrite scan_result_first_match in Efold.
  match type of Efold with
  | option_map _ (find ?p ?l) = _ =>
      destruct (find p l) as [adv|] eqn:Efind; [|discriminate Efold]
  end.
  injection Efold as <-.
  eexists _, _, adv. split; [reflexivity|]. split; [reflexivity|].
  exact Efind.
Qed.

Lemma X2_witness :
  exists tr advertiser reports adv,
    run (_make_incoming_connection_attempt PUBLIC)
      (scripted_env (cooperative case_disconnected_in_in)) 0
    = (tr, Ok (mkConnection 2 BT_LE_TRANSPORT))
    /\ calls tr
       = [Uuid4;
          DutStartLegacyAdvertiser RANDOM [token 0];
          RefStartScanning;
          RefAdvertisementEvents;
          RefStopScanning;
          RefConnect (adv_address adv) PUBLIC;
          RefGetRemoteLeFeatures (mkConnection 2 BT_LE_TRANSPORT);
          AdvertiserExit advertiser]
    /\ advertisement_batches tr = [reports].
Proof.
  eexists.
  destruct (X2_incoming_connection_success PUBLIC
              (scripted_env (cooperative case_disconnected_in_in)) 0 eq_refl)
    as (advertiser & reports & adv & Hcalls & Hbatch & _).
  exists advertiser, reports, adv.
  split; [reflexivity|]. split; [exact Hcalls|exact Hbatch].
Defined.

(** X3.  An invocation of [_make_incoming_connection] that came to wait
    for DUT's advertisement and saw none with the token fails with the
    timeout; REF's scan, which it started, is not stopped
    ([stop_scanning] is not called), and the last call is the exit of DUT's
    advertiser. *)
Theorem X3_incoming_connection_scan_timeout a env n tr res :
  run (_make_incoming_connection_attempt a) env n = (tr, res) ->
  forall reports,
    advertisement_batches tr = [reports] ->
    find (fun adv =>
            match adv_service_uuids adv with
            | Some service_uuids =>
                existsb (String.eqb (env Uuid4 n)) service_uuids
            | None => false
            end) reports = None ->
    res = Err TimeoutError
    /\ exists advertiser,
        calls tr
        = [Uuid4;
           DutStartLegacyAdvertiser RANDOM [env Uuid4 n];
           RefStartScanning;
           RefAdvertisementEvents;
           AdvertiserExit advertiser].
Proof.
  intros H reports Hb Hnone. unfold _make_incoming_connection_attempt in H.
  helper_exec H; injection H as Htr Hres; subst tr res;
    cbv beta iota delta [advertisement_batches project flat_map obs_call
                           obs_resp app] in Hb;
    try discriminate Hb; injection Hb as <-;
    rewrite scan_result_first_match, Hnone in Efold;
    try discriminate Efold.
  split; [reflexivity|]. eexists. reflexivity.
Qed.

Lemma X3_witness :
  exists tr advertiser,
    run (_make_incoming_connection_attempt PUBLIC)
      (scripted_env (late case_disconnected_in_in)) 0
    = (tr, Err TimeoutError)
    /\ calls tr
       = [Uuid4;
          DutStartLegacyAdvertiser RANDOM [token 0];
          RefStartScanning;
          RefAdvertisementEvents;
          AdvertiserExit advertiser].
Proof.
  eexists.
  destruct (X3_incoming_connection_scan_timeout PUBLIC
              (scripted_env (late case_disconnected_in_in)) 0 eq_refl
              (reports := []) eq_refl eq_refl)
    as (_ & advertiser & Hcalls).
  exists advertiser. split; [reflexivity|exact Hcalls].
Defined.

(** X4.  Every invocation of [_make_outgoing_connection] makes its calls
    in one order, and stops where a call fails: REF starts advertising with
    the given own address type; DUT is then told to bond or to connect a
    GATT client, to REF's random address when the type is RANDOM and to
    REF's public address for every other type, with the same address type;
    a GATT client is put on [close_after_test]; then the wait for REF's
    connection event and the stop of the advertising.  The invocation
    returns a connection exactly when it made all of these calls. *)
Theorem X4_outgoing_connection_calls ref a create_bond env n tr res :
  run (_make_outgoing_connection_attempt ref a create_bond) env n = (tr, res) ->
  let ref_addr :=
    match a with
    | RANDOM => ref_random_address ref
    | _ => ref_address ref
    end in
  exists gatt_client rest,
    (if create_bond
     then [RefStartAdvertising a; DutCreateBond ref_addr a;
           RefConnectionEvents; RefStopAdvertising]
     else [RefStartAdvertising a; DutConnectGattClient ref_addr a;
           CloseAfterTestAppend (GattClient gatt_client);
           RefConnectionEvents; RefStopAdvertising])
    = calls tr ++ rest
    /\ ((exists connection, res = Ok connection) -> rest = []).
Proof.
  intros H ref_addr.
  assert (Haddr : ref_addr_of ref a = ref_addr) by (destruct a; reflexivity).
  unfold _make_outgoing_connection_attempt in H. rewrite Haddr in H.
  destruct create_bond; helper_exec H; injection H as Htr Hres;
    subst tr res;
    first
      [ exists 0; eexists; split; [reflexivity|]
      | eexists _, _; split; [reflexivity|] ];
    first
      [ intros _; reflexivity
      | intros [connection Hc]; discriminate Hc ].
Qed.

Lemma X4_witness :
  exists tr rest,
    run (_make_outgoing_connection_attempt example_ref RESOLVABLE_OR_PUBLIC
           false)
      (scripted_env (cooperative case_accept_out_out)) 0
    = (tr, Ok le_link)
    /\ [RefStartAdvertising RESOLVABLE_OR_PUBLIC;
        DutConnectGattClient "00:1a:7d:da:71:13" RESOLVABLE_OR_PUBLIC;
        CloseAfterTestAppend (GattClient 1);
        RefConnectionEvents; RefStopAdvertising]
       = calls tr ++ rest
    /\ rest = [].
Proof.
  eexists.
  destruct (X4_outgoing_connection_calls example_ref RESOLVABLE_OR_PUBLIC
              false (scripted_env (cooperative case_accept_out_out)) 0
              eq_refl)
    as (gatt_client & rest & Hcalls & Hall).
  exists rest. split; [reflexivity|].
  split; [|apply Hall; eexists; reflexivity].
  destruct rest; [reflexivity|].
  specialize (Hall (ex_intro _ _ eq_refl)). discriminate Hall.
Defined.

(** X5.  When [createBond] returns false, an invocation of
    [_make_outgoing_connection] with [create_bond] fails with an assertion
    failure right there: it does not wait for REF's connection event and it
    leaves REF advertising. *)
Theorem X5_create_bond_refused ref a env n tr res :
  run (_make_outgoing_connection_attempt ref a true) env n = (tr, res) ->
  create_bond_results tr = [Ok false] ->
  res = Err AssertionFailure
  /\ connection_event_batches tr = []
  /\ ref_advertising_starts tr = [a]
  /\ ref_advertising_stops tr = [].
Proof.
  intros H Hb. unfold _make_outgoing_connection_attempt in H.
  helper_exec H; injection H as Htr Hres; subst tr res;
    cbv beta iota delta [create_bond_results project flat_map obs_call
                           obs_resp app] in Hb;
    try discriminate Hb.
  repeat split; reflexivity.
Qed.

Lemma X5_witness :
  exists tr,
    run (_make_outgoing_connection_attempt example_ref RANDOM true)
      (MoreExamples.bond_refused case_accept_out_out) 0
    = (tr, Err AssertionFailure)
    /\ calls tr
       = [RefStartAdvertising RANDOM;
          DutCreateBond "c0:ff:ee:00:11:22" RANDOM]
    /\ connection_event_batches tr = []
    /\ ref_advertising_stops tr = [].
Proof.
  eexists.
  destruct (X5_create_bond_refused example_ref RANDOM
              (MoreExamples.bond_refused case_accept_out_out) 0
              (res := Err AssertionFailure) eq_refl eq_refl)
    as (_ & Hc & _ & Hs).
  split; [reflexivity|]. split; [reflexivity|].
  split; [exact Hc|exact Hs].
Defined.

(** One invocation of [_make_outgoing_connection]: advertising is started
    once, and stopped when and only when the invocation returns. *)
Lemma outgoing_attempt_advertising ref a cb env n tr res :
  run (_make_outgoing_connection_attempt ref a cb) env n = (tr, res) ->
  ref_advertising_starts tr = [a]
  /\ filter (fun r => match r with Ok _ => true | Err _ => false end)
       (ref_advertising_stops tr)
     = match res with Ok _ => [Ok tt] | Err _ => [] end
  /\ match res with
     | Ok _ =>
         exists before, tr = before ++ [mkObs RefStopAdvertising (Ok tt)]
     | Err _ => True
     end.
Proof.
  intros H. unfold _make_outgoing_connection_attempt in H.
  destruct cb; helper_exec H; injection H as Htr Hres; subst tr res;
    repeat match goal with v : unit |- _ => destruct v end;
    (split; [reflexivity|]); (split; [reflexivity|]);
    try exact I;
    match goal with
    | |- exists before, ?l = _ => exists (removelast l); reflexivity
    end.
Qed.

(** X6.  [_make_outgoing_connection] under its retry decorator starts
    REF's advertising once per invocation, with the given own address type,
    at least once and at most once more than the number of retries.  The
    advertising is stopped with success only by the invocation that
    returns the connection, as the last call of the run: the invocations
    that failed before it left REF advertising. *)
Theorem X6_advertising_restarted_not_stopped ref k rt a cb env n tr res :
  run (_make_outgoing_connection ref k rt a cb) env n = (tr, res) ->
  Forall (eq a) (ref_advertising_starts tr)
  /\ 1 <= length (ref_advertising_starts tr) <= S k
  /\ filter (fun r => match r with Ok _ => true | Err _ => false end)
       (ref_advertising_stops tr)
     = match res with Ok _ => [Ok tt] | Err _ => [] end
  /\ match res with
     | Ok _ =>
         exists before, tr = before ++ [mkObs RefStopAdvertising (Ok tt)]
     | Err _ => True
     end.
Proof.
  unfold _make_outgoing_connection. revert n tr res.
  induction k as [|k IH]; intros n tr res H; cbn [retry_on_exception] in H.
  - apply outgoing_attempt_advertising in H.
    destruct H as (Hs & Hf & Hl). rewrite Hs.
    split; [repeat constructor|]. split; [simpl; lia|]. split; assumption.
  - rewrite run_catch in H.
    destruct (run (_make_outgoing_connection_attempt ref a cb) env n)
      as [tr1 r1] eqn:E1.
    apply outgoing_attempt_advertising in E1.
    destruct E1 as (Hs & Hf & Hl).
    destruct r1 as [conn|e].
    + injection H as <- <-. rewrite Hs.
      split; [repeat constructor|]. split; [simpl; lia|]. split; assumption.
    + destruct (rt e).
      * destruct (run (retry_on_exception rt k
                         (_make_outgoing_connection_attempt ref a cb))
                    env (n + length tr1)) as [tr2 r2] eqn:E2.
        injection H as <- <-. apply IH in E2.
        destruct E2 as (Ha2 & Hn2 & Hf2 & Hl2).
        unfold ref_advertising_starts, ref_advertising_stops in *.
        rewrite !project_app, filter_app, Hs, Hf, length_app.
        split; [constructor; [reflexivity|exact Ha2]|].
        split; [cbn [Datatypes.length]; lia|]. split; [exact Hf2|].
        destruct r2 as [conn|e2]; [|exact I].
        destruct Hl2 as [before ->]. exists (tr1 ++ before).
        now rewrite app_assoc.
      * simpl in H. injection H as <- <-. rewrite app_nil_r, Hs.
        split; [repeat constructor|]. split; [simpl; lia|].
        split; [exact Hf|exact I].
Qed.

Lemma X6_witness :
  exists tr before,
    run (_make_outgoing_connection example_ref 1 on_timeout RANDOM true)
      (scripted_env (late case_accept_out_out)) 0 = (tr, Ok le_link)
    /\ ref_advertising_starts tr = [RANDOM; RANDOM]
    /\ ref_advertising_stops tr = [Ok tt]
    /\ tr = before ++ [mkObs RefStopAdvertising (Ok tt)].
Proof.
  eexists.
  destruct (X6_advertising_restarted_not_stopped example_ref 1 on_timeout
              RANDOM true (scripted_env (late case_accept_out_out)) 0
              (res := Ok le_link) eq_refl)
    as (_ & _ & _ & before & Hlast).
  exists before. split; [reflexivity|]. split; [reflexivity|].
  split; [reflexivity|exact Hlast].
Defined.

End ConnectionHelpers.


(* ================================================================== *)
(** * [test_secure_pairing]: timeouts, failed checks and the resolution *)
(* ================================================================== *)

Module PairingFailures.
Import LePairingTest TraceView MoreViews RunFacts PairingStageFacts TestFacts
  Examples MoreExamples.

Ltac more_view_in H :=
  cbv beta iota delta
    [calls map dut_pairing_waits dut_confirmations ref_events_taken
     ref_answers bond_state_waits pair_task_awaits pair_tasks_created
     ref_disconnects dut_confirmation_addresses
     project flat_map obs_call obs_resp app last Datatypes.length
     filter pairing_stage_call] in H.

Ltac more_view :=
  cbv beta iota delta
    [calls map dut_pairing_waits dut_confirmations ref_events_taken
     ref_answers bond_state_waits pair_task_awaits pair_tasks_created
     ref_disconnects dut_confirmation_addresses
     project flat_map obs_call obs_resp app last Datatypes.length
     filter pairing_stage_call].

Lemma more_view_prefix pre tr1 :
  Forall (fun o => pairing_stage_call (obs_call o) = false) pre ->
  ref_disconnects (pre ++ tr1) = ref_disconnects tr1
  /\ dut_confirmation_addresses (pre ++ tr1) = dut_confirmation_addresses tr1.
Proof.
  intros Hpre.
  split;
    (apply (@project_prefix _ _ (fun c => pairing_stage_call c = false));
     [|exact Hpre];
     intros c r; destruct c; simpl; intros E; try reflexivity;
     discriminate E).
Qed.

Lemma more_view_nil pre :
  Forall (fun o => pairing_stage_call (obs_call o) = false) pre ->
  ref_disconnects pre = [] /\ dut_confirmation_addresses pre = [].
Proof.
  intros Hpre. pose proof (more_view_prefix [] Hpre) as H.
  rewrite app_nil_r in H. exact H.
Qed.

(** Whatever the outcome: who is confirmed to, who is disconnected, what
    REJECTED answers. *)
Lemma pairing_stage_resolution c ra nd rd pt env n tr res :
  run (pairing_stage c ra nd rd pt) env n = (tr, res) ->
  Forall (eq ra) (dut_confirmation_addresses tr)
  /\ (variant c <> DISCONNECTED -> ref_disconnects tr = [])
  /\ (variant c = DISCONNECTED ->
      dut_confirmations tr = []
      \/ (nd = true /\ dut_confirmations tr = [true]))
  /\ (variant c = REJECTED ->
      length (ref_answers tr) <= 1
      /\ Forall (fun a => pe_arg a = PyBool false) (ref_answers tr)).
Proof.
  intros H. unfold pairing_stage in H.
  destruct nd, pt, (variant c) eqn:Ev, (ref_io_capability c) eqn:Eio;
    exec_all H; injection H as Htr Hres; subst tr res; more_view;
    (split; [repeat constructor|]);
    (split; [intros Hv; first [reflexivity | exfalso; apply Hv; reflexivity]|]);
    (split;
     [ intros Hv; first [discriminate Hv | left; reflexivity
                        | right; split; reflexivity ]|]);
    intros Hv; try discriminate Hv;
    (split; [simpl; lia | repeat constructor]).
Qed.

(** Whatever the outcome: a wait for a prompt that times out ends the
    stage. *)
Lemma pairing_stage_prompt_timeouts c ra nd rd pt env n tr res :
  run (pairing_stage c ra nd rd pt) env n = (tr, res) ->
  (dut_pairing_waits tr <> [] ->
   find (fun e => String.eqb (pr_address e) ra)
     (last (dut_pairing_waits tr) []) = None ->
   res = Err TimeoutError
   /\ ref_events_taken tr = []
   /\ ref_answers tr = []
   /\ ref_disconnects tr = []
   /\ bond_state_waits tr = [])
  /\ (ref_events_taken tr = [None] ->
      res = Err TimeoutError
      /\ ref_answers tr = []
      /\ ref_disconnects tr = []
      /\ bond_state_waits tr = []
      /\ (dut_confirmations tr = []
          \/ (nd = true /\ dut_confirmations tr = [true]))).
Proof.
  intros H. unfold pairing_stage in H.
  destruct nd, pt, (variant c) eqn:Ev, (ref_io_capability c) eqn:Eio;
    exec_all H; injection H as Htr Hres; subst tr res; more_view;
    (split;
     [ intros _ Hnone;
       repeat match goal with
         | E : find ?p ?l = Some _, E' : find ?p ?l = None |- _ =>
             rewrite E in E'; discriminate E'
         end;
       repeat split; reflexivity
     | intros Hnone; try discriminate Hnone;
       repeat split; try reflexivity;
       first [left; reflexivity | right; split; reflexivity] ]).
Qed.

(** Whatever the outcome: nothing is confirmed at the resolution, answered
    or disconnected unless both reported pairing methods were the expected
    ones. *)
Lemma pairing_stage_resolution_needs_match c ra nd rd pt env n tr res :
  run (pairing_stage c ra nd rd pt) env n = (tr, res) ->
  ref_answers tr <> [] \/ ref_disconnects tr <> []
  \/ bond_state_waits tr <> [] ->
  exists dut_event ref_event answer,
    find (fun e => String.eqb (pr_address e) ra)
      (last (dut_pairing_waits tr) []) = Some dut_event
    /\ ref_events_taken tr = [Some ref_event]
    /\ dict_get (pairing_method_table dut_event) (ref_io_capability c)
       = Some (pr_variant dut_event, pe_variant ref_event, answer).
Proof.
  intros H. unfold pairing_stage in H.
  destruct nd, pt, (variant c) eqn:Ev, (ref_io_capability c) eqn:Eio;
    exec_all H; injection H as Htr Hres; subst tr res; more_view;
    intros Hany;
    try (exfalso; destruct Hany as [Hn | [Hn | Hn]]; apply Hn; reflexivity);
    eqb_to_eq;
    repeat match goal with
      | p : PairingRequest |- _ =>
          let a := fresh "addr" in let v := fresh "var" in
          let x := fresh "pin" in destruct p as [a v x]
      | p : PairingEvent |- _ =>
          let v := fresh "var" in let x := fresh "arg" in
          destruct p as [v x]
      end;
    cbn [pr_variant pe_variant] in *; subst;
    (do 3 eexists; split; [eassumption|]; split; reflexivity).
Qed.

Lemma need_double_confirmation_true c :
  Direction_eqb (connection_direction c) OUTGOING
  && Direction_eqb (pairing_direction c) INCOMING = true ->
  connection_direction c = OUTGOING /\ pairing_direction c = INCOMING.
Proof.
  destruct (connection_direction c), (pairing_direction c);
    simpl; intros H; try discriminate H; split; reflexivity.
Qed.

(** X7.  Every [setPairingConfirmation] of an execution, whatever its
    outcome, is addressed to REF's address in upper case (the random address
    for own address type RANDOM, the public one otherwise); and the pairing
    request a passing execution went by is one with that address: requests
    of other addresses are passed over. *)
Theorem X7_pairing_requests_of_ref_only ref k rt c env n tr res :
  run (test_secure_pairing ref k rt c) env n = (tr, res) ->
  let ra :=
    upper match ref_connection_address_type c with
          | RANDOM => ref_random_address ref
          | _ => ref_address ref
          end in
  Forall (eq ra) (dut_confirmation_addresses tr)
  /\ (res = Ok tt ->
      exists dut_event passed_over later,
        last (dut_pairing_waits tr) [] = passed_over ++ dut_event :: later
        /\ pr_address dut_event = ra
        /\ Forall (fun e => pr_address e <> ra) passed_over).
Proof.
  intros H ra.
  assert (Hra : upper (ref_addr_of ref (ref_connection_address_type c)) = ra)
    by (unfold ra, ref_addr_of;
        destruct (ref_connection_address_type c); reflexivity).
  split.
  - apply test_secure_pairing_run in H. rewrite Hra in H.
    destruct H as [pre [Hpre [[-> _] | [rd [tr1 [m [-> [_ Hs]]]]]]]].
    + destruct (more_view_nil Hpre) as [_ ->]. constructor.
    + destruct (more_view_prefix tr1 Hpre) as [_ ->].
      apply (pairing_stage_resolution _ _ _ _ _ _ _ Hs).
  - intros ->. apply test_secure_pairing_passed in H. rewrite Hra in H.
    destruct H as (rd & _ & dut_event & ref_event & answer & final & H).
    destruct H as (_ & Hfind & _).
    exists dut_event.
    revert Hfind. generalize (last (dut_pairing_waits tr) []).
    intros l. induction l as [|e l IH]; simpl; [discriminate|].
    destruct (String.eqb (pr_address e) ra) eqn:E.
    + intros Hf. injection Hf as ->. exists [], l.
      apply String.eqb_eq in E. repeat split; auto.
    + intros Hf. destruct (IH Hf) as (po & later & -> & Ha & Hpo).
      exists (e :: po), later. apply String.eqb_neq in E.
      repeat split; auto.
Qed.

Lemma X7_witness :
  exists tr dut_event passed_over later,
    run (test_secure_pairing example_ref 2 on_timeout case_reject_out_in)
      (scripted_env (cooperative case_reject_out_in)) 0 = (tr, Ok tt)
    /\ Forall (eq "00:1A:7D:DA:71:13"%string) (dut_confirmation_addresses tr)
    /\ last (dut_pairing_waits tr) [] = passed_over ++ dut_event :: later
    /\ pr_address dut_event = "00:1A:7D:DA:71:13"%string.
Proof.
  eexists.
  destruct (X7_pairing_requests_of_ref_only example_ref 2 on_timeout
              case_reject_out_in
              (scripted_env (cooperative case_reject_out_in)) 0 eq_refl)
    as (Hall & Hev).
  destruct (Hev eq_refl) as (dut_event & po & later & Hl & Ha & _).
  exists dut_event, po, later.
  split; [reflexivity|]. split; [exact Hall|]. split; [exact Hl|exact Ha].
Defined.

(** X8.  Whatever the outcome of an execution: REF disconnects the link
    only in a DISCONNECTED case; in a DISCONNECTED case DUT is sent no
    confirmation for the resolution (the only confirmation there can be is
    the initial True of a case with outgoing connection and incoming
    pairing direction); and in a REJECTED case at most one answer is put on
    REF's queue and its [arg] is False (the assignment of [None] is never
    reached). *)
Theorem X8_resolution_by_variant ref k rt c env n tr res :
  run (test_secure_pairing ref k rt c) env n = (tr, res) ->
  (variant c <> DISCONNECTED -> ref_disconnects tr = [])
  /\ (variant c = DISCONNECTED ->
      dut_confirmations tr = []
      \/ (connection_direction c = OUTGOING
          /\ pairing_direction c = INCOMING
          /\ dut_confirmations tr = [true]))
  /\ (variant c = REJECTED ->
      length (ref_answers tr) <= 1
      /\ Forall (fun a => pe_arg a = PyBool false) (ref_answers tr)).
Proof.
  intros H. apply test_secure_pairing_run in H.
  destruct H as [pre [Hpre [[-> _] | [rd [tr1 [m [-> [_ Hs]]]]]]]].
  - destruct (more_view_nil Hpre) as [-> _].
    destruct (stage_view_nil Hpre) as (_ & -> & _ & -> & _).
    repeat split; auto.
  - destruct (more_view_prefix tr1 Hpre) as [-> _].
    destruct (stage_view_prefix tr1 Hpre) as (_ & -> & _ & -> & _).
    destruct (pairing_stage_resolution _ _ _ _ _ _ _ Hs)
      as (_ & Hd & Hc & Hr).
    split; [exact Hd|]. split; [|exact Hr].
    intros Hv. destruct (Hc Hv) as [E | [End E]]; [left; exact E|].
    right. apply need_double_confirmation_true in End. tauto.
Qed.

Lemma X8_witness :
  exists tr,
    run (test_secure_pairing example_ref 2 on_timeout case_rejected_out_out)
      (scripted_env (cooperative case_rejected_out_out)) 0 = (tr, Ok tt)
    /\ ref_disconnects tr = []
    /\ ref_answers tr = [mkPairingEvent NUMERIC_COMPARISON (PyBool false)]
    /\ Forall (fun a => pe_arg a = PyBool false) (ref_answers tr).
Proof.
  eexists.
  destruct (X8_resolution_by_variant example_ref 2 on_timeout
              case_rejected_out_out
              (scripted_env (cooperative case_rejected_out_out)) 0 eq_refl)
    as (Hd & _ & Hr).
  split; [reflexivity|]. split; [apply Hd; discriminate|].
  split; [reflexivity|]. apply Hr. reflexivity.
Defined.

(** X9.  When a wait for DUT's pairing request delivers no request with
    REF's address, the execution fails with the timeout and goes no
    further: REF's queue of prompts is not read, nothing is answered,
    nothing is disconnected and the terminal bond state is not waited
    for. *)
Theorem X9_dut_prompt_timeout ref k rt c env n tr res :
  run (test_secure_pairing ref k rt c) env n = (tr, res) ->
  dut_pairing_waits tr <> [] ->
  find (fun e =>
          String.eqb (pr_address e)
            (upper (ref_addr_of ref (ref_connection_address_type c))))
    (last (dut_pairing_waits tr) []) = None ->
  res = Err TimeoutError
  /\ ref_events_taken tr = []
  /\ ref_answers tr = []
  /\ ref_disconnects tr = []
  /\ bond_state_waits tr = [].
Proof.
  intros H Hne Hnone. apply test_secure_pairing_run in H.
  destruct H as [pre [Hpre [[-> _] | [rd [tr1 [m [-> [_ Hs]]]]]]]].
  - destruct (stage_view_nil Hpre) as (Hw & _). contradiction.
  - destruct (more_view_prefix tr1 Hpre) as [-> _].
    destruct (stage_view_prefix tr1 Hpre) as (Hw & _ & -> & -> & -> & _).
    rewrite Hw in Hne, Hnone.
    apply (proj1 (pairing_stage_prompt_timeouts _ _ _ _ _ _ _ Hs) Hne Hnone).
Qed.

Lemma X9_witness :
  exists tr,
    run (test_secure_pairing example_ref 2 on_timeout case_accept_out_out)
      (scripted_env (other_device_pairs case_accept_out_out)) 0
    = (tr, Err TimeoutError)
    /\ ref_events_taken tr = []
    /\ ref_answers tr = []
    /\ bond_state_waits tr = [].
Proof.
  eexists.
  destruct (X9_dut_prompt_timeout example_ref 2 on_timeout
              case_accept_out_out
              (scripted_env (other_device_pairs case_accept_out_out)) 0
              (res := Err TimeoutError) eq_refl)
    as (_ & Ht & Ha & _ & Hb).
  - discriminate.
  - reflexivity.
  - split; [reflexivity|]. split; [exact Ht|]. split; [exact Ha|exact Hb].
Defined.

(** X10.  When REF's delegate gets no prompt within the bound, the
    execution fails with the timeout: nothing is put on REF's queue of
    answers, the link is not disconnected, the terminal bond state is not
    waited for, and DUT has been sent no confirmation but the initial True
    of a case with outgoing connection and incoming pairing direction. *)
Theorem X10_ref_prompt_timeout ref k rt c env n tr res :
  run (test_secure_pairing ref k rt c) env n = (tr, res) ->
  ref_events_taken tr = [None] ->
  res = Err TimeoutError
  /\ ref_answers tr = []
  /\ ref_disconnects tr = []
  /\ bond_state_waits tr = []
  /\ (dut_confirmations tr = []
      \/ (connection_direction c = OUTGOING
          /\ pairing_direction c = INCOMING
          /\ dut_confirmations tr = [true])).
Proof.
  intros H Hnone. apply test_secure_pairing_run in H.
  destruct H as [pre [Hpre [[-> _] | [rd [tr1 [m [-> [_ Hs]]]]]]]].
  - destruct (stage_view_nil Hpre) as (_ & _ & Ht & _).
    rewrite Ht in Hnone. discriminate Hnone.
  - destruct (more_view_prefix tr1 Hpre) as [-> _].
    destruct (stage_view_prefix tr1 Hpre) as (_ & -> & Ht & -> & -> & _).
    rewrite Ht in Hnone.
    destruct (proj2 (pairing_stage_prompt_timeouts _ _ _ _ _ _ _ Hs) Hnone)
      as (Hres & Ha & Hd & Hb & Hc).
    repeat (split; [assumption|]).
    destruct Hc as [E | [End E]]; [left; exact E|].
    right. apply need_double_confirmation_true in End. tauto.
Qed.

Lemma X10_witness :
  exists tr,
    run (test_secure_pairing example_ref 2 on_timeout case_reject_out_in)
      (scripted_env (no_ref_prompt case_reject_out_in)) 0
    = (tr, Err TimeoutError)
    /\ ref_answers tr = []
    /\ dut_confirmations tr = [true].
Proof.
  eexists.
  destruct (X10_ref_prompt_timeout example_ref 2 on_timeout
              case_reject_out_in
              (scripted_env (no_ref_prompt case_reject_out_in)) 0
              (res := Err TimeoutError) eq_refl eq_refl)
    as (_ & Ha & _ & _ & [Hc | (_ & _ & Hc)]).
  - discriminate Hc.
  - split; [reflexivity|]. split; [exact Ha|exact Hc].
Defined.

(** X11.  Whatever the outcome of an execution: an answer is put on REF's
    queue, the link is disconnected or the terminal bond state is waited
    for only after both devices reported the pairing method the lookup
    expects for REF's IO capability. *)
Theorem X11_resolution_after_method_check ref k rt c env n tr res :
  run (test_secure_pairing ref k rt c) env n = (tr, res) ->
  ref_answers tr <> [] \/ ref_disconnects tr <> []
  \/ bond_state_waits tr <> [] ->
  exists dut_event ref_event,
    find (fun e =>
            String.eqb (pr_address e)
              (upper (ref_addr_of ref (ref_connection_address_type c))))
      (last (dut_pairing_waits tr) []) = Some dut_event
    /\ ref_events_taken tr = [Some ref_event]
    /\ ((ref_io_capability c = NO_OUTPUT_NO_INPUT
         /\ pr_variant dut_event = CONSENT
         /\ pe_variant ref_event = JUST_WORK)
        \/ (ref_io_capability c = DISPLAY_OUTPUT_AND_YES_NO_INPUT
            /\ pr_variant dut_event = PASSKEY_CONFIRMATION
            /\ pe_variant ref_event = NUMERIC_COMPARISON)).
Proof.
  intros H Hany. apply test_secure_pairing_run in H.
  destruct H as [pre [Hpre [[-> _] | [rd [tr1 [m [-> [_ Hs]]]]]]]].
  - destruct (more_view_nil Hpre) as [Hd _].
    destruct (stage_view_nil Hpre) as (_ & _ & _ & Ha & Hb & _).
    rewrite Hd, Ha, Hb in Hany. exfalso. tauto.
  - destruct (more_view_prefix tr1 Hpre) as [Hd _].
    destruct (stage_view_prefix tr1 Hpre) as (Hw & _ & Ht & Ha & Hb & _).
    rewrite Hd, Ha, Hb in Hany. rewrite Hw, Ht.
    destruct (pairing_stage_resolution_needs_match _ _ _ _ _ _ _ Hs Hany)
      as (dut_event & ref_event & answer & Hfind & Htaken & Hdict).
    exists dut_event, ref_event.
    split; [exact Hfind|]. split; [exact Htaken|].
    destruct (ref_io_capability c); try discriminate Hdict;
      cbn in Hdict; injection Hdict as E1 E2 _; auto.
Qed.

Lemma X11_witness :
  exists tr dut_event ref_event,
    run (test_secure_pairing example_ref 2 on_timeout case_accept_out_out)
      (scripted_env (stuck_bonding case_accept_out_out)) 0
    = (tr, Err TimeoutError)
    /\ ref_events_taken tr = [Some ref_event]
    /\ pr_variant dut_event = CONSENT
    /\ pe_variant ref_event = JUST_WORK.
Proof.
  eexists.
  destruct (X11_resolution_after_method_check example_ref 2 on_timeout
              case_accept_out_out
              (scripted_env (stuck_bonding case_accept_out_out)) 0
              (res := Err TimeoutError) eq_refl)
    as (dut_event & ref_event & _ & Ht & [(_ & Hd & Hr) | (Hio & _)]).
  - left. discriminate.
  - exists dut_event, ref_event.
    split; [reflexivity|]. split; [exact Ht|]. split; [exact Hd|exact Hr].
  - discriminate Hio.
Defined.

Lemma find_terminated_none bonds :
  Forall (fun e => bs_state e = BOND_BONDING) bonds ->
  find (fun e => existsb (BondState_eqb (bs_state e))
                   _TERMINATED_BOND_STATES) bonds = None.
Proof.
  induction 1 as [|e l He _ IH]; simpl; [reflexivity|].
  rewrite He. simpl. exact IH.
Qed.

(** X12.  BONDING is not a terminal state: when every bond state event the
    last wait delivers is BONDING, the execution fails with the timeout,
    and a pairing task that was started is not awaited. *)
Theorem X12_bonding_is_not_terminal ref k rt c env n tr res :
  run (test_secure_pairing ref k rt c) env n = (tr, res) ->
  forall bonds,
    bond_state_waits tr = [bonds] ->
    Forall (fun e => bs_state e = BOND_BONDING) bonds ->
    res = Err TimeoutError /\ pair_task_awaits tr = [].
Proof.
  intros H bonds Hb Hall.
  pose proof (test_secure_pairing_final _ _ _ _ _ _ H Hb) as Hfinal.
  rewrite (find_terminated_none Hall) in Hfinal. exact Hfinal.
Qed.

Lemma X12_witness :
  exists tr,
    run (test_secure_pairing example_ref 2 on_timeout case_reject_in_in)
      (scripted_env (stuck_bonding case_reject_in_in)) 0
    = (tr, Err TimeoutError)
    /\ pair_tasks_created tr = [mkConnection 2 BT_LE_TRANSPORT]
    /\ pair_task_awaits tr = [].
Proof.
  eexists. split; [vm_compute; reflexivity|]. split; [reflexivity|].
  refine (proj2 (X12_bonding_is_not_terminal example_ref 2 on_timeout
                   case_reject_in_in
                   (scripted_env (stuck_bonding case_reject_in_in)) 0
                   (res := Err TimeoutError) eq_refl
                   (bonds := script_bond_events
                               (stuck_bonding case_reject_in_in))
                   eq_refl _)).
  repeat constructor.
Defined.

(** X13.  With both directions INCOMING the pairing task that was started
    is awaited only after the check of the terminal bond state has passed:
    when the terminal state is not the expected one the execution fails
    with an assertion failure and leaves the task unawaited. *)
Theorem X13_failed_final_check_leaves_task ref k rt c env n tr res :
  run (test_secure_pairing ref k rt c) env n = (tr, res) ->
  connection_direction c = INCOMING ->
  pairing_direction c = INCOMING ->
  forall bonds final,
    bond_state_waits tr = [bonds] ->
    find (fun e => existsb (BondState_eqb (bs_state e))
                     _TERMINATED_BOND_STATES) bonds = Some final ->
    bs_state final
    <> (match variant c with ACCEPT => BOND_BONDED | _ => BOND_NONE end) ->
    res = Err AssertionFailure
    /\ pair_task_awaits tr = []
    /\ exists connection, pair_tasks_created tr = [connection].
Proof.
  intros H Hcd Hpd bonds final Hb Hfind Hneq.
  pose proof (test_secure_pairing_final _ _ _ _ _ _ H Hb) as Hfinal.
  rewrite Hfind in Hfinal.
  assert (Hexp : (if TestVariant_eqb (variant c) ACCEPT
                  then BOND_BONDED else BOND_NONE)
                 = match variant c with
                   | ACCEPT => BOND_BONDED
                   | _ => BOND_NONE
                   end) by (destruct (variant c); reflexivity).
  rewrite Hexp in Hfinal.
  destruct (BondState_eqb (bs_state final) _) eqn:E.
  - apply BondState_eqb_eq in E. contradiction.
  - destruct Hfinal as [Hres Hawait].
    split; [exact Hres|]. split; [exact Hawait|].
    apply test_secure_pairing_run in H. rewrite Hcd, Hpd in H.
    cbn [Direction_eqb andb] in H.
    destruct H as [pre [Hpre [[-> _] | [rd [tr1 [m [-> [Hc Hs]]]]]]]].
    + destruct (stage_view_nil Hpre) as (_ & _ & _ & _ & Hnil & _).
      rewrite Hnil in Hb. discriminate Hb.
    + exists rd. unfold pair_tasks_created in *. rewrite project_app, Hc.
      destruct (pairing_stage_no_pair_task _ _ _ _ _ _ _ Hs) as [Hn _].
      unfold pair_tasks_created in Hn. rewrite Hn. reflexivity.
Qed.

Lemma X13_witness :
  exists tr,
    run (test_secure_pairing example_ref 2 on_timeout case_reject_in_in)
      (scripted_env (always_bonded case_reject_in_in)) 0
    = (tr, Err AssertionFailure)
    /\ pair_task_awaits tr = []
    /\ exists connection, pair_tasks_created tr = [connection].
Proof.
  eexists. split; [vm_compute; reflexivity|].
  refine (proj2 (X13_failed_final_check_leaves_task example_ref 2 on_timeout
                   case_reject_in_in
                   (scripted_env (always_bonded case_reject_in_in)) 0
                   (res := Err AssertionFailure) eq_refl eq_refl eq_refl
                   (bonds := script_bond_events
                               (always_bonded case_reject_in_in))
                   (final := mkBondStateChanged "C0:FF:EE:00:11:22"
                               BOND_BONDED)
                   eq_refl eq_refl _)).
  discriminate.
Defined.
End PairingFailures.


(* ================================================================== *)
(** * The parameter matrix and the test body together *)
(* ================================================================== *)

Module MatrixAndTest.
Import Matrix MatrixFacts LePairingTest TraceView RunFacts PairingStageFacts
  TestFacts Examples MoreExamples.

Lemma NoDup_product_step (A B : Type) (xs : list A) (ys : list B) :
  NoDup xs -> NoDup ys -> NoDup (product_step xs ys).
Proof.
  intros Hx Hy. unfold product_step.
  induction Hx as [|x xs Hnin _ IH]; simpl; [constructor|].
  apply NoDup_app.
  - apply NoDup_map_NoDup_ForallPairs; [|exact Hy].
    intros y1 y2 _ _ E. now injection E.
  - exact IH.
  - intros [x' y'] Hin1 Hin2.
    apply in_map_iff in Hin1. destruct Hin1 as [y [E _]].
    injection E as <- <-.
    apply in_flat_map in Hin2. destruct Hin2 as [x2 [Hx2 Hin2]].
    apply in_map_iff in Hin2. destruct Hin2 as [y2 [E _]].
    injection E as -> _. contradiction.
Qed.

(** X14.  When [constants.Direction] has no member twice, no case occurs
    twice among the parameters of [test_secure_pairing]. *)
Theorem X14_parameters_without_duplicates dirs :
  NoDup dirs -> NoDup (test_secure_pairing_parameters dirs).
Proof.
  intros Hd. unfold test_secure_pairing_parameters.
  rewrite flat_map_if_filter. apply NoDup_filter.
  unfold full_product. apply NoDup_map_NoDup_ForallPairs.
  - intros [[[[[v1 c1] p1] i1] a1] k1] [[[[[v2 c2] p2] i2] a2] k2] _ _ E.
    simpl in E. now injection E as -> -> -> -> -> ->.
  - repeat apply NoDup_product_step; try exact Hd;
      repeat constructor; simpl; intuition discriminate.
Qed.

Lemma X14_witness :
  NoDup (test_secure_pairing_parameters [OUTGOING; INCOMING]).
Proof.
  apply X14_parameters_without_duplicates.
  repeat constructor; simpl; intuition discriminate.
Defined.

Lemma run_retry_ok (A : Type) rt k (op : Prog A) env n tr a :
  run op env n = (tr, Ok a) ->
  run (retry_on_exception rt k op) env n = (tr, Ok a).
Proof.
  intros H. destruct k; cbn [retry_on_exception]; [exact H|].
  now rewrite run_catch, H.
Qed.

Lemma cooperative_passes ref k rt c :
  ref_io_capability c = NO_OUTPUT_NO_INPUT
  \/ ref_io_capability c = DISPLAY_OUTPUT_AND_YES_NO_INPUT ->
  exists tr,
    run (test_secure_pairing ref k rt c)
      (scripted_env (cooperative_for ref c)) 0 = (tr, Ok tt).
Proof.
  intros Hio. destruct c as [v cd pd io a kd]. simpl in Hio.
  unfold test_secure_pairing, connect_and_initiate,
    _make_outgoing_connection, _make_incoming_connection, cooperative_for.
  cbn [variant connection_direction pairing_direction ref_io_capability
       ref_connection_address_type smp_key_distribution].
  generalize (upper (ref_addr_of ref a)). intros ra.
  destruct v, cd, pd, Hio as [-> | ->]; cbn [Direction_eqb andb];
    unfold call at 1 2 3, unwrap at 1; cbn [run bind scripted_env];
    rewrite run_bind, run_bind;
    match goal with
    | |- context [run (retry_on_exception ?rt' ?k' ?op) ?env ?n] =>
        let r := eval vm_compute in (run op env n) in
        match r with
        | (?t, Ok ?x) =>
            rewrite (@run_retry_ok _ rt' k' op env n t x)
              by (vm_compute; reflexivity)
        end
    end;
    unfold pairing_stage, wait_for_event, asyncio_wait_for, assert_true,
      dict_getitem, contextlib_suppress, unwrap, call;
    cbn [run bind catch scripted_env script_pairing_requests
         script_ref_prompt script_bond_events script_pair_task
         IoCapability_eqb Datatypes.length Nat.add app find pr_address
         pr_variant pr_pin pe_variant pe_arg bs_state dict_get
         pairing_method_table DutPairingVariant_eqb RefPairingVariant_eqb
         BondState_eqb TestVariant_eqb existsb _TERMINATED_BOND_STATES orb
         exn_eqb];
    rewrite ?String.eqb_refl;
    cbn [run bind catch scripted_env script_pairing_requests
         script_ref_prompt script_bond_events script_pair_task
         IoCapability_eqb Datatypes.length Nat.add app find pr_address
         pr_variant pr_pin pe_variant pe_arg bs_state dict_get
         pairing_method_table DutPairingVariant_eqb RefPairingVariant_eqb
         BondState_eqb TestVariant_eqb existsb _TERMINATED_BOND_STATES orb
         exn_eqb];
    rewrite ?String.eqb_refl;
    cbn [run bind catch scripted_env script_pairing_requests
         script_ref_prompt script_bond_events script_pair_task
         IoCapability_eqb Datatypes.length Nat.add app find pr_address
         pr_variant pr_pin pe_variant pe_arg bs_state dict_get
         pairing_method_table DutPairingVariant_eqb RefPairingVariant_eqb
         BondState_eqb TestVariant_eqb existsb _TERMINATED_BOND_STATES orb
         exn_eqb];
    eexists; reflexivity.
Qed.

(** X15.  Whatever REF, the retry decorator and the other parameters of a
    case are: some behaviour of the two devices makes [test_secure_pairing]
    pass exactly when REF's IO capability is NO_OUTPUT_NO_INPUT or
    DISPLAY_OUTPUT_AND_YES_NO_INPUT.  With any other IO capability no
    execution passes. *)
Theorem X15_passable_iff_io_capability_in_lookup ref k rt c :
  (exists env tr,
      run (test_secure_pairing ref k rt c) env 0 = (tr, Ok tt))
  <-> (ref_io_capability c = NO_OUTPUT_NO_INPUT
       \/ ref_io_capability c = DISPLAY_OUTPUT_AND_YES_NO_INPUT).
Proof.
  split.
  - intros (env & tr & H). apply test_secure_pairing_passed in H.
    destruct H as (rd & _ & dut_event & ref_event & answer & final & H).
    destruct H as (_ & _ & _ & Hdict & _).
    destruct (ref_io_capability c); try discriminate Hdict; auto.
  - intros Hio. destruct (cooperative_passes ref k rt c Hio) as [tr H].
    eauto.
Qed.

(** X16.  Every case among the parameters of [test_secure_pairing] can
    pass: for each there is a behaviour of the two devices with which the
    execution passes. *)
Theorem X16_every_parameter_can_pass ref k rt dirs c :
  In c (test_secure_pairing_parameters dirs) ->
  exists env tr, run (test_secure_pairing ref k rt c) env 0 = (tr, Ok tt).
Proof.
  intros Hin. unfold test_secure_pairing_parameters in Hin.
  rewrite flat_map_if_filter in Hin. apply filter_In in Hin.
  destruct Hin as [Hin _]. apply in_full_product in Hin.
  destruct Hin as (_ & _ & _ & Hio & _).
  destruct (cooperative_passes ref k rt c) as [tr H]; [|eauto].
  simpl in Hio. intuition auto.
Qed.

Lemma X16_witness :
  exists env tr,
    run (test_secure_pairing example_ref 2 on_timeout case_reject_in_in)
      env 0 = (tr, Ok tt).
Proof.
  apply (X16_every_parameter_can_pass example_ref 2 on_timeout
           [OUTGOING; INCOMING] case_reject_in_in).
  vm_compute. tauto.
Defined.

End MatrixAndTest.


(* ================================================================== *)
(** * [hci.py]: addresses, and decoding what was encoded *)
(* ================================================================== *)

Module HciMore.
Import HciExt HciAddress HciFacts.

(** X17.  [parse_address_followed_by_type] succeeds exactly when the data
    has seven bytes from the offset on.  It then returns the offset plus
    seven and an address of six bytes, and the seven bytes at the offset
    are the address bytes followed by the address type. *)
Theorem X17_address_followed_by_type data offset :
  (offset + 7 <= length data <->
   exists new_offset address,
     parse_address_followed_by_type data offset = Some (new_offset, address))
  /\ (forall new_offset address,
         parse_address_followed_by_type data offset
         = Some (new_offset, address) ->
         new_offset = offset + 7
         /\ length (address_bytes address) = 6
         /\ firstn 7 (skipn offset data)
            = address_bytes address ++ [address_type address]).
Proof.
  unfold parse_address_followed_by_type. split.
  - split.
    + intros Hlen.
      destruct (nth_error data (offset + 6)) as [t|] eqn:E; [eauto|].
      apply nth_error_None in E. lia.
    + intros (new_offset & address & H).
      destruct (nth_error data (offset + 6)) as [t|] eqn:E;
        [|discriminate H].
      assert (offset + 6 < length data)
        by (apply nth_error_Some; congruence).
      lia.
  - intros new_offset address H.
    destruct (nth_error data (offset + 6)) as [t|] eqn:E; [|discriminate H].
    assert (Hlt : offset + 6 < length data)
      by (apply nth_error_Some; congruence).
    assert (Hlast : skipn 6 (skipn offset data)
                    = t :: skipn 1 (skipn 6 (skipn offset data))).
    { rewrite skipn_skipn_add. clear Hlt H. revert data E.
      generalize (offset + 6). intros m.
      induction m as [|m IH]; intros [|x data] E; try discriminate E.
      - simpl in E. injection E as ->. reflexivity.
      - apply (IH data E). }
    remember (firstn 6 (skipn offset data)) as address_part eqn:Hpart.
    injection H as <- <-. cbn [address_bytes address_type].
    split; [reflexivity|]. split.
    + subst address_part. rewrite length_firstn, length_skipn. lia.
    + change 7 with (6 + 1). rewrite <- firstn_app_skipn, <- Hpart.
      f_equal. rewrite Hlast. reflexivity.
Qed.

Lemma X17_witness :
  exists new_offset address,
    parse_address_followed_by_type
      [Byte.xaa; Byte.x11; Byte.x22; Byte.x33; Byte.x44; Byte.x55;
       Byte.x66; Byte.x01; Byte.xff] 1
    = Some (new_offset, address)
    /\ new_offset = 8
    /\ length (address_bytes address) = 6
    /\ [Byte.x11; Byte.x22; Byte.x33; Byte.x44; Byte.x55; Byte.x66;
        Byte.x01]
       = address_bytes address ++ [address_type address].
Proof.
  destruct (X17_address_followed_by_type
              [Byte.xaa; Byte.x11; Byte.x22; Byte.x33; Byte.x44; Byte.x55;
               Byte.x66; Byte.x01; Byte.xff] 1) as [Hiff Hshape].
  destruct (proj1 Hiff) as (new_offset & address & H); [simpl; lia|].
  exists new_offset, address. split; [exact H|].
  exact (Hshape new_offset address H).
Defined.

Section DecodeEncoded.

Variable FieldType : Type.
Variable Value : Type.
Variable parse_field :
  list Byte.byte -> nat -> FieldType -> option (Value * nat).
Variable serialize_field : Value -> FieldType -> option (list Byte.byte).

(** What decoding an encoded packet needs of bumble's codec: the bytes
    [serialize_field] gives for a value are parsed back to that value, and
    taken in full, wherever they stand in the data. *)
Hypothesis parse_serialized :
  forall before value field_type bytes after,
    serialize_field value field_type = Some bytes ->
    parse_field (before ++ bytes ++ after) (length before) field_type
    = Some (value, length bytes).

Lemma parse_fields_of_serialized attrs fields :
  forall (values : list Value) bytes,
    length values = length fields ->
    (forall i name field_type value,
        nth_error fields i = Some (name, field_type) ->
        nth_error values i = Some value ->
        getattr attrs name = Some value) ->
    join_serialized serialize_field attrs fields = Some bytes ->
    forall before after acc,
      parse_fields parse_field (before ++ bytes ++ after) (length before)
        fields acc
      = Some (acc ++ values).
Proof.
  induction fields as [|[name0 ft0] rest IH];
    intros values bytes Hlen Hget Hjoin before after acc;
    destruct values as [|v0 values]; try discriminate Hlen.
  - simpl. now rewrite app_nil_r.
  - cbn [HciExt.join_serialized] in Hjoin.
    rewrite (Hget 0 name0 ft0 v0 eq_refl eq_refl) in Hjoin.
    destruct (serialize_field v0 ft0) as [b0|] eqn:E0; [|discriminate Hjoin].
    destruct (join_serialized serialize_field attrs rest) as [tail|] eqn:Et;
      [|discriminate Hjoin].
    injection Hjoin as <-.
    cbn [HciExt.parse_fields].
    rewrite <- (app_assoc b0 tail after).
    rewrite (parse_serialized before (tail ++ after) E0).
    replace (before ++ b0 ++ tail ++ after)
      with ((before ++ b0) ++ tail ++ after) by now rewrite <- app_assoc.
    replace (length before + length b0) with (length (before ++ b0))
      by apply length_app.
    rewrite (IH values tail); [now rewrite <- app_assoc| | |reflexivity].
    + simpl in Hlen. now injection Hlen.
    + intros i name field_type value Hf Hv.
      apply (Hget (S i) name field_type value Hf Hv).
Qed.

(** X18.  For a class without two fields of one name and a codec that
    parses back what it serialized: the bytes [parameters] gives for a
    packet, behind any [PARSE_OFFSET] bytes and before any further bytes,
    are decoded by [from_parameters] to the same packet.  The bytes before
    [PARSE_OFFSET] and the bytes behind the last field have no influence. *)
Theorem X18_decode_of_encoded cls (values : list Value) bytes :
  NoDup (map fst (dataclass_fields cls)) ->
  length values = length (dataclass_fields cls) ->
  parameters serialize_field
    (mkPacket cls (combine (map fst (dataclass_fields cls)) values))
  = Some bytes ->
  forall before after,
    length before = PARSE_OFFSET cls ->
    from_parameters parse_field cls (before ++ bytes ++ after)
    = Some (mkPacket cls (combine (map fst (dataclass_fields cls)) values)).
Proof.
  intros Hnd Hlen Hpar before after Hbefore.
  unfold HciExt.from_parameters. rewrite <- Hbefore.
  unfold HciExt.parameters, fields in Hpar.
  cbn [attributes packet_class] in Hpar.
  erewrite parse_fields_of_serialized;
    [reflexivity|exact Hlen| |exact Hpar].
  intros i name field_type value Hf Hv.
  eapply getattr_combine; [exact Hnd| |exact Hv].
  rewrite nth_error_map, Hf. reflexivity.
Qed.

End DecodeEncoded.

Section DecodedShape.

Variable FieldType : Type.
Variable Value : Type.
Variable parse_field :
  list Byte.byte -> nat -> FieldType -> option (Value * nat).

Lemma getattr_of_name (attrs : list (string * Value)) name :
  In name (map fst attrs) -> getattr attrs name <> None.
Proof.
  induction attrs as [|[n v] attrs IH]; intros Hin; [destruct Hin|].
  cbn [HciExt.getattr]. destruct (String.eqb n name) eqn:E;
    [discriminate|].
  apply IH. destruct Hin as [Hn|Hin]; [|exact Hin].
  simpl in Hn. subst n. rewrite String.eqb_refl in E. discriminate E.
Qed.

Lemma map_fst_combine (A B : Type) (names : list A) :
  forall values : list B,
    length values = length names -> map fst (combine names values) = names.
Proof.
  induction names as [|n names IH]; intros [|v values] Hlen;
    try discriminate Hlen; [reflexivity|].
  simpl. f_equal. apply IH. simpl in Hlen. now injection Hlen.
Qed.

(** X19.  A packet [from_parameters] returns is of the class it was called
    on and has one attribute for every declared field, under the names of
    the fields in declaration order; so every [getattr] of [parameters]
    finds its attribute. *)
Theorem X19_decoded_packet_has_the_fields cls params pkt :
  from_parameters parse_field cls params = Some pkt ->
  packet_class pkt = cls
  /\ map fst (attributes pkt) = map fst (dataclass_fields cls)
  /\ forall name field_type,
       In (name, field_type) (fields pkt) ->
       getattr (attributes pkt) name <> None.
Proof.
  unfold HciExt.from_parameters. intros H.
  destruct (parse_fields parse_field params (PARSE_OFFSET cls)
              (dataclass_fields cls) []) as [values|] eqn:E;
    [|discriminate H].
  injection H as <-. cbn [packet_class attributes fields].
  destruct (parse_fields_steps _ _ _ _ _ E) as (steps & -> & Hlen & _).
  assert (Hnames : map fst (combine (map fst (dataclass_fields cls))
                              ([] ++ map fst steps))
                   = map fst (dataclass_fields cls)).
  { apply map_fst_combine. simpl. now rewrite !length_map. }
  split; [reflexivity|]. split; [exact Hnames|].
  intros name field_type Hin. apply getattr_of_name. rewrite Hnames.
  apply (in_map fst) in Hin. exact Hin.
Qed.

End DecodedShape.

Lemma X19_witness :
  packet_class
    (mkPacket one_field_event [("status"%string, Byte.x01)])
  = one_field_event
  /\ map fst (attributes
                (mkPacket one_field_event [("status"%string, Byte.x01)]))
     = map fst (dataclass_fields one_field_event)
  /\ forall name field_type,
       In (name, field_type)
         (fields (mkPacket one_field_event [("status"%string, Byte.x01)])) ->
       getattr
         (attributes
            (mkPacket one_field_event [("status"%string, Byte.x01)])) name
       <> None.
Proof.
  apply (@X19_decoded_packet_has_the_fields unit Byte.byte parse_u8
           one_field_event three_bytes).
  reflexivity.
Defined.

Lemma u8_parse_serialized :
  forall before value field_type bytes after,
    serialize_u8 value field_type = Some bytes ->
    parse_u8 (before ++ bytes ++ after) (length before) field_type
    = Some (value, length bytes).
Proof.
  intros before value [] bytes after H. unfold serialize_u8 in H.
  injection H as <-. unfold parse_u8.
  rewrite nth_error_app2 by lia. now rewrite Nat.sub_diag.
Qed.

Lemma X18_witness :
  from_parameters parse_u8 two_field_event
    ([Byte.xff] ++ [Byte.x01; Byte.x02] ++ [Byte.x03; Byte.x04])
  = Some (mkPacket two_field_event
            (combine (map fst (dataclass_fields two_field_event))
               [Byte.x01; Byte.x02])).
Proof.
  apply (@X18_decode_of_encoded unit Byte.byte parse_u8 serialize_u8
           u8_parse_serialized two_field_event [Byte.x01; Byte.x02]
           [Byte.x01; Byte.x02]).
  - repeat constructor; simpl; intuition discriminate.
  - reflexivity.
  - reflexivity.
  - reflexivity.
Defined.

End HciMore.


(* ================================================================== *)
(** * [generic_functionality_suite.py]: what [main] runs *)
(* ================================================================== *)

Module SuiteFacts.
Import Suite.

Lemma app_split_behind (A : Type) :
  forall (here rest before : list A) failing after,
    here ++ rest = before ++ failing :: after ->
    length here <= length before ->
    exists later,
      before = here ++ later /\ rest = later ++ failing :: after.
Proof.
  induction here as [|h here IH]; intros rest before failing after Hs Hle.
  - exists before. auto.
  - destruct before as [|b before]; [simpl in Hle; lia|].
    simpl in Hs. injection Hs as -> Hs.
    simpl in Hle. apply le_S_n in Hle.
    destruct (IH _ _ _ _ Hs Hle) as (later & -> & ->).
    exists later. auto.
Qed.

Lemma app_split_within (A : Type) :
  forall (before here rest : list A) failing after,
    here ++ rest = before ++ failing :: after ->
    length before < length here ->
    exists after', here = before ++ failing :: after'.
Proof.
  induction before as [|b before IH]; intros here rest failing after Hs Hgt;
    (destruct here as [|h here]; [simpl in Hgt; lia|]);
    simpl in Hs; injection Hs as -> Hs.
  - now exists here.
  - simpl in Hgt. apply Nat.succ_lt_mono in Hgt.
    destruct (IH _ _ _ _ Hs Hgt) as [after' ->].
    now exists after'.
Qed.

Section WithImportSystem.

Variable BaseTestClass : nat.
Variable sys : ImportSystem.

Lemma collect_submodules_ok members prefix :
  forall submodules test_classes,
    Forall (fun name => import_module sys name = Ok (members name))
      (map (String.append prefix) submodules) ->
    collect_submodules BaseTestClass sys prefix submodules test_classes
    = Ok (test_classes
          ++ flat_map (fun name => map snd (getmembers (members name)
                              (is_test_class BaseTestClass)))
               (map (String.append prefix) submodules)).
Proof.
  induction submodules as [|name rest IH]; intros test_classes Hall.
  - simpl. now rewrite app_nil_r.
  - cbn [map] in Hall. inversion Hall as [|? ? Hname Hrest]; subst.
    cbn [collect_submodules map flat_map]. rewrite Hname.
    rewrite (IH _ Hrest). now rewrite <- app_assoc.
Qed.

Lemma collect_modules_ok members :
  forall modules test_classes,
    Forall (fun name => import_module sys name = Ok (members name))
      (submodule_names sys modules) ->
    collect_modules BaseTestClass sys modules test_classes
    = Ok (test_classes
          ++ flat_map (fun name => map snd (getmembers (members name)
                              (is_test_class BaseTestClass)))
               (submodule_names sys modules)).
Proof.
  induction modules as [|module_name rest IH]; intros test_classes Hall.
  - simpl. now rewrite app_nil_r.
  - unfold submodule_names in Hall. cbn [flat_map] in Hall.
    apply Forall_app in Hall. destruct Hall as [Hhere Hrest].
    cbn [collect_modules].
    rewrite (collect_submodules_ok members _ _ _ Hhere).
    rewrite (IH _ Hrest).
    unfold submodule_names. cbn [flat_map].
    now rewrite flat_map_app, <- app_assoc.
Qed.

Lemma collect_submodules_err members prefix e :
  forall submodules test_classes before failing after,
    map (String.append prefix) submodules = before ++ failing :: after ->
    Forall (fun name => import_module sys name = Ok (members name)) before ->
    import_module sys failing = Err e ->
    collect_submodules BaseTestClass sys prefix submodules test_classes
    = Err e.
Proof.
  induction submodules as [|name rest IH];
    intros test_classes before failing after Hsplit Hbefore Hfail.
  - destruct before; discriminate Hsplit.
  - cbn [collect_submodules]. destruct before as [|b before].
    + injection Hsplit as Hb _. rewrite Hb, Hfail. reflexivity.
    + injection Hsplit as Hb Hrest.
      inversion Hbefore as [|? ? Hname Hbefore']; subst.
      rewrite Hname. eapply IH; eassumption.
Qed.

Lemma collect_modules_err members e :
  forall modules test_classes before failing after,
    submodule_names sys modules = before ++ failing :: after ->
    Forall (fun name => import_module sys name = Ok (members name)) before ->
    import_module sys failing = Err e ->
    collect_modules BaseTestClass sys modules test_classes = Err e.
Proof.
  induction modules as [|module_name rest IH];
    intros test_classes before failing after Hsplit Hbefore Hfail.
  - destruct before; discriminate Hsplit.
  - unfold submodule_names in Hsplit. cbn [flat_map] in Hsplit.
    fold (submodule_names sys rest) in Hsplit.
    cbn [collect_modules].
    destruct (Nat.le_gt_cases
                (length (map (String.append (String.append module_name "."))
                           (iter_modules sys module_name)))
                (length before)) as [Hle|Hgt].
    + (* the failing import is of a later package *)
      destruct (app_split_behind _ _ _ _ _ Hsplit Hle)
        as (later & Hb & Hrest).
      rewrite Hb in Hbefore.
      apply Forall_app in Hbefore. destruct Hbefore as [Hhere Hlater].
      rewrite (collect_submodules_ok members _ _ _ Hhere).
      eapply IH; eassumption.
    + (* the failing import is of this package *)
      destruct (app_split_within _ _ _ _ _ Hsplit Hgt) as [after' Hh].
      erewrite collect_submodules_err; [reflexivity|exact Hh| |exact Hfail].
      exact Hbefore.
Qed.

(** X20.  When every import succeeds, [main] calls [run_suite] with the
    test classes of the submodules of [navi.tests.smoke] followed by those
    of [navi.tests.functionality], each submodule in the order of
    [iter_modules] and each class in the order of [getmembers]: one entry
    for every member, under whatever name, that is a class equal to or
    derived from [BaseTestClass].  Nothing is left out as a duplicate: a
    class that is a member of two submodules, or of one submodule under two
    names, is handed over once for each. *)
Theorem X20_main_runs_all_test_classes members :
  Forall (fun name => import_module sys name = Ok (members name))
    (submodule_names sys
       ["navi.tests.smoke"%string; "navi.tests.functionality"%string])
  ->
  main BaseTestClass sys
  = Ok (flat_map
          (fun name =>
             map snd
               (getmembers (members name) (is_test_class BaseTestClass)))
          (submodule_names sys
             ["navi.tests.smoke"%string; "navi.tests.functionality"%string])).
Proof.
  intros Hall. unfold main.
  rewrite (collect_modules_ok members _ _ Hall). reflexivity.
Qed.

(** X21.  When an import raises and the imports before it, in the order
    of the loops, succeed, [main] raises that exception: [run_suite] is not
    called, whatever the later submodules hold. *)
Theorem X21_main_stops_at_failing_import members before failing after e :
  submodule_names sys
    ["navi.tests.smoke"%string; "navi.tests.functionality"%string]
  = before ++ failing :: after ->
  Forall (fun name => import_module sys name = Ok (members name)) before ->
  import_module sys failing = Err e ->
  main BaseTestClass sys = Err e.
Proof.
  intros Hsplit Hbefore Hfail. unfold main.
  eapply collect_modules_err; eassumption.
Qed.

End WithImportSystem.

Lemma X20_witness :
  main 1 example_system
  = Ok [ClassObject (mkPyClass 7 [1]);
        ClassObject (mkPyClass 7 [1]);
        ClassObject (mkPyClass 7 [1]);
        ClassObject (mkPyClass 1 []);
        ClassObject (mkPyClass 9 [7; 1])].
Proof.
  apply (@X20_main_runs_all_test_classes 1 example_system example_members).
  repeat constructor.
Defined.

Lemma X21_witness : main 1 broken_system = Err (OtherError 1).
Proof.
  apply (@X21_main_stops_at_failing_import 1 broken_system example_members
           ["navi.tests.smoke.a"%string] "navi.tests.smoke.b"%string
           ["navi.tests.functionality.le"%string] (OtherError 1)).
  - reflexivity.
  - repeat constructor.
  - reflexivity.
Defined.

End SuiteFacts.


(* ================================================================== *)
(** * [test_secure_pairing]: the two [createBond] *)
(* ================================================================== *)

Module CreateBondFacts.
Import Matrix MatrixFacts LePairingTest TraceView BondViews RunFacts
  PairingStageFacts TestFacts Examples MoreExamples BondExamples.

Ltac bond_static :=
  repeat first
    [ exact I
    | reflexivity
    | apply all_calls_unwrap
    | apply all_calls_retry
    | apply all_calls_with_exit
    | apply all_calls_bind
    | apply all_calls_catch
    | progress intros
    | progress cbn [all_calls call]
    | split
    | match goal with
      | |- all_calls _ (match ?b with _ => _ end) => destruct b
      end ].

Lemma incoming_without_create_bond k rt a :
  all_calls (fun c => create_bond_call c = false)
    (_make_incoming_connection k rt a).
Proof.
  unfold _make_incoming_connection, _make_incoming_connection_attempt,
    assert_not_timeout_await.
  bond_static.
Qed.

Lemma outgoing_gatt_without_create_bond ref k rt a :
  all_calls (fun c => create_bond_call c = false)
    (_make_outgoing_connection ref k rt a false).
Proof.
  unfold _make_outgoing_connection, _make_outgoing_connection_attempt,
    assert_not_timeout_await.
  bond_static.
Qed.

Lemma pairing_stage_without_create_bond c ra nd rd pt :
  all_calls (fun c => create_bond_call c = false)
    (pairing_stage c ra nd rd pt).
Proof.
  unfold pairing_stage, wait_for_event, asyncio_wait_for, dict_getitem,
    contextlib_suppress, assert_true.
  bond_static.
Qed.

Lemma test_without_create_bond ref k rt c :
  pairing_direction c = INCOMING ->
  all_calls (fun c => create_bond_call c = false)
    (test_secure_pairing ref k rt c).
Proof.
  intros Hp. unfold test_secure_pairing, connect_and_initiate.
  rewrite Hp.
  pose proof (incoming_without_create_bond k rt) as Hin.
  pose proof (outgoing_gatt_without_create_bond ref k rt) as Hout.
  pose proof pairing_stage_without_create_bond as Hstage.
  destruct (connection_direction c); cbn [Direction_eqb andb];
    repeat first
      [ exact I | reflexivity | apply Hin | apply Hout | apply Hstage
      | apply all_calls_unwrap | apply all_calls_bind
      | progress intros | progress cbn [all_calls call] | split
      | match goal with
        | |- all_calls _ (match ?b with _ => _ end) => destruct b
        end ].
Qed.

(** X22.  For every case among the parameters of [test_secure_pairing]
    and whatever the outcome of the execution: DUT's [createBond] is called
    only when the connection direction and the pairing direction are both
    OUTGOING, that is from [_make_outgoing_connection], which asserts its
    result.  The [createBond] of the test body itself, whose result is not
    looked at, belongs to the combination of incoming connection and
    outgoing pairing direction, which the parameters leave out. *)
Theorem X22_create_bond_only_when_both_outgoing ref k rt dirs c env n tr res :
  In c (test_secure_pairing_parameters dirs) ->
  run (test_secure_pairing ref k rt c) env n = (tr, res) ->
  (connection_direction c = OUTGOING /\ pairing_direction c = OUTGOING)
  \/ create_bond_calls tr = [].
Proof.
  intros Hin H. unfold test_secure_pairing_parameters in Hin.
  rewrite flat_map_if_filter in Hin. apply filter_In in Hin.
  destruct Hin as [_ Hkeep].
  destruct (pairing_direction c) eqn:Hp.
  - left. destruct (connection_direction c) eqn:Hc; [auto|].
    exfalso. apply andb_prop in Hkeep. destruct Hkeep as [_ Hkeep].
    unfold excluded_incoming_outgoing in Hkeep. rewrite Hc, Hp in Hkeep.
    discriminate Hkeep.
  - right.
    pose proof (@all_calls_run _ (fun c => create_bond_call c = false)
                  (test_secure_pairing ref k rt c) env n
                  (test_without_create_bond ref k rt c Hp)) as Hall.
    rewrite H in Hall. cbn [fst] in Hall.
    apply (@project_none _ _ (fun c => create_bond_call c = false));
      [|exact Hall].
    intros call r Hcall. destruct call; try reflexivity. discriminate Hcall.
Qed.

Lemma X22_witness :
  exists tr,
    run (test_secure_pairing example_ref 2 on_timeout case_reject_in_in)
      (scripted_env (cooperative case_reject_in_in)) 0 = (tr, Ok tt)
    /\ create_bond_calls tr = [].
Proof.
  eexists. split; [reflexivity|].
  match goal with
  | |- create_bond_calls ?t = [] =>
      destruct (@X22_create_bond_only_when_both_outgoing example_ref 2
                  on_timeout [OUTGOING; INCOMING] case_reject_in_in
                  (scripted_env (cooperative case_reject_in_in)) 0
                  t (Ok tt)) as [[Hc _]|Hnone]
  end.
  - vm_compute. tauto.
  - reflexivity.
  - discriminate Hc.
  - exact Hnone.
Defined.

Lemma without_create_bond_view tr :
  Forall (fun o => create_bond_call (obs_call o) = false) tr ->
  create_bond_calls tr = [].
Proof.
  apply (@project_none _ _ (fun c => create_bond_call c = false)).
  intros call r Hcall. destruct call; try reflexivity. discriminate Hcall.
Qed.

(** The test body's own [createBond], after an incoming connection. *)
Lemma connect_and_initiate_create_bond ref k rt c ra env n tr0 res0 :
  run (connect_and_initiate ref k rt c ra) env n = (tr0, res0) ->
  connection_direction c = INCOMING ->
  pairing_direction c = OUTGOING ->
  (create_bond_calls tr0 = [] /\ exists e, res0 = Err e)
  \/ exists r,
       create_bond_calls tr0 = [(ra, ref_connection_address_type c, r)]
       /\ match r with
          | Ok _ => exists ref_dut, res0 = Ok (ref_dut, false)
          | Err e => res0 = Err e
          end.
Proof.
  intros H Hc Hp. unfold connect_and_initiate in H. rewrite Hc, Hp in H.
  cbn [Direction_eqb] in H. rewrite run_bind in H.
  pose proof (@all_calls_run _ (fun c => create_bond_call c = false)
                (_make_incoming_connection k rt (ref_connection_address_type c))
                env n (incoming_without_create_bond k rt _)) as Hall.
  destruct (run (_make_incoming_connection k rt
                   (ref_connection_address_type c)) env n)
    as [t1 [conn|e]]; cbn [fst] in Hall;
    apply without_create_bond_view in Hall.
  - unfold call, unwrap in H. cbn [run bind] in H.
    destruct (env (DutCreateBond ra (ref_connection_address_type c))
                (n + length t1)) as [bonded|e] eqn:Er;
      cbn [run bind] in H; injection H as <- <-; right;
      unfold create_bond_calls in *; rewrite project_app, Hall;
      unfold project; cbn [flat_map obs_call obs_resp app];
      eexists; (split; [reflexivity|]); cbv beta iota; eauto.
  - injection H as <- <-. left. eauto.
Qed.

Lemma pairing_stage_waits c ra nd rd pt env n tr res :
  run (pairing_stage c ra nd rd pt) env n = (tr, res) ->
  dut_pairing_waits tr <> [].
Proof.
  intros H. unfold pairing_stage in H. unfold call at 1 in H.
  cbn [run bind] in H.
  match type of H with
  | (let '(_, _) := ?r in _) = _ => destruct r as [t r1]
  end.
  injection H as <- _. discriminate.
Qed.

(** X23.  In an execution with incoming connection and outgoing pairing
    direction the test body calls [createBond] at most once, with REF's
    address in upper case and the case's address type, and does not look at
    what it returns: when the call returns, with True or with False, the
    execution goes on to the wait for DUT's pairing request. *)
Theorem X23_own_create_bond_unchecked ref k rt c env n tr res :
  run (test_secure_pairing ref k rt c) env n = (tr, res) ->
  connection_direction c = INCOMING ->
  pairing_direction c = OUTGOING ->
  create_bond_calls tr = []
  \/ exists r,
       create_bond_calls tr
       = [(upper (ref_addr_of ref (ref_connection_address_type c)),
           ref_connection_address_type c, r)]
       /\ ((exists bonded, r = Ok bonded) -> dut_pairing_waits tr <> []).
Proof.
  intros H Hc Hp. unfold test_secure_pairing in H.
  unfold call at 1 2 3, unwrap at 1 in H. cbn [run bind] in H.
  destruct (env DutRegisterCallback (S n)) as [[]|e] eqn:Ereg;
    cbn [run bind] in H.
  - rewrite run_bind in H.
    destruct (run (connect_and_initiate ref k rt c
                     (upper (ref_addr_of ref (ref_connection_address_type c))))
                env (S (S (S n)))) as [t0 [[rd pt]|e]] eqn:Hci;
      apply connect_and_initiate_create_bond in Hci; try assumption.
    + destruct (run (pairing_stage c
                       (upper (ref_addr_of ref
                                 (ref_connection_address_type c)))
                       (Direction_eqb (connection_direction c) OUTGOING
                        && Direction_eqb (pairing_direction c) INCOMING)
                       rd pt) env (S (S (S n)) + length t0))
        as [t1 r1] eqn:Hs.
      injection H as <- <-.
      pose proof (pairing_stage_waits _ _ _ _ _ _ _ Hs) as Hw.
      pose proof (@all_calls_run _ (fun c => create_bond_call c = false)
                    _ env (S (S (S n)) + length t0)
                    (pairing_stage_without_create_bond c
                       (upper (ref_addr_of ref
                                 (ref_connection_address_type c)))
                       (Direction_eqb (connection_direction c) OUTGOING
                        && Direction_eqb (pairing_direction c) INCOMING)
                       rd pt)) as Hall.
      rewrite Hs in Hall. cbn [fst] in Hall.
      apply without_create_bond_view in Hall.
      destruct Hci as [[_ [e He]]|[r [Hr _]]]; [discriminate He|].
      right. exists r. split.
      * unfold create_bond_calls, project in *.
        cbn [flat_map obs_call obs_resp app].
        rewrite flat_map_app, Hr, Hall. reflexivity.
      * intros _. unfold dut_pairing_waits, project in *.
        cbn [flat_map obs_call obs_resp app].
        rewrite flat_map_app.
        intros E. apply app_eq_nil in E. destruct E as [_ E]. exact (Hw E).
    + injection H as <- <-.
      destruct Hci as [[Hnone _]|[r [Hr Hres]]].
      * left. unfold create_bond_calls, project in *.
        cbn [flat_map obs_call obs_resp app]. exact Hnone.
      * right. exists r. split.
        -- unfold create_bond_calls, project in *.
           cbn [flat_map obs_call obs_resp app]. exact Hr.
        -- intros [bonded ->]. destruct Hres as [rd Hrd]. discriminate Hrd.
  - injection H as <- <-. left. reflexivity.
Qed.

Lemma X23_witness :
  exists tr,
    run (test_secure_pairing example_ref 2 on_timeout case_accept_in_out)
      (bond_refused case_accept_in_out) 0 = (tr, Ok tt)
    /\ create_bond_calls tr = [("C0:FF:EE:00:11:22"%string, RANDOM, Ok false)]
    /\ dut_pairing_waits tr <> [].
Proof.
  eexists. split; [reflexivity|].
  match goal with
  | |- create_bond_calls ?t = _ /\ _ =>
      destruct (@X23_own_create_bond_unchecked example_ref 2 on_timeout
                  case_accept_in_out (bond_refused case_accept_in_out) 0
                  t (Ok tt) eq_refl eq_refl eq_refl)
        as [Hnone|(r & Hr & Hw)]
  end.
  - vm_compute in Hnone. discriminate Hnone.
  - split; [reflexivity|]. apply Hw.
    vm_compute in Hr. injection Hr as <-. eauto.
Defined.

End CreateBondFacts.
